(** * EuroPDF-Extractor: the section-structuring pipeline of [utils/parser.py]

    A shallow embedding of the parts of [PDFExtractor] that the
    specification talks about, and the properties proved of them.

    Conventions of the embedding:
    - a Python [str] is a [list ascii] ([str]); character classes
      ([isdigit], [isspace], [isupper], [\d], [\s]) are the ones Python has
      on the ASCII range;
    - a Python [int] that the code only ever parses from digits and
      increments is an [N];
    - an index that may be negative ([str.find], slices, page numbers) is
      a [Z];
    - a [dict] is an association list in insertion order, updated with
      [dict_set] (assignment to an existing key keeps its position);
    - a function that may raise returns [Res]. *)

From Stdlib Require Import String.
From Stdlib Require Import List Ascii ZArith NArith Lia Bool Arith.
From Stdlib Require Import DecimalString DecimalN.
Import ListNotations.

(** ** Exceptions *)

Inductive exn : Type :=
| ValueError
| IndexError
| AttributeError
| ReError
| RuntimeError
| IOError.

Inductive Res (A : Type) : Type :=
| Ok (a : A)
| Raise (e : exn).

Arguments Ok {A} a.
Arguments Raise {A} e.

Definition bind {A B : Type} (m : Res A) (f : A -> Res B) : Res B :=
  match m with
  | Ok a => f a
  | Raise e => Raise e
  end.

Notation "x <- m ;; k" := (bind m (fun x => k))
  (at level 61, m at next level, right associativity).

Definition of_option {A : Type} (e : exn) (o : option A) : Res A :=
  match o with
  | Some a => Ok a
  | None => Raise e
  end.

Fixpoint mapM {A B : Type} (f : A -> Res B) (l : list A) : Res (list B) :=
  match l with
  | [] => Ok []
  | a :: r => b <- f a ;; bs <- mapM f r ;; Ok (b :: bs)
  end.

(** ** Python strings *)

Definition str : Type := list ascii.

Definition py (x : String.string) : str := String.list_ascii_of_string x.

Fixpoint str_eqb (x y : str) : bool :=
  match x, y with
  | [], [] => true
  | a :: x', b :: y' => Ascii.eqb a b && str_eqb x' y'
  | _, _ => false
  end.

Definition is_digit (c : ascii) : bool :=
  let n := nat_of_ascii c in (48 <=? n) && (n <=? 57).

Definition is_upper (c : ascii) : bool :=
  let n := nat_of_ascii c in (65 <=? n) && (n <=? 90).

Definition is_lower (c : ascii) : bool :=
  let n := nat_of_ascii c in (97 <=? n) && (n <=? 122).

(** [str.isspace] on one character: tab, line feed, vertical tab, form
    feed, carriage return, the four separators 28..31 and the space. *)
Definition is_space (c : ascii) : bool :=
  let n := nat_of_ascii c in
  ((9 <=? n) && (n <=? 13)) || ((28 <=? n) && (n <=? 32)).

(** [s.isdigit()]: non-empty and all digits. *)
Definition isdigit (x : str) : bool :=
  match x with
  | [] => false
  | _ => forallb is_digit x
  end.

Fixpoint startswith (x p : str) : bool :=
  match p, x with
  | [], _ => true
  | b :: p', a :: x' => Ascii.eqb a b && startswith x' p'
  | _ :: _, [] => false
  end.

Fixpoint drop_while (f : ascii -> bool) (x : str) : str :=
  match x with
  | [] => []
  | a :: r => if f a then drop_while f r else x
  end.

Definition lstrip_by (f : ascii -> bool) (x : str) : str := drop_while f x.
Definition rstrip_by (f : ascii -> bool) (x : str) : str :=
  rev (drop_while f (rev x)).
Definition strip_by (f : ascii -> bool) (x : str) : str :=
  rstrip_by f (lstrip_by f x).

(** [s.strip()] and [s.strip('.')]. *)
Definition strip (x : str) : str := strip_by is_space x.
Definition is_dot (c : ascii) : bool := Ascii.eqb c "."%char.
Definition strip_dots (x : str) : str := strip_by is_dot x.

(** [s.split(c)] for a one-character separator: empty fields are kept. *)
Fixpoint split_on (c : ascii) (x : str) : list str :=
  match x with
  | [] => [[]]
  | a :: r =>
      if Ascii.eqb a c then [] :: split_on c r
      else match split_on c r with
           | h :: t => (a :: h) :: t
           | [] => [[a]]
           end
  end.

(** [s.split(' ', 1)]: at most one split, at the first space. *)
Fixpoint split1_space (x : str) : str * option str :=
  match x with
  | [] => ([], None)
  | a :: r =>
      if Ascii.eqb a " "%char then ([], Some r)
      else let '(h, t) := split1_space r in (a :: h, t)
  end.

(** [s.split()]: fields separated by runs of whitespace, none empty. *)
Fixpoint split_ws_aux (cur : str) (x : str) : list str :=
  match x with
  | [] => match cur with [] => [] | _ => [rev cur] end
  | a :: r =>
      if is_space a
      then match cur with
           | [] => split_ws_aux [] r
           | _ => rev cur :: split_ws_aux [] r
           end
      else split_ws_aux (a :: cur) r
  end.

Definition split_ws (x : str) : list str := split_ws_aux [] x.

(** [sep.join(l)]. *)
Fixpoint join (sep : str) (l : list str) : str :=
  match l with
  | [] => []
  | [a] => a
  | a :: r => a ++ sep ++ join sep r
  end.

(** [s.replace(c, '')] for a one-character [c]. *)
Definition remove_char (c : ascii) (x : str) : str :=
  filter (fun a => negb (Ascii.eqb a c)) x.

(** [s.replace(old, '')]: occurrences removed left to right, never
    overlapping; an empty [old] leaves [s] as it is.  [skip] counts the
    characters of the current occurrence still to be dropped. *)
Fixpoint remove_all_aux (old : str) (skip : nat) (x : str) : str :=
  match x with
  | [] => []
  | a :: r =>
      match skip with
      | S k => remove_all_aux old k r
      | 0 =>
          if startswith x old
          then remove_all_aux old (length old - 1) r
          else a :: remove_all_aux old 0 r
      end
  end.

Definition remove_all (old : str) (x : str) : str :=
  match old with
  | [] => x
  | _ => remove_all_aux old 0 x
  end.

(** Python's normalisation of a slice bound against a length. *)
Definition clamp_index (len : Z) (i : Z) : Z :=
  let i' := if (i <? 0)%Z then (i + len)%Z else i in
  Z.max 0 (Z.min len i').

Definition zlen (x : str) : Z := Z.of_nat (length x).

(** [s[a:b]] and [s[a:]]. *)
Definition slice (x : str) (a b : Z) : str :=
  let a' := clamp_index (zlen x) a in
  let b' := clamp_index (zlen x) b in
  firstn (Z.to_nat (b' - a')) (skipn (Z.to_nat a') x).

Definition slice_from (x : str) (a : Z) : str :=
  skipn (Z.to_nat (clamp_index (zlen x) a)) x.

(** The first offset [>= i] at which [sub] starts in [x], scanning the
    suffix [x] that begins at offset [i]. *)
Fixpoint find_at (sub : str) (x : str) (i : Z) : Z :=
  if startswith x sub then i
  else match x with
       | [] => (-1)%Z
       | _ :: r => find_at sub r (i + 1)%Z
       end.

(** [s.find(sub, start)]: [-1] when [sub] does not occur at or after
    [start]; a negative [start] counts from the end, a [start] beyond the
    end finds nothing. *)
Definition str_find_from (x sub : str) (start : Z) : Z :=
  let st := if (start <? 0)%Z then Z.max 0 (start + zlen x)%Z else start in
  if (zlen x <? st)%Z then (-1)%Z
  else find_at sub (skipn (Z.to_nat st) x) st.

Definition str_find (x sub : str) : Z := str_find_from x sub 0.

(** [str(n)] and [int(s)] for the digit strings of numberings. *)
Definition str_of_N (n : N) : str :=
  String.list_ascii_of_string (NilZero.string_of_uint (N.to_uint n)).

Definition int_of_str (x : str) : Res N :=
  match NilZero.uint_of_string (String.string_of_list_ascii x) with
  | Some d => Ok (N.of_uint d)
  | None => Raise ValueError
  end.

(** ** Dictionaries in insertion order *)

Definition dict (V : Type) : Type := list (str * V).

Fixpoint dict_get {V : Type} (d : dict V) (k : str) : option V :=
  match d with
  | [] => None
  | (k', v) :: r => if str_eqb k' k then Some v else dict_get r k
  end.

(** [d[k] = v]. *)
Fixpoint dict_set {V : Type} (d : dict V) (k : str) (v : V) : dict V :=
  match d with
  | [] => [(k, v)]
  | (k', v') :: r =>
      if str_eqb k' k then (k', v) :: r else (k', v') :: dict_set r k v
  end.

Definition keys {V : Type} (d : dict V) : list str := map fst d.

(** ** Numbering codec

    The two directions of the numbering representation as
    [find_and_replace_numberings] writes them:
    [list(map(int, s.strip('.').split('.')))] and
    ['.'.join(map(str, parts)) + '.']. *)

Definition dot : str := py ".".

Definition parse_numbering (x : str) : Res (list N) :=
  mapM int_of_str (split_on "."%char (strip_dots x)).

Definition render_numbering (parts : list N) : str :=
  join dot (map str_of_N parts) ++ dot.

(** [parts[:-1]] and [parts[-1]] (the latter on a non-empty list). *)
Definition init_parts (parts : list N) : list N := removelast parts.
Definition last_part (parts : list N) : N := last parts 0%N.

(** [range(a, b)] on naturals. *)
Definition range (a b : N) : list N :=
  map (fun k => (a + N.of_nat k)%N) (seq 0 (N.to_nat (b - a))).

(** Order of Python strings: lexicographic on code points. *)
Fixpoint str_ltb (x y : str) : bool :=
  match x, y with
  | [], [] => false
  | [], _ :: _ => true
  | _ :: _, [] => false
  | a :: x', b :: y' =>
      let m := nat_of_ascii a in
      let n := nat_of_ascii b in
      if m <? n then true else if n <? m then false else str_ltb x' y'
  end.

Section SortedSet.
Context {A : Type}.
Variable eqb ltb : A -> A -> bool.

(** Insertion into an ascending list without duplicates. *)
Fixpoint insert_sorted (a : A) (l : list A) : list A :=
  match l with
  | [] => [a]
  | b :: r =>
      if eqb a b then l
      else if ltb a b then a :: l
      else b :: insert_sorted a r
  end.

(** [sorted(set(l))]. *)
Definition sorted_set (l : list A) : list A :=
  fold_left (fun acc a => insert_sorted a acc) l [].
End SortedSet.

Definition mem_str (x : str) (l : list str) : bool := existsb (str_eqb x) l.

(** The inner function [generate_next_numberings]. *)
Definition generate_next_numberings (current_numbering : str)
  : Res (list str) :=
  parts <- parse_numbering current_numbering ;;
  let n := length parts in
  let incremented := init_parts parts ++ [(last_part parts + 1)%N] in
  let p_incr := [render_numbering incremented] in
  let p_sub :=
    if n <? 4
    then flat_map
           (fun x =>
              let sub_level := parts ++ [x] in
              render_numbering sub_level ::
                (if length sub_level <? 4
                 then map (fun y => render_numbering (sub_level ++ [y]))
                        (range 1 10)
                 else []))
           (range 1 10)
    else [] in
  let p_sib :=
    flat_map
      (fun x =>
         let sibling_level := init_parts parts ++ [x] in
         render_numbering sibling_level ::
           (if length sibling_level <? 4
            then map (fun y => render_numbering (sibling_level ++ [y]))
                   (range 1 10)
            else []))
      (range (last_part parts + 1) (last_part parts + 10)) in
  let p_high :=
    flat_map
      (fun i =>
         map (fun x =>
                render_numbering
                  (firstn (i + 1) parts ++ [(nth (i + 1) parts 0 + x)%N]))
           (range 1 10))
      (seq 0 (n - 1)) in
  let p_top := [render_numbering [(nth 0 parts 0 + 1)%N]] in
  Ok (sorted_set str_eqb str_ltb
        (p_incr ++ p_sub ++ p_sib ++ p_high ++ p_top)).

(** ** Numbering consistency repair: [find_and_replace_numberings] *)

Definition nonblank (x : str) : bool := negb (str_eqb x []).

(** [l[i] = v]; Python raises [IndexError] out of range. *)
Fixpoint list_assign {A : Type} (l : list A) (i : nat) (v : A)
  : Res (list A) :=
  match l, i with
  | [], _ => Raise IndexError
  | _ :: r, 0 => Ok (v :: r)
  | a :: r, S i' => r' <- list_assign r i' v ;; Ok (a :: r')
  end.

Definition list_get {A : Type} (l : list A) (i : nat) : Res A :=
  of_option IndexError (nth_error l i).

Fixpoint list_N_eqb (x y : list N) : bool :=
  match x, y with
  | [], [] => true
  | a :: x', b :: y' => N.eqb a b && list_N_eqb x' y'
  | _, _ => false
  end.

(** The numbering of a key: [parts[0]] of [key.split(' ', 1)] when
    [parts[0].replace('.', '').isdigit()], the empty string otherwise. *)
Definition key_numbering (key : str) : str :=
  let p0 := fst (split1_space key) in
  if isdigit (remove_char "."%char p0) then p0 else [].

Definition numberings_of (ks : list str) : list str := map key_numbering ks.

(** [blank_indexes]: the positions whose key carries no numbering. *)
Fixpoint blank_indexes_from (idx : nat) (ks : list str) : list nat :=
  match ks with
  | [] => []
  | k :: r =>
      if isdigit (remove_char "."%char (fst (split1_space k)))
      then blank_indexes_from (S idx) r
      else idx :: blank_indexes_from (S idx) r
  end.

(** The validation loops.  [validate_from l i] is the outer [while] at
    index [i], [l] being [numberings[i:]]; [scan_from] is the inner
    [while j < len(numberings)] loop, [r] being [numberings[j:]].  The
    result is [non_logical_indexes] in the order the code appends them.
    When a logical successor is found at [j] the outer loop goes on at
    [i = j] ([resume]); when none is found it stops. *)
Section Scan.
Variable resume : list str -> nat -> Res (list nat).
Variable current_numbering : str.

Fixpoint scan_from (r : list str) (j : nat) {struct r} : Res (list nat) :=
  match r with
  | [] => Ok []
  | next_numbering :: r' =>
      if str_eqb next_numbering [] then scan_from r' (S j)
      else
        generated <- generate_next_numberings current_numbering ;;
        if negb (mem_str next_numbering generated)
        then more <- scan_from r' (S j) ;; Ok (j :: more)
        else resume r j
  end.
End Scan.

Fixpoint validate_from (l : list str) (i : nat) {struct l} : Res (list nat) :=
  match l with
  | [] => Ok []
  | current_numbering :: rest =>
      match rest with
      | [] => Ok []
      | _ :: _ =>
          if str_eqb current_numbering [] then validate_from rest (S i)
          else scan_from validate_from current_numbering rest (S i)
      end
  end.

Definition non_logical_indexes (numberings : list str) : Res (list nat) :=
  flagged <- validate_from numberings 0 ;;
  Ok (sorted_set Nat.eqb Nat.ltb flagged).

(** One round of the reconstruction loop, for the flagged index [idx]. *)
Definition reconstruct_one (reconstructed : list str) (idx : nat)
  : Res (list str) :=
  let prev_valid := List.find nonblank (rev (firstn idx reconstructed)) in
  let next_valid := List.find nonblank (skipn (idx + 1) reconstructed) in
  match prev_valid, next_valid with
  | Some pv, Some nv =>
      prev_parts <- parse_numbering pv ;;
      next_parts <- parse_numbering nv ;;
      if (length prev_parts =? 1)
         && N.eqb (nth 0 next_parts 0%N) (nth 0 prev_parts 0%N)
      then
        let sub_level :=
          if length prev_parts <? 4 then prev_parts ++ [1%N]
          else init_parts prev_parts ++ [(last_part prev_parts + 1)%N] in
        list_assign reconstructed idx (render_numbering sub_level)
      else if (length prev_parts =? length next_parts)
              && list_N_eqb (init_parts prev_parts) (init_parts next_parts)
      then
        list_assign reconstructed idx
          (render_numbering
             (init_parts prev_parts ++ [(last_part prev_parts + 1)%N]))
      else
        let next_sibling :=
          init_parts prev_parts ++ [(last_part prev_parts + 1)%N] in
        list_assign reconstructed idx (render_numbering next_sibling)
  | _, _ => Ok reconstructed
  end.

Fixpoint reconstruct (reconstructed : list str) (idxs : list nat)
  : Res (list str) :=
  match idxs with
  | [] => Ok reconstructed
  | idx :: more =>
      r <- reconstruct_one reconstructed idx ;; reconstruct r more
  end.

Definition space : str := py " ".

(** The key written for position [idx] in the last loop. *)
Definition updated_key (blank_indexes : list nat) (reconstructed : list str)
  (idx : nat) (key : str) : Res str :=
  if existsb (Nat.eqb idx) blank_indexes then Ok key
  else
    new_numbering <- list_get reconstructed idx ;;
    match snd (split1_space key) with
    | Some rest => Ok (new_numbering ++ space ++ rest)
    | None => Ok new_numbering
    end.

Fixpoint update_dict {V : Type} (blank_indexes : list nat)
  (reconstructed : list str) (idx : nat) (items : list (str * V))
  (updated_dict : dict V) : Res (dict V) :=
  match items with
  | [] => Ok updated_dict
  | (key, value) :: r =>
      k <- updated_key blank_indexes reconstructed idx key ;;
      update_dict blank_indexes reconstructed (S idx) r
        (dict_set updated_dict k value)
  end.

Definition find_and_replace_numberings {V : Type} (data : dict V)
  : Res (dict V) :=
  let numberings := numberings_of (keys data) in
  let blank_indexes := blank_indexes_from 0 (keys data) in
  non_logical <- non_logical_indexes numberings ;;
  reconstructed_numberings <- reconstruct numberings non_logical ;;
  update_dict blank_indexes reconstructed_numberings 0 data [].

(** ** Title variation generator: [generate_title_variations] *)

(** [itertools.product([True, False], repeat=n)], in the order Python
    yields the tuples (the first position varies slowest, [True] first). *)
Fixpoint product_bool (n : nat) : list (list bool) :=
  match n with
  | 0 => [[]]
  | S n' =>
      flat_map (fun b => map (cons b) (product_bool n')) [true; false]
  end.

(** The inner loop building [new_title]: [acc] is [new_title] so far,
    [rest] is [words[i+1:]]. *)
Fixpoint glue_words (acc : str) (space_combination : list bool)
  (rest : list str) : str :=
  match space_combination, rest with
  | keep_space :: comb', w :: rest' =>
      glue_words (acc ++ (if keep_space then space else []) ++ w) comb' rest'
  | _, _ => acc
  end.

Definition spacing_variant (words : list str) (space_combination : list bool)
  : str :=
  match words with
  | [] => []
  | w0 :: rest => glue_words w0 space_combination rest
  end.

(** [re.escape] (Python 3.7 and later): a backslash before each of the
    characters [()[]{}?*+-|^$\.&~#], the space, tab, line feed, carriage
    return, vertical tab and form feed. *)
Definition re_special (c : ascii) : bool :=
  existsb (Ascii.eqb c)
    (py "()[]{}?*+-|^$\.&~# "
       ++ [ascii_of_nat 9; ascii_of_nat 10; ascii_of_nat 13;
           ascii_of_nat 11; ascii_of_nat 12]).

Definition re_escape (x : str) : str :=
  flat_map (fun c => if re_special c then ["\"%char; c] else [c]) x.

(** ['.'.join(['\\d+'] * numbering_depth)]. *)
Definition numbering_placeholder (numbering_depth : nat) : str :=
  join dot (repeat (py "\d+") numbering_depth).

Definition numbered_variation (variation : str) (numbering_depth : nat) : str :=
  numbering_placeholder numbering_depth ++ py "\s*" ++ re_escape variation.

(** [product] refuses a negative [repeat], which happens for a title
    without words; the [except] clause turns that into a [RuntimeError]. *)
Definition generate_title_variations (title : str) : Res (list str) :=
  let words := split_ws title in
  match words with
  | [] => Raise RuntimeError
  | _ :: _ =>
      let variations :=
        map (spacing_variant words) (product_bool (length words - 1)) in
      Ok (variations
            ++ flat_map
                 (fun variation =>
                    map (numbered_variation variation) [1; 2; 3; 4])
                 variations)
  end.

(** ** Regular expressions

    The fragment of Python's [re] that the program's patterns and the
    patterns it builds from titles use: literals, [.], the classes [\d],
    [\s], [\w] and their complements, bracket sets, groups (capturing and
    [(?:...)]), alternation, the quantifiers [*], [+], [?], [{m,n}] in
    their greedy and lazy forms, [^] and [$].  Matching is Python's
    backtracking search: the first alternative and the longest (or, for a
    lazy quantifier, the shortest) repetition are tried first.  A pattern
    outside the fragment (back-references, look-around, inline flags,
    [\b]) is refused by [re_compile], like a malformed pattern. *)

Inductive citem : Type :=
| IChar (c : ascii)
| IRange (lo hi : ascii)
| IDigit (negated : bool)
| ISpace (negated : bool)
| IWord (negated : bool).

Inductive cclass : Type :=
| CAny
| CItem (i : citem)
| CSet (negated : bool) (items : list citem).

Inductive regex : Type :=
| REmpty
| RChar (c : cclass)
| RSeq (r1 r2 : regex)
| RAlt (r1 r2 : regex)
| RRep (r : regex) (lo : nat) (hi : option nat) (greedy : bool)
| RGroup (n : nat) (r : regex)
| RBol
| REol.

Definition line_feed : ascii := ascii_of_nat 10.

Definition to_lower (c : ascii) : ascii :=
  if is_upper c then ascii_of_nat (nat_of_ascii c + 32) else c.

Definition swap_case (c : ascii) : ascii :=
  if is_upper c then ascii_of_nat (nat_of_ascii c + 32)
  else if is_lower c then ascii_of_nat (nat_of_ascii c - 32)
  else c.

Definition is_word (c : ascii) : bool :=
  is_digit c || is_upper c || is_lower c || Ascii.eqb c "_"%char.

Definition in_range (lo hi c : ascii) : bool :=
  (nat_of_ascii lo <=? nat_of_ascii c) && (nat_of_ascii c <=? nat_of_ascii hi).

(** [ic] is the [re.IGNORECASE] flag. *)
Definition item_matches (ic : bool) (i : citem) (a : ascii) : bool :=
  match i with
  | IChar c => if ic then Ascii.eqb (to_lower a) (to_lower c) else Ascii.eqb a c
  | IRange lo hi => in_range lo hi a || (ic && in_range lo hi (swap_case a))
  | IDigit neg => xorb neg (is_digit a)
  | ISpace neg => xorb neg (is_space a)
  | IWord neg => xorb neg (is_word a)
  end.

Definition class_matches (ic : bool) (c : cclass) (a : ascii) : bool :=
  match c with
  | CAny => negb (Ascii.eqb a line_feed)
  | CItem i => item_matches ic i a
  | CSet neg items => xorb neg (existsb (fun i => item_matches ic i a) items)
  end.

(** A position of the matcher: the offset in the subject, the text from
    there on, and the spans of the groups closed so far. *)
Record mstate : Type := MState {
  m_pos : nat;
  m_rest : str;
  m_caps : list (nat * (nat * nat))
}.

Definition set_cap (n : nat) (span : nat * nat) (st : mstate) : mstate :=
  MState (m_pos st) (m_rest st) ((n, span) :: m_caps st).

Definition allowed (count : nat) (hi : option nat) : bool :=
  match hi with
  | None => true
  | Some h => count <? h
  end.

Definition same_pos (last : option nat) (pos : nat) : bool :=
  match last with
  | Some p => p =? pos
  | None => false
  end.

(** [re_run ic r st k]: match [r] at [st] and go on with [k]; [None] is
    failure, on which the caller tries its next choice.  A repetition
    stops iterating once an iteration beyond the minimum has matched the
    empty string, as Python's engine does. *)
Fixpoint re_run (ic : bool) (r : regex) (st : mstate)
  (k : mstate -> option mstate) {struct r} : option mstate :=
  match r with
  | REmpty => k st
  | RChar c =>
      match m_rest st with
      | a :: rest =>
          if class_matches ic c a
          then k (MState (S (m_pos st)) rest (m_caps st))
          else None
      | [] => None
      end
  | RSeq r1 r2 => re_run ic r1 st (fun st' => re_run ic r2 st' k)
  | RAlt r1 r2 =>
      match re_run ic r1 st k with
      | Some res => Some res
      | None => re_run ic r2 st k
      end
  | RGroup n r1 =>
      re_run ic r1 st (fun st' => k (set_cap n (m_pos st, m_pos st') st'))
  | RBol => if m_pos st =? 0 then k st else None
  | REol =>
      match m_rest st with
      | [] => k st
      | [a] => if Ascii.eqb a line_feed then k st else None
      | _ => None
      end
  | RRep r1 lo hi greedy =>
      (fix loop (fuel count : nat) (last : option nat) (st : mstate)
         {struct fuel} : option mstate :=
         match fuel with
         | 0 => None
         | S fuel' =>
             let again (_ : unit) :=
               if allowed count hi
                  && negb ((lo <=? count) && same_pos last (m_pos st))
               then re_run ic r1 st
                      (fun st' => loop fuel' (S count) (Some (m_pos st)) st')
               else None in
             let stop (_ : unit) := if lo <=? count then k st else None in
             if greedy
             then match again tt with
                  | Some res => Some res
                  | None => stop tt
                  end
             else match stop tt with
                  | Some res => Some res
                  | None => again tt
                  end
         end) (2 * length (m_rest st) + lo + 2) 0 None st
  end.

(** A match object: where the match starts and the final position. *)
Record rmatch : Type := RMatch {
  rm_start : nat;
  rm_end : mstate
}.

(** Matching at offset [pos] of [x]; with [advance] an empty match is
    refused. *)
Definition match_at (ic : bool) (r : regex) (x : str) (pos : nat)
  (advance : bool) : option rmatch :=
  match
    re_run ic r (MState pos (skipn pos x) [])
      (fun st => if advance && (m_pos st =? pos) then None else Some st)
  with
  | Some st => Some (RMatch pos st)
  | None => None
  end.

(** [re.match(pattern, x)], with flag [re.IGNORECASE] when [ic]. *)
Definition re_match (ic : bool) (r : regex) (x : str) : option rmatch :=
  match_at ic r x 0 false.

Fixpoint lookup_cap (n : nat) (caps : list (nat * (nat * nat)))
  : option (nat * nat) :=
  match caps with
  | [] => None
  | (n', span) :: more => if n' =? n then Some span else lookup_cap n more
  end.

(** [m.group(n)] on the subject [x]; [None] for a group that took no
    part in the match. *)
Definition group (x : str) (m : rmatch) (n : nat) : option str :=
  match n with
  | 0 =>
      Some (firstn (m_pos (rm_end m) - rm_start m) (skipn (rm_start m) x))
  | _ =>
      match lookup_cap n (m_caps (rm_end m)) with
      | Some (a, b) => Some (firstn (b - a) (skipn a x))
      | None => None
      end
  end.

(** A replacement template: text and [\n] references. *)
Inductive repl_item : Type :=
| RText (t : str)
| RRef (n : nat).

Definition expand (x : str) (m : rmatch) (repl : list repl_item) : str :=
  flat_map
    (fun i =>
       match i with
       | RText t => t
       | RRef n => match group x m n with Some g => g | None => [] end
       end)
    repl.

(** [re.sub(pattern, repl, x)]: the matches are found left to right; an
    empty match is replaced too, and after it a non-empty match is looked
    for at the same offset.  [rest] is [x[pos:]] and [skip] the number of
    characters of it that the last match covers. *)
Fixpoint re_sub_from (ic : bool) (r : regex) (repl : list repl_item)
  (x : str) (pos skip : nat) (rest : str) {struct rest} : str :=
  match skip, rest with
  | S skip', _ :: rest' => re_sub_from ic r repl x (S pos) skip' rest'
  | S _, [] => []
  | 0, [] =>
      match match_at ic r x pos false with
      | Some m => expand x m repl
      | None => []
      end
  | 0, a :: rest' =>
      match match_at ic r x pos false with
      | Some m =>
          let len := m_pos (rm_end m) - pos in
          match len with
          | S len' =>
              expand x m repl ++ re_sub_from ic r repl x (S pos) len' rest'
          | 0 =>
              expand x m repl ++
                match match_at ic r x pos true with
                | Some m' =>
                    expand x m' repl ++
                      re_sub_from ic r repl x (S pos)
                        (m_pos (rm_end m') - pos - 1) rest'
                | None => a :: re_sub_from ic r repl x (S pos) 0 rest'
                end
          end
      | None => a :: re_sub_from ic r repl x (S pos) 0 rest'
      end
  end.

Definition re_sub (r : regex) (repl : list repl_item) (x : str) : str :=
  re_sub_from false r repl x 0 0 x.

(** *** Compiling a pattern *)

Fixpoint take_digits (x : str) : str * str :=
  match x with
  | a :: r =>
      if is_digit a then let '(d, r') := take_digits r in (a :: d, r')
      else ([], x)
  | [] => ([], [])
  end.

Definition nat_of_digits (d : str) : nat :=
  fold_left (fun acc c => 10 * acc + (nat_of_ascii c - 48)) d 0.

(** The text after an opening brace: [Some (lo, hi, rest)] when it is a
    quantifier, [None] when the brace is a literal character. *)
Definition parse_braces (x : str) : option (nat * option nat * str) :=
  match x with
  | "}"%char :: _ => None
  | _ =>
      let '(lo, r1) := take_digits x in
      let min := match lo with [] => 0 | _ => nat_of_digits lo end in
      match r1 with
      | "}"%char :: r2 =>
          Some (min, match lo with [] => None | _ => Some min end, r2)
      | ","%char :: r2 =>
          let '(hi, r3) := take_digits r2 in
          match r3 with
          | "}"%char :: r4 =>
              Some (min,
                    match hi with [] => None | _ => Some (nat_of_digits hi) end,
                    r4)
          | _ => None
          end
      | _ => None
      end
  end.

(** A quantifier at the head of [x]: bounds and the text after it. *)
Definition parse_quantifier (x : str) : option (nat * option nat * str) :=
  match x with
  | "*"%char :: r => Some (0, None, r)
  | "+"%char :: r => Some (1, None, r)
  | "?"%char :: r => Some (0, Some 1, r)
  | "{"%char :: r => parse_braces r
  | _ => None
  end.

(** An escape [\c] outside or inside a set: a class, a character, or an
    escape outside the fragment. *)
Definition parse_escape (c : ascii) : option citem :=
  if Ascii.eqb c "d" then Some (IDigit false)
  else if Ascii.eqb c "D" then Some (IDigit true)
  else if Ascii.eqb c "s" then Some (ISpace false)
  else if Ascii.eqb c "S" then Some (ISpace true)
  else if Ascii.eqb c "w" then Some (IWord false)
  else if Ascii.eqb c "W" then Some (IWord true)
  else if Ascii.eqb c "n" then Some (IChar line_feed)
  else if Ascii.eqb c "t" then Some (IChar (ascii_of_nat 9))
  else if Ascii.eqb c "r" then Some (IChar (ascii_of_nat 13))
  else if Ascii.eqb c "f" then Some (IChar (ascii_of_nat 12))
  else if Ascii.eqb c "v" then Some (IChar (ascii_of_nat 11))
  else if is_digit c || is_upper c || is_lower c then None
  else Some (IChar c).

(** One member of a bracket set and the text after it. *)
Definition parse_set_atom (x : str) : option (citem * str) :=
  match x with
  | "\"%char :: c :: r =>
      match parse_escape c with
      | Some i => Some (i, r)
      | None => None
      end
  | "\"%char :: [] => None
  | c :: r => Some (IChar c, r)
  | [] => None
  end.

(** The members of a bracket set up to the closing bracket; [first]
    holds at the first member, where a closing bracket is a literal. *)
Fixpoint parse_set_items (fuel : nat) (first : bool) (x : str)
  (acc : list citem) : option (list citem * str) :=
  match fuel with
  | 0 => None
  | S fuel' =>
      match x with
      | [] => None
      | "]"%char :: r =>
          if first then parse_set_items fuel' false r (acc ++ [IChar "]"%char])
          else Some (acc, r)
      | _ =>
          match parse_set_atom x with
          | None => None
          | Some (i, r) =>
              match r with
              | "-"%char :: "]"%char :: r' =>
                  Some (acc ++ [i; IChar "-"%char], r')
              | "-"%char :: r' =>
                  match parse_set_atom r' with
                  | Some (IChar hi, r'') =>
                      match i with
                      | IChar lo =>
                          if nat_of_ascii lo <=? nat_of_ascii hi
                          then parse_set_items fuel' false r''
                                 (acc ++ [IRange lo hi])
                          else None
                      | _ => None
                      end
                  | _ => None
                  end
              | _ => parse_set_items fuel' false r (acc ++ [i])
              end
          end
      end
  end.

Definition parse_set (x : str) : option (cclass * str) :=
  let '(neg, body) :=
    match x with
    | "^"%char :: r => (true, r)
    | _ => (false, x)
    end in
  match parse_set_items (S (length body)) true body [] with
  | Some (items, r) => Some (CSet neg items, r)
  | None => None
  end.

Definition seq_of (acc r : regex) : regex :=
  match acc with
  | REmpty => r
  | _ => RSeq acc r
  end.

(** The recursive-descent parser.  [g] is the number of capturing groups
    opened so far; an atom comes with a flag telling whether a quantifier
    may follow it. *)
Fixpoint parse_alt (fuel : nat) (x : str) (g : nat) {struct fuel}
  : option (regex * str * nat) :=
  match fuel with
  | 0 => None
  | S fuel' =>
      match parse_seq fuel' x g REmpty with
      | Some (r1, "|"%char :: x', g') =>
          match parse_alt fuel' x' g' with
          | Some (r2, x'', g'') => Some (RAlt r1 r2, x'', g'')
          | None => None
          end
      | other => other
      end
  end
with parse_seq (fuel : nat) (x : str) (g : nat) (acc : regex) {struct fuel}
  : option (regex * str * nat) :=
  match fuel with
  | 0 => None
  | S fuel' =>
      match x with
      | [] => Some (acc, x, g)
      | "|"%char :: _ => Some (acc, x, g)
      | ")"%char :: _ => Some (acc, x, g)
      | _ =>
          match parse_atom fuel' x g with
          | None => None
          | Some (r, x1, g1, repeatable) =>
              match parse_quantifier x1 with
              | None => parse_seq fuel' x1 g1 (seq_of acc r)
              | Some (lo, hi, x2) =>
                  if negb repeatable then None
                  else if negb (allowed lo (option_map S hi)) then None
                  else
                    let '(greedy, x3) :=
                      match x2 with
                      | "?"%char :: x3 => (false, x3)
                      | _ => (true, x2)
                      end in
                    match parse_quantifier x3 with
                    | Some _ => None
                    | None =>
                        parse_seq fuel' x3 g1
                          (seq_of acc (RRep r lo hi greedy))
                    end
              end
          end
      end
  end
with parse_atom (fuel : nat) (x : str) (g : nat) {struct fuel}
  : option (regex * str * nat * bool) :=
  match fuel with
  | 0 => None
  | S fuel' =>
      match x with
      | [] => None
      | "("%char :: "?"%char :: ":"%char :: x' =>
          match parse_alt fuel' x' g with
          | Some (r, ")"%char :: x'', g') => Some (r, x'', g', true)
          | _ => None
          end
      | "("%char :: "?"%char :: _ => None
      | "("%char :: x' =>
          match parse_alt fuel' x' (S g) with
          | Some (r, ")"%char :: x'', g') => Some (RGroup (S g) r, x'', g', true)
          | _ => None
          end
      | "["%char :: x' =>
          match parse_set x' with
          | Some (c, x'') => Some (RChar c, x'', g, true)
          | None => None
          end
      | "\"%char :: c :: x' =>
          match parse_escape c with
          | Some i => Some (RChar (CItem i), x', g, true)
          | None => None
          end
      | "\"%char :: [] => None
      | "."%char :: x' => Some (RChar CAny, x', g, true)
      | "^"%char :: x' => Some (RBol, x', g, false)
      | "$"%char :: x' => Some (REol, x', g, false)
      | c :: x' =>
          match parse_quantifier x with
          | Some _ => None
          | None => Some (RChar (CItem (IChar c)), x', g, true)
          end
      end
  end.

(** [re.compile(pattern)]; [None] stands for [re.error]. *)
Definition re_compile (pattern : str) : option regex :=
  match parse_alt (3 * length pattern + 3) pattern 0 with
  | Some (r, [], _) => Some r
  | _ => None
  end.

Definition compile (pattern : str) : Res regex :=
  of_option ReError (re_compile pattern).

(** ** Cleanup configuration and [clean_text] *)

Record CleanupConfig : Type := {
  special_characters : list str;
  expressions : list str;
  texts_to_remove : list str
}.

(** What a [try: ... except Exception as e: raise RuntimeError(...)]
    wrapper does to the result of its body. *)
Definition as_runtime_error {A : Type} (m : Res A) : Res A :=
  match m with
  | Ok a => Ok a
  | Raise _ => Raise RuntimeError
  end.

Definition is_some {A : Type} (o : option A) : bool :=
  match o with
  | Some _ => true
  | None => false
  end.

Fixpoint sub_expressions (exprs : list str) (text : str) : Res str :=
  match exprs with
  | [] => Ok text
  | expr :: more =>
      r <- compile expr ;;
      sub_expressions more (re_sub r [] text)
  end.

Definition clean_text (config : CleanupConfig) (text : str) : Res str :=
  as_runtime_error
    (let text1 :=
       fold_left (fun t char => remove_all char t)
         (special_characters config) text in
     text2 <- sub_expressions (expressions config) text1 ;;
     ws <- compile (py "\s+") ;;
     Ok (strip (re_sub ws [RText space] text2))).

Definition clean_title_suffix (title : str) : Res str :=
  as_runtime_error
    (clean_pattern <- compile (py "(.*?)([A-Z]+\s*|\d+\s*)*$") ;;
     match re_match false clean_pattern title with
     | Some m =>
         match group title m 1 with
         | Some g => Ok (strip g)
         | None => Raise AttributeError
         end
     | None => Ok title
     end).

(** ** Boundary refiner: [extract_sections_from_processed_text] *)

(** The rewrite of a title into its search key ([modified_title]). *)
Definition search_key (title : str) : Res str :=
  r1 <- compile (py "^\d+\.\d+\.\d+\.\s+.+") ;;
  if is_some (re_match false r1 title) then Ok title
  else
    r2 <- compile (py "^\d+\.\d+\..+") ;;
    r3 <- compile (py "^\d+\.\d+\.\d+\..+") ;;
    if is_some (re_match false r2 title) || is_some (re_match false r3 title)
    then
      rs <- compile (py "((\d+\.){2,3})") ;;
      Ok (strip (re_sub rs [RRef 1; RText space] title))
    else
      r4 <- compile (py "^\d+\..+") ;;
      if is_some (re_match false r4 title)
      then
        r5 <- compile (py "^\d+\.\s*") ;;
        Ok (re_sub r5 [] title)
      else Ok title.

(** [re.sub(r"^\d+\.\s*", "", title)], the numbering-stripped title. *)
Definition plain_title (title : str) : Res str :=
  r5 <- compile (py "^\d+\.\s*") ;;
  Ok (re_sub r5 [] title).

(** [start_index] when a next title exists: the search key, then the
    raw title, then, for a title of the form [N. text], the plain title. *)
Definition start_index_of (current_text modified_title title : str) : Res Z :=
  let s1 := str_find current_text modified_title in
  let s2 := if (s1 =? -1)%Z then str_find current_text title else s1 in
  r6 <- compile (py "^\d+\.\s*.+") ;;
  if (s2 =? -1)%Z && is_some (re_match false r6 title)
  then
    stripped_title <- plain_title title ;;
    Ok (str_find current_text stripped_title)
  else Ok s2.

(** The body stored for [title], whose text in [processed_text] is
    [current_text] (not empty); [next] is [titles[i + 1]] when there is
    one. *)
Definition section_text_of (title : str) (next : option str)
  (current_text : str) : Res str :=
  modified_title <- search_key title ;;
  match next with
  | Some next_title =>
      modified_next_title <- search_key next_title ;;
      start_index <- start_index_of current_text modified_title title ;;
      let from := (start_index + zlen modified_title)%Z in
      let e1 := str_find_from current_text modified_next_title from in
      let end_index :=
        if (e1 =? -1)%Z then str_find_from current_text next_title from
        else e1 in
      if negb (start_index =? -1)%Z
      then Ok (strip (slice current_text start_index end_index))
      else Ok current_text
  | None =>
      let start_index := str_find current_text modified_title in
      if negb (start_index =? -1)%Z
      then Ok (strip (slice_from current_text start_index))
      else Ok current_text
  end.

Definition dict_get_default {V : Type} (d : dict V) (k : str) (default : V)
  : V :=
  match dict_get d k with
  | Some v => v
  | None => default
  end.

(** The loop over [enumerate(titles)]; [titles] is the part of the list
    from the current index on. *)
Fixpoint extract_sections_loop (titles : list str) (processed_text : dict str)
  (sectioned_text : dict str) : Res (dict str) :=
  match titles with
  | [] => Ok sectioned_text
  | title :: rest =>
      modified_title <- search_key title ;;
      let current_text := dict_get_default processed_text title [] in
      match current_text with
      | [] =>
          extract_sections_loop rest processed_text
            (dict_set sectioned_text title [])
      | _ :: _ =>
          section_text <- section_text_of title (hd_error rest) current_text ;;
          extract_sections_loop rest processed_text
            (dict_set sectioned_text title section_text)
      end
  end.

Definition extract_sections_from_processed_text (titles : list str)
  (processed_text : dict str) : Res (dict str) :=
  as_runtime_error (extract_sections_loop titles processed_text []).

(** ** [refine_extracted_sections] *)

Definition strip_numbers (x : str) : Res str :=
  r <- compile (py "\d+[\.\s]*") ;;
  Ok (strip (re_sub r [] x)).

(** Step 1: a leading copy of the title is cut off. *)
Definition without_title (title text : str) : str :=
  if startswith text title
  then strip (slice_from text (zlen title))
  else text.

(** The refined text of one entry. *)
Definition refine_section (title text : str) : Res str :=
  let text1 := without_title title text in
  stripped_title <- strip_numbers title ;;
  stripped_text <- strip_numbers text1 ;;
  let text2 := if length stripped_text <=? 50 then [] else text1 in
  np <- compile (py "^(\d+(\.\d+)*\.)") ;;
  match re_match false np title with
  | Some m =>
      numbering <- of_option IndexError (group title m 0) ;;
      let expected_start := numbering ++ space ++ stripped_title in
      if startswith text2 expected_start
      then Ok (strip (slice_from text2 (zlen expected_start)))
      else Ok text2
  | None => Ok text2
  end.

Fixpoint refine_loop (items : list (str * str)) (refined_sections : dict str)
  : Res (dict str) :=
  match items with
  | [] => Ok refined_sections
  | (title, text) :: more =>
      t <- refine_section title text ;;
      refine_loop more (dict_set refined_sections title t)
  end.

Definition refine_extracted_sections (extracted_sections : dict str)
  : Res (dict str) :=
  as_runtime_error (refine_loop extracted_sections []).

(** ** The document source and the table of contents *)

(** The text of each page as [page.get_text("text")] returns it. *)
Record Document : Type := {
  pages : list str
}.

Definition page_count (doc : Document) : Z := Z.of_nat (length (pages doc)).

(** [doc.load_page(n)] followed by [get_text("text")].  PyMuPDF accepts
    every [n < page_count], a negative [n] counting from the end (it adds
    [page_count] until the number is not negative), and raises
    [ValueError] for the others. *)
Definition load_page (doc : Document) (page_num : Z) : Res str :=
  let n := page_count doc in
  if (n <=? page_num)%Z || (n =? 0)%Z then Raise ValueError
  else of_option ValueError
         (nth_error (pages doc) (Z.to_nat (page_num mod n))).

Record TocEntry : Type := {
  toc_level : Z;
  toc_title : str;
  toc_page : Z
}.

(** [range(start_page, end_page + 1)]. *)
Definition page_range (start_page end_page : Z) : list Z :=
  map (fun k => (start_page + Z.of_nat k)%Z)
    (seq 0 (Z.to_nat (end_page + 1 - start_page))).

(** [toc[i + 1]["page"] - 1 if i + 1 < len(toc) else page_count - 1]. *)
Definition end_page_of (doc : Document) (next : option TocEntry) : Z :=
  match next with
  | Some e => (toc_page e - 1)%Z
  | None => (page_count doc - 1)%Z
  end.

(** The scan [for i in range(len(x)): if x[i:].startswith(p)]: the first
    offset below [len(x)] at which [p] starts. *)
Fixpoint first_offset (x p : str) (i : nat) : option nat :=
  match x with
  | [] => None
  | _ :: r => if startswith x p then Some i else first_offset r p (S i)
  end.

(** ** Section segmenter, no-numbering mode:
       [structure_raw_text_by_toc_no_numbering] *)

Definition new_line : str := [line_feed].

(** The title with a trailing number chain cut off. *)
Definition section_title (title : str) : Res str :=
  trailing_number_pattern <- compile (py "(.*?)(\d+(\.\d+)*\.)$") ;;
  match re_match false trailing_number_pattern title with
  | Some m =>
      g <- of_option AttributeError (group title m 1) ;;
      Ok (strip g)
  | None => Ok title
  end.

(** The loop over the pages of one entry.  [next_title] is the title of
    [toc[i + 1]] when there is one; the result is [section_text] when the
    loop ends or breaks. *)
Fixpoint section_pages_loop (config : CleanupConfig) (doc : Document)
  (title : str) (next_title : option str) (page_nums : list Z)
  (section_text : str) (start_found : bool) : Res str :=
  match page_nums with
  | [] => Ok section_text
  | page_num :: more =>
      raw <- load_page doc page_num ;;
      page_text <- clean_text config raw ;;
      if negb start_found
      then
        match first_offset page_text title 0 with
        | Some start_position =>
            section_pages_loop config doc title next_title more
              (section_text ++ skipn start_position page_text ++ new_line)
              true
        | None =>
            section_pages_loop config doc title next_title more
              section_text false
        end
      else
        match
          match next_title with
          | Some t => first_offset page_text t 0
          | None => None
          end
        with
        | Some end_position =>
            Ok (section_text ++ firstn end_position page_text)
        | None =>
            section_pages_loop config doc title next_title more
              (section_text ++ page_text ++ new_line) true
        end
  end.

Definition remove_texts (texts : list str) (section_text : str) : str :=
  fold_left (fun t text_to_remove => strip (remove_all text_to_remove t))
    texts section_text.

(** The key and the body written for one entry. *)
Definition section_of_entry (config : CleanupConfig) (doc : Document)
  (toc_entry : TocEntry) (next : option TocEntry) : Res (str * str) :=
  title <- section_title (toc_title toc_entry) ;;
  let start_page := (toc_page toc_entry - 1)%Z in
  let end_page := end_page_of doc next in
  section_text <-
    section_pages_loop config doc title (option_map toc_title next)
      (page_range start_page end_page) [] false ;;
  body <- clean_text config (remove_texts (texts_to_remove config) section_text) ;;
  Ok (title, body).

Fixpoint no_numbering_loop (config : CleanupConfig) (doc : Document)
  (toc : list TocEntry) (sections : dict str) : Res (dict str) :=
  match toc with
  | [] => Ok sections
  | toc_entry :: rest =>
      kv <- section_of_entry config doc toc_entry (hd_error rest) ;;
      no_numbering_loop config doc rest (dict_set sections (fst kv) (snd kv))
  end.

Definition structure_raw_text_by_toc_no_numbering (config : CleanupConfig)
  (doc : Document) (formatted_toc : list TocEntry) : Res (dict str) :=
  as_runtime_error (no_numbering_loop config doc formatted_toc []).

(** ** TOC rectifier: [search_and_replace_numbered_titles] *)

Definition numbering_patterns : list str :=
  [py "\d+"; py "\d+\."; py "\d+\.\d+"; py "\d+\.\d+\.";
   py "\d+\.\d+\.\d+"; py "\d+\.\d+\.\d+\."; py "\d+\.\d+\.\d+\.\d+"].

(** The offset scan with [re.match(pattern, page_text[i:], re.IGNORECASE)]. *)
Fixpoint match_position (r : regex) (x : str) (i : nat) : option nat :=
  match x with
  | [] => None
  | _ :: rest =>
      if is_some (re_match true r x) then Some i
      else match_position r rest (S i)
  end.

(** The pattern is compiled by the first call of [re.match], which
    happens only on a page with text. *)
Definition find_match (pattern page_text : str) : Res (option nat) :=
  match page_text with
  | [] => Ok None
  | _ :: _ =>
      r <- compile pattern ;;
      Ok (match_position r page_text 0)
  end.

Definition dict_remove {V : Type} (d : dict V) (k : str) : dict V :=
  filter (fun kv => negb (str_eqb (fst kv) k)) d.

(** What the search has done so far for one entry: the titles assigned
    to [toc_entry["title"]] in order, [processed_text] and the flag
    [found_match]. *)
Record search_state : Type := {
  assigned : list str;
  processed : dict str;
  found_match : bool
}.

(** The loop over the pages for one numbering pattern and one variant;
    it breaks at the first page with a match. *)
Fixpoint search_pages (config : CleanupConfig) (doc : Document)
  (no_numbering_flag : bool) (original_title numbering title_variant : str)
  (page_nums : list Z) (st : search_state) : Res search_state :=
  match page_nums with
  | [] => Ok st
  | page_num :: more =>
      raw <- load_page doc page_num ;;
      page_text <- clean_text config raw ;;
      let pattern := numbering ++ py "\s*" ++ title_variant in
      found <- find_match pattern page_text ;;
      match found with
      | Some position =>
          let p := Z.of_nat position in
          let sliced :=
            slice page_text p (p + zlen numbering + zlen title_variant)%Z in
          numbered_title <-
            (if no_numbering_flag then clean_title_suffix sliced
             else Ok sliced) ;;
          let processed' :=
            match dict_get (processed st) original_title with
            | Some v =>
                dict_set (dict_remove (processed st) original_title)
                  numbered_title v
            | None => processed st
            end in
          Ok {| assigned := assigned st ++ [numbered_title];
                processed := processed';
                found_match := true |}
      | None =>
          search_pages config doc no_numbering_flag original_title numbering
            title_variant more st
      end
  end.

(** The loop over the variants: it breaks after a variant when
    [found_match] holds. *)
Fixpoint search_variants (config : CleanupConfig) (doc : Document)
  (no_numbering_flag : bool) (original_title numbering : str)
  (title_variations : list str) (page_nums : list Z) (st : search_state)
  : Res search_state :=
  match title_variations with
  | [] => Ok st
  | title_variant :: more =>
      st' <- search_pages config doc no_numbering_flag original_title
               numbering title_variant page_nums st ;;
      if found_match st' then Ok st'
      else search_variants config doc no_numbering_flag original_title
             numbering more page_nums st'
  end.

(** The loop over the numbering patterns: nothing leaves it early. *)
Fixpoint search_numberings (config : CleanupConfig) (doc : Document)
  (no_numbering_flag : bool) (original_title : str) (numberings : list str)
  (title_variations : list str) (page_nums : list Z) (st : search_state)
  : Res search_state :=
  match numberings with
  | [] => Ok st
  | numbering :: more =>
      st' <- search_variants config doc no_numbering_flag original_title
               numbering title_variations page_nums st ;;
      search_numberings config doc no_numbering_flag original_title more
        title_variations page_nums st'
  end.

(** The body of the loop over the entries, for one entry. *)
Definition search_entry (config : CleanupConfig) (doc : Document)
  (no_numbering_flag : bool) (toc_entry : TocEntry) (next : option TocEntry)
  (processed_text : dict str) : Res search_state :=
  let original_title := toc_title toc_entry in
  let start_page := (toc_page toc_entry - 1)%Z in
  let end_page := end_page_of doc next in
  title_variations <- generate_title_variations original_title ;;
  search_numberings config doc no_numbering_flag original_title
    numbering_patterns title_variations (page_range start_page end_page)
    {| assigned := []; processed := processed_text; found_match := false |}.

Definition retitle (toc_entry : TocEntry) (st : search_state) : TocEntry :=
  {| toc_level := toc_level toc_entry;
     toc_title := last (assigned st) (toc_title toc_entry);
     toc_page := toc_page toc_entry |}.

Fixpoint search_entries (config : CleanupConfig) (doc : Document)
  (no_numbering_flag : bool) (toc : list TocEntry) (processed_text : dict str)
  : Res (list TocEntry * dict str) :=
  match toc with
  | [] => Ok ([], processed_text)
  | toc_entry :: rest =>
      st <- search_entry config doc no_numbering_flag toc_entry
              (hd_error rest) processed_text ;;
      res <- search_entries config doc no_numbering_flag rest (processed st) ;;
      Ok (retitle toc_entry st :: fst res, snd res)
  end.

(** The table of contents and [processed_text] after the call. *)
Definition search_and_replace_numbered_titles (config : CleanupConfig)
  (doc : Document) (no_numbering_flag : bool) (toc : list TocEntry)
  (processed_text : dict str) : Res (list TocEntry * dict str) :=
  as_runtime_error
    (search_entries config doc no_numbering_flag toc processed_text).

(** ** Notions used to state the properties *)

(** A string without a dot. *)
Definition no_dot (x : str) : Prop := Forall (fun c => is_dot c = false) x.

(** The token with its last component incremented by one. *)
Definition increment_last (parts : list N) : list N :=
  init_parts parts ++ [(last_part parts + 1)%N].

(** Every flagged index lies in [l], counted from [i], at a numbered
    position. *)
Definition flags_ok (l : list str) (i : nat) (fl : list nat) : Prop :=
  forall k, In k fl ->
    i <= k < i + length l /\ nonblank (nth (k - i) l []) = true.

(** A position with a non-blank numbering before it and one after it. *)
Definition between_numbered (l : list str) (idx : nat) : Prop :=
  (exists i, i < idx /\ nonblank (nth i l []) = true)
  /\ (exists k, idx < k < length l /\ nonblank (nth k l []) = true).

(** ** Pipeline orchestrator: [extract_all]

    The orchestrator is modelled over the methods it calls, which are
    taken as they come: each one is a function of the extractor object
    ([self], which it may change) that returns or raises.  The local
    variables of [extract_all] live in a frame next to [self], so that an
    assignment made before a statement raises stays made. *)

(** The nested mapping of the tree builder. *)
#[warnings="-register-all"]
Inductive node : Type :=
| Leaf (text : str)
| Node (children : list (str * node)).

(** The values of the four fields of the result. *)
Inductive field : Type :=
| FMetadata (m : dict str)
| FLeveled (t : dict node)
| FProcessed (d : dict str)
| FCleaned (s : str).

Module Pipeline.

Section Extractor.

Context {Self : Type}.

(** The methods of [PDFExtractor] that [extract_all] calls, the two
    attributes it reads ([None] for an attribute that is not set), and the
    writing of the JSON file. *)
Record Methods : Type := {
  no_numbering_flag : Self -> option bool;
  formatted_toc : Self -> option (list TocEntry);
  extract_toc : Self -> Res (list TocEntry) * Self;
  structure_raw_text_by_toc_no_numbering : Self -> Res (dict str) * Self;
  structure_raw_text_by_toc : Self -> Res (dict str) * Self;
  extract_sections_from_processed_text :
    list str -> dict str -> Self -> Res (dict str) * Self;
  process_titles : dict str -> Self -> Res (dict str) * Self;
  refine_extracted_sections : dict str -> Self -> Res (dict str) * Self;
  normalize_keys_with_numbering : dict str -> Self -> Res (dict str) * Self;
  find_and_replace_numberings : dict str -> Self -> Res (dict str) * Self;
  remove_title_from_text : dict str -> Self -> Res (dict str) * Self;
  process_titles_in_one_step :
    dict str -> list TocEntry -> Self -> Res (dict str) * Self;
  organize_by_levels_with_grouping :
    dict str -> Self -> Res (dict node) * Self;
  restructure_levels : dict node -> Self -> Res (dict node) * Self;
  resolve_and_filter_dict : dict node -> Self -> Res (dict node) * Self;
  extract_metadata : Self -> Res (dict str) * Self;
  extract_pdf_textand_clean : Self -> Res str * Self;
  save_json : list (str * field) -> Self -> Res unit * Self
}.

Variable m : Methods.

(** [self], the error log, and the local variables. *)
Record frame : Type := {
  self : Self;
  errors : list str;
  structured_processed_text : dict str;
  leveled_text : dict node;
  data_metadata : dict str;
  data_processed_text : dict str;
  data_leveled_text : dict node;
  data_cleaned_text : str
}.

Definition M (A : Type) : Type := frame -> Res A * frame.

Definition ret {A : Type} (a : A) : M A := fun fr => (Ok a, fr).

Definition mbind {A B : Type} (c : M A) (k : A -> M B) : M B :=
  fun fr =>
    match c fr with
    | (Ok a, fr') => k a fr'
    | (Raise e, fr') => (Raise e, fr')
    end.

(** [try: body except Exception as e: handler]. *)
Definition try_except {A : Type} (body : M A) (handler : exn -> M A) : M A :=
  fun fr =>
    match body fr with
    | (Ok a, fr') => (Ok a, fr')
    | (Raise e, fr') => handler e fr'
    end.

Definition with_self (fr : frame) (s : Self) : frame :=
  {| self := s; errors := errors fr;
     structured_processed_text := structured_processed_text fr;
     leveled_text := leveled_text fr;
     data_metadata := data_metadata fr;
     data_processed_text := data_processed_text fr;
     data_leveled_text := data_leveled_text fr;
     data_cleaned_text := data_cleaned_text fr |}.

(** A method call. *)
Definition call {A : Type} (f : Self -> Res A * Self) : M A :=
  fun fr => let '(r, s) := f (self fr) in (r, with_self fr s).

(** Reading an attribute of [self]. *)
Definition attribute {A : Type} (get : Self -> option A) : M A :=
  fun fr =>
    match get (self fr) with
    | Some a => (Ok a, fr)
    | None => (Raise AttributeError, fr)
    end.

Definition read {A : Type} (get : frame -> A) : M A :=
  fun fr => (Ok (get fr), fr).

Definition update (f : frame -> frame) : M unit :=
  fun fr => (Ok tt, f fr).

(** [logging.error(message)]. *)
Definition logging_error (message : str) : M unit :=
  update (fun fr =>
    {| self := self fr; errors := errors fr ++ [message];
       structured_processed_text := structured_processed_text fr;
       leveled_text := leveled_text fr;
       data_metadata := data_metadata fr;
       data_processed_text := data_processed_text fr;
       data_leveled_text := data_leveled_text fr;
       data_cleaned_text := data_cleaned_text fr |}).

Definition set_structured (d : dict str) : M unit :=
  update (fun fr =>
    {| self := self fr; errors := errors fr;
       structured_processed_text := d;
       leveled_text := leveled_text fr;
       data_metadata := data_metadata fr;
       data_processed_text := data_processed_text fr;
       data_leveled_text := data_leveled_text fr;
       data_cleaned_text := data_cleaned_text fr |}).

Definition set_leveled (t : dict node) : M unit :=
  update (fun fr =>
    {| self := self fr; errors := errors fr;
       structured_processed_text := structured_processed_text fr;
       leveled_text := t;
       data_metadata := data_metadata fr;
       data_processed_text := data_processed_text fr;
       data_leveled_text := data_leveled_text fr;
       data_cleaned_text := data_cleaned_text fr |}).

Definition set_data_metadata (x : dict str) : M unit :=
  update (fun fr =>
    {| self := self fr; errors := errors fr;
       structured_processed_text := structured_processed_text fr;
       leveled_text := leveled_text fr;
       data_metadata := x;
       data_processed_text := data_processed_text fr;
       data_leveled_text := data_leveled_text fr;
       data_cleaned_text := data_cleaned_text fr |}).

Definition set_data_leveled_text (x : dict node) : M unit :=
  update (fun fr =>
    {| self := self fr; errors := errors fr;
       structured_processed_text := structured_processed_text fr;
       leveled_text := leveled_text fr;
       data_metadata := data_metadata fr;
       data_processed_text := data_processed_text fr;
       data_leveled_text := x;
       data_cleaned_text := data_cleaned_text fr |}).

Definition set_data_processed_text (x : dict str) : M unit :=
  update (fun fr =>
    {| self := self fr; errors := errors fr;
       structured_processed_text := structured_processed_text fr;
       leveled_text := leveled_text fr;
       data_metadata := data_metadata fr;
       data_processed_text := x;
       data_leveled_text := data_leveled_text fr;
       data_cleaned_text := data_cleaned_text fr |}).

Definition set_data_cleaned_text (x : str) : M unit :=
  update (fun fr =>
    {| self := self fr; errors := errors fr;
       structured_processed_text := structured_processed_text fr;
       leveled_text := leveled_text fr;
       data_metadata := data_metadata fr;
       data_processed_text := data_processed_text fr;
       data_leveled_text := data_leveled_text fr;
       data_cleaned_text := x |}).

Notation "x <~ c ;; k" := (mbind c (fun x => k))
  (at level 61, c at next level, right associativity).
Notation "c ;;; k" := (mbind c (fun _ => k))
  (at level 61, right associativity).

(** The truth value of a mapping: not empty. *)
Definition truthy {V : Type} (d : dict V) : bool :=
  match d with
  | [] => false
  | _ :: _ => true
  end.

(** Step 1: extract and update TOC titles. *)
Definition step1 : M unit :=
  try_except
    (call (extract_toc m) ;;; ret tt)
    (fun _ => logging_error (py "Step 1 failed")).

(** Step 2: structure raw text into sections using the TOC. *)
Definition step2 : M unit :=
  set_structured [] ;;;
  try_except
    (flag <~ attribute (no_numbering_flag m) ;;
     d <~ (if flag : bool
           then call (structure_raw_text_by_toc_no_numbering m)
           else call (structure_raw_text_by_toc m)) ;;
     set_structured d)
    (fun _ => logging_error (py "Step 2 failed")).

(** Step 3: extract sections and refine structure. *)
Definition step3 : M unit :=
  try_except
    (spt <~ read structured_processed_text ;;
     if truthy spt
     then
       d <~ call (extract_sections_from_processed_text m (keys spt) spt) ;;
       set_structured d
     else ret tt)
    (fun _ => logging_error (py "Step 3 failed")).

(** Step 4: the refinements of the no-numbering mode. *)
Definition step4 : M unit :=
  try_except
    (flag <~ attribute (no_numbering_flag m) ;;
     spt <~ read structured_processed_text ;;
     if (flag : bool) && truthy spt
     then
       d1 <~ call (process_titles m spt) ;;
       set_structured d1 ;;;
       d2 <~ call (refine_extracted_sections m d1) ;;
       set_structured d2
     else ret tt)
    (fun _ => logging_error (py "Step 4 failed")).

(** Step 5: normalize keys, repair numbering, clean text. *)
Definition step5 : M unit :=
  try_except
    (spt <~ read structured_processed_text ;;
     if truthy spt
     then
       d1 <~ call (normalize_keys_with_numbering m spt) ;;
       set_structured d1 ;;;
       d2 <~ call (find_and_replace_numberings m d1) ;;
       set_structured d2 ;;;
       d3 <~ call (remove_title_from_text m d2) ;;
       set_structured d3
     else ret tt)
    (fun _ => logging_error (py "Step 5 failed")).

(** Step 6: titles of a numbered table of contents. *)
Definition step6 : M unit :=
  try_except
    (flag <~ attribute (no_numbering_flag m) ;;
     spt <~ read structured_processed_text ;;
     if negb flag && truthy spt
     then
       toc <~ attribute (formatted_toc m) ;;
       d <~ call (process_titles_in_one_step m spt toc) ;;
       set_structured d
     else ret tt)
    (fun _ => logging_error (py "Step 6 failed")).

(** Step 7: the leveled text. *)
Definition step7 : M unit :=
  set_leveled [] ;;;
  try_except
    (spt <~ read structured_processed_text ;;
     if truthy spt
     then
       t1 <~ call (organize_by_levels_with_grouping m spt) ;;
       set_leveled t1 ;;;
       t2 <~ call (restructure_levels m t1) ;;
       set_leveled t2 ;;;
       t3 <~ call (resolve_and_filter_dict m t2) ;;
       set_leveled t3
     else ret tt)
    (fun _ => logging_error (py "Step 7 failed")).

(** Populate the final data structure. *)
Definition populate : M unit :=
  try_except
    (md <~ call (extract_metadata m) ;;
     set_data_metadata md ;;;
     t <~ read leveled_text ;;
     set_data_leveled_text t ;;;
     spt <~ read structured_processed_text ;;
     set_data_processed_text spt ;;;
     c <~ call (extract_pdf_textand_clean m) ;;
     set_data_cleaned_text c)
    (fun _ => logging_error (py "Step 7 failed")).

(** The handler of the outer [try]; its two calls are not protected. *)
Definition fallback : M unit :=
  logging_error (py "Pipeline encountered an unexpected error") ;;;
  md <~ call (extract_metadata m) ;;
  set_data_metadata md ;;;
  c <~ call (extract_pdf_textand_clean m) ;;
  set_data_cleaned_text c.

Definition ordered_data (fr : frame) : list (str * field) :=
  [(py "metadata", FMetadata (data_metadata fr));
   (py "leveled_text", FLeveled (data_leveled_text fr));
   (py "processed_text", FProcessed (data_processed_text fr));
   (py "cleaned_text", FCleaned (data_cleaned_text fr))].

(** Step 8: save the data to a JSON file. *)
Definition step8 (out : list (str * field)) : M unit :=
  try_except
    (call (save_json m out))
    (fun _ => logging_error (py "Step 8 failed")).

(** The body of the outer [try]. *)
Definition main_blocks : M unit :=
  step1 ;;; step2 ;;; step3 ;;; step4 ;;; step5 ;;; step6 ;;; step7 ;;;
  populate.

Definition extract_all_body : M (list (str * field)) :=
  try_except main_blocks (fun _ => fallback) ;;;
  out <~ read ordered_data ;;
  step8 out ;;;
  ret out.

(** The frame at entry: [data] holds its four empty defaults. *)
Definition initial (s : Self) : frame :=
  {| self := s; errors := [];
     structured_processed_text := []; leveled_text := [];
     data_metadata := []; data_processed_text := [];
     data_leveled_text := []; data_cleaned_text := [] |}.

Definition extract_all (s : Self) : Res (list (str * field)) * frame :=
  extract_all_body (initial s).

(** A method that raises on every object. *)
Definition always_fails {A : Type} (f : Self -> Res A * Self) : Prop :=
  forall s, exists e s', f s = (Raise e, s').

(** The four entries of [data] are the same in both frames. *)
Definition same_data (fr fr' : frame) : Prop :=
  data_metadata fr' = data_metadata fr
  /\ data_leveled_text fr' = data_leveled_text fr
  /\ data_processed_text fr' = data_processed_text fr
  /\ data_cleaned_text fr' = data_cleaned_text fr.

(** The call of [f] on the object [s] raises. *)
Definition raises {A : Type} (f : Self -> Res A * Self) (s : Self) : Prop :=
  exists e s', f s = (Raise e, s').

(** The blocks of the outer [try] in order, and the frame that a run on
    [s] has reached after the first [k] of them. *)
Definition blocks : list (M unit) :=
  [step1; step2; step3; step4; step5; step6; step7; populate].

Definition frame_after (k : nat) (s : Self) : frame :=
  fold_left (fun fr block => snd (block fr)) (firstn k blocks) (initial s).

End Extractor.

Arguments Methods : clear implicits.
Arguments frame : clear implicits.
Arguments M : clear implicits.

End Pipeline.

(** ** Title and key normalization *)

(** [s.lstrip()] and [s.rstrip('.')]. *)
Definition lstrip (x : str) : str := lstrip_by is_space x.
Definition rstrip_dots (x : str) : str := rstrip_by is_dot x.

(** [s.endswith(p)]. *)
Definition endswith (x p : str) : bool := startswith (rev x) (rev p).

(** [normalize_keys_with_numbering]: one key. *)
Definition normalize_key (key : str) : Res str :=
  r <- compile (py "^(\d+(\.\d+)*)(\.?)(\s*)(.*)") ;;
  match re_match false r key with
  | Some m =>
      numbering <- of_option IndexError (group key m 1) ;;
      title <- of_option IndexError (group key m 5) ;;
      Ok (numbering ++ py ". " ++ strip title)
  | None => Ok key
  end.

Fixpoint normalize_keys_loop (items : list (str * str))
  (normalized_dict : dict str) : Res (dict str) :=
  match items with
  | [] => Ok normalized_dict
  | (key, value) :: more =>
      normalized_key <- normalize_key key ;;
      normalize_keys_loop more (dict_set normalized_dict normalized_key value)
  end.

Definition normalize_keys_with_numbering (input_dict : dict str)
  : Res (dict str) :=
  as_runtime_error (normalize_keys_loop input_dict []).

(** The index of the last upper-case character of [x], [i] being the
    index of its first character: where the loop
    [for i in range(len(text) - 1, -1, -1)] of [process_string] stops. *)
Fixpoint last_upper_from (x : str) (i : nat) : option nat :=
  match x with
  | [] => None
  | a :: r =>
      match last_upper_from r (S i) with
      | Some j => Some j
      | None => if is_upper a then Some i else None
      end
  end.

(** The text after the loop of [process_string]. *)
Definition cut_at_last_upper (text : str) : str :=
  match last_upper_from text 0 with
  | Some i =>
      if i =? 0 then text
      else
        match nth_error text (i + 1) with
        | Some c => if negb (Ascii.eqb c " "%char) then firstn i text else text
        | None => text
        end
  | None => text
  end.

Definition process_string (input_string : str) : Res str :=
  r <- compile (py "^(\d+(?:\.\d+)*\.*)(.*)$") ;;
  match re_match false r input_string with
  | None => Ok input_string
  | Some m =>
      numbering <- of_option IndexError (group input_string m 1) ;;
      text <- of_option IndexError (group input_string m 2) ;;
      Ok (strip numbering ++ space ++ cut_at_last_upper (strip text))
  end.

Fixpoint process_titles_loop (items : list (str * str)) (out : dict str)
  : Res (dict str) :=
  match items with
  | [] => Ok out
  | (key, value) :: more =>
      k <- process_string key ;;
      process_titles_loop more (dict_set out k value)
  end.

(** [process_titles]: the dictionary comprehension over the items. *)
Definition process_titles (input_dict : dict str) : Res (dict str) :=
  process_titles_loop input_dict [].

(** Step 1 of [process_titles_in_one_step]: the numbering of a TOC
    title, with a final dot, or the empty string. *)
Definition toc_numbering (title : str) : Res str :=
  r <- compile (py "^(\d+(\.\d+)*)") ;;
  match re_match false r title with
  | Some m =>
      numbering <- of_option IndexError (group title m 1) ;;
      Ok (if endswith numbering dot then numbering else numbering ++ dot)
  | None => Ok []
  end.

(** Step 2: the plain text of a key of [original_dict]. *)
Definition key_text (title : str) : Res str :=
  r <- compile (py "^\s*(\d+(\.\d+)*\.?\s*)?(.*)") ;;
  match re_match false r title with
  | Some m =>
      match group title m 3 with
      | Some g => Ok (strip g)
      | None => Raise AttributeError
      end
  | None => Ok []
  end.

(** Step 3: a reconstructed title. *)
Definition reconstructed_title (numbering text : str) : str :=
  match numbering with
  | [] => text
  | _ => strip (numbering ++ space ++ text)
  end.

Definition process_titles_in_one_step (original_dict : dict str)
  (input_list : list TocEntry) : Res (dict str) :=
  as_runtime_error
    (numbering_list <- mapM toc_numbering (map toc_title input_list) ;;
     text_list <- mapM key_text (keys original_dict) ;;
     let reconstructed_titles :=
       map (fun nt => reconstructed_title (fst nt) (snd nt))
         (combine numbering_list text_list) in
     Ok (fold_left (fun d kv => dict_set d (fst kv) (snd kv))
           (combine reconstructed_titles (map snd original_dict)) [])).

(** ** [remove_title_from_text] *)

Definition remove_numbering (title : str) : Res str :=
  r <- compile (py "^\d+(\.\d+)*\.\s*") ;;
  Ok (strip (re_sub r [] title)).

(** [find_and_remove]: the scan [for i in range(len(text) - len(title) + 1)]
    with the test [text[i:i + len(title)] == title], on the text from
    offset [i] on.  Beyond the last offset of the range the rest is
    shorter than the title and the test fails by itself. *)
Fixpoint after_first (text title : str) : option str :=
  if startswith text title then Some (skipn (length title) text)
  else match text with
       | [] => None
       | _ :: r => after_first r title
       end.

Definition find_and_remove (text title : str) : str :=
  match after_first text title with
  | Some rest => lstrip rest
  | None => text
  end.

Fixpoint remove_title_loop (items : list (str * str)) (result_dict : dict str)
  : Res (dict str) :=
  match items with
  | [] => Ok result_dict
  | (title, text) :: more =>
      clean_title <- remove_numbering title ;;
      remove_title_loop more
        (dict_set result_dict title (find_and_remove text clean_title))
  end.

Definition remove_title_from_text (input_dict : dict str) : Res (dict str) :=
  remove_title_loop input_dict [].

(** ** Tree builder: [organize_by_levels_with_grouping] and the root
       filter *)

(** [organized[level_key][title] = content] on a [defaultdict(dict)]. *)
Fixpoint group_set (organized : dict (dict str)) (level_key title content : str)
  : dict (dict str) :=
  match organized with
  | [] => [(level_key, [(title, content)])]
  | (k, g) :: r =>
      if str_eqb k level_key then (k, dict_set g title content) :: r
      else (k, g) :: group_set r level_key title content
  end.

(** [s.count('.')]. *)
Definition count_dots (x : str) : nat := length (filter is_dot x).

(** The group a title is filed under: [None] for a title without a
    numbering prefix. *)
Definition level_key_of (title : str) : Res (option str) :=
  numbering_pattern <- compile (py "^(\d+(\.\d+)*\.)") ;;
  match re_match false numbering_pattern title with
  | Some m =>
      g <- of_option IndexError (group title m 1) ;;
      let numbering := rstrip_dots g in
      let parent_numbering :=
        join dot (removelast (split_on "."%char numbering)) in
      match parent_numbering with
      | [] => Ok (Some (py "level 1"))
      | _ =>
          let parent_level := count_dots numbering + 1 in
          Ok (Some (py "level " ++ str_of_N (N.of_nat parent_level)
                      ++ py " for " ++ parent_numbering))
      end
  | None => Ok None
  end.

Fixpoint organize_loop (items : list (str * str))
  (organized : dict (dict str)) (unnumbered : dict str)
  : Res (dict (dict str) * dict str) :=
  match items with
  | [] => Ok (organized, unnumbered)
  | (title, content) :: more =>
      k <- level_key_of title ;;
      match k with
      | Some level_key =>
          organize_loop more (group_set organized level_key title content)
            unnumbered
      | None =>
          organize_loop more organized (dict_set unnumbered title content)
      end
  end.

Definition organize_by_levels_with_grouping (input_dict : dict str)
  : Res (dict (dict str)) :=
  r <- organize_loop input_dict [] [] ;;
  let '(organized, unnumbered) := r in
  match unnumbered with
  | [] => Ok organized
  | _ :: _ => Ok (dict_set organized (py "level 0") unnumbered)
  end.

(** The test of [filter_root_keys] on one key. *)
Definition keeps_root_key (key : str) : Res bool :=
  deep <- compile (py "\d+(\.\d+)+") ;;
  single <- compile (py "\d+\.$") ;;
  digits <- compile (py "\d+") ;;
  titled <- compile (py "^\d+\..*$") ;;
  two <- compile (py "\d+\.\d+\.") ;;
  if negb (is_some (re_match false deep key))
  then
    if is_some (re_match false single key)
       || negb (is_some (re_match false digits key))
    then Ok true
    else Ok (is_some (re_match false titled key)
             && negb (is_some (re_match false two key)))
  else Ok false.

(** [filter_root_keys], the last step of [resolve_and_filter_dict]. *)
Fixpoint filter_root_keys {V : Type} (d : list (str * V)) (filtered_dict : dict V)
  : Res (dict V) :=
  match d with
  | [] => Ok filtered_dict
  | (key, value) :: more =>
      keep <- keeps_root_key key ;;
      filter_root_keys more
        (if keep : bool then dict_set filtered_dict key value
         else filtered_dict)
  end.

(** ** TOC rectifier: [extract_toc] *)

(** The loop over the items of the document's outline; [flag] is
    [no_numbering_flag] so far. *)
Fixpoint format_toc (config : CleanupConfig) (toc : list TocEntry)
  (flag : bool) : Res (list TocEntry * bool) :=
  match toc with
  | [] => Ok ([], flag)
  | item :: more =>
      cleaned_title <- clean_text config (toc_title item) ;;
      numbering_pattern <- compile (py "^\d+(\.\d+)*\.?\s") ;;
      let flag' :=
        if is_some (re_match false numbering_pattern cleaned_title)
        then false else flag in
      title <- (if flag' then clean_title_suffix cleaned_title
                else Ok cleaned_title) ;;
      rest <- format_toc config more flag' ;;
      Ok ({| toc_level := toc_level item; toc_title := title;
             toc_page := toc_page item |} :: fst rest, snd rest)
  end.

(** What a successful call leaves in [formatted_toc],
    [no_numbering_flag] and [processed_text]; [toc] is the outline that
    [doc.get_toc] gives. *)
Definition extract_toc (config : CleanupConfig) (doc : Document)
  (toc : list TocEntry) (processed_text : dict str)
  : Res (list TocEntry * bool * dict str) :=
  as_runtime_error
    (r <- format_toc config toc true ;;
     if snd r : bool
     then
       res <- search_and_replace_numbered_titles config doc true (fst r)
                processed_text ;;
       Ok (fst res, true, snd res)
     else Ok (fst r, false, processed_text)).

(** ** Whole-document text: [extract_pdf_textand_clean] *)

(** The texts of the pages are appended without a separator and the
    whole is cleaned.  The method opens the file a second time; [doc] is
    that document, the file being readable as it was for [__init__]. *)
Definition extract_pdf_textand_clean (config : CleanupConfig)
  (doc : Document) : Res str :=
  clean_text config (concat (pages doc)).

(** ** Section segmenter, numbering-trusted mode:
       [structure_raw_text_by_toc]

    [clipped] holds, page by page, the text of the main content area of
    the pages of [doc] (without the header and footer margins). *)

(** [doc.load_page(n)] followed by [get_text("text", clip=...)]. *)
Definition load_clipped (doc : Document) (clipped : list str) (page_num : Z)
  : Res str :=
  _ <- load_page doc page_num ;;
  Ok (nth (Z.to_nat (page_num mod page_count doc)) clipped []).

Fixpoint clipped_pages_text (doc : Document) (clipped : list str)
  (page_nums : list Z) (section_text : str) : Res str :=
  match page_nums with
  | [] => Ok section_text
  | page_num :: more =>
      t <- load_clipped doc clipped page_num ;;
      clipped_pages_text doc clipped more (section_text ++ t ++ new_line)
  end.

Fixpoint trusted_loop (config : CleanupConfig) (doc : Document)
  (clipped : list str) (toc : list TocEntry) (sections : dict str)
  : Res (dict str) :=
  match toc with
  | [] => Ok sections
  | entry :: rest =>
      let start_page := (toc_page entry - 1)%Z in
      let end_page := end_page_of doc (hd_error rest) in
      section_text <-
        clipped_pages_text doc clipped (page_range start_page end_page) [] ;;
      body <- clean_text config
                (remove_texts (texts_to_remove config) section_text) ;;
      trusted_loop config doc clipped rest
        (dict_set sections (toc_title entry) body)
  end.

Definition structure_raw_text_by_toc (config : CleanupConfig)
  (doc : Document) (clipped : list str) (toc : list TocEntry)
  (processed_text : dict str) : Res (dict str) :=
  as_runtime_error
    (r <- extract_toc config doc toc processed_text ;;
     trusted_loop config doc clipped (fst (fst r)) []).

(** ** Further notions used to state properties *)

(** [b] is a contiguous part of [t]; [b] is what [t] ends with. *)
Definition part_of (b t : str) : Prop := exists pre post, t = pre ++ b ++ post.
Definition suffix_of (b t : str) : Prop := exists pre, t = pre ++ b.

(** A title that does not begin with a digit. *)
Definition no_leading_digit (key : str) : bool :=
  match key with
  | [] => true
  | c :: _ => negb (is_digit c)
  end.

(** A text without whitespace at either end. *)
Definition trimmed (x : str) : Prop :=
  (forall c r, x = c :: r -> is_space c = false)
  /\ (forall c r, rev x = c :: r -> is_space c = false).

(** The depth of a rendered numbering. *)
Definition token_depth_le (c : str) (n : nat) : Prop :=
  exists q, c = render_numbering q /\ parse_numbering c = Ok q
            /\ 1 <= length q <= n.

Module PipelineNotions.
Import Pipeline.

Section Stages.

Context {Self : Type}.

(** A method that returns on every object. *)
Definition always_succeeds {A : Type} (f : Self -> Res A * Self) : Prop :=
  forall s, exists a s', f s = (Ok a, s').

(** A method that returns [a] on every object. *)
Definition always_returns {A : Type} (f : Self -> Res A * Self) (a : A)
  : Prop :=
  forall s, exists s', f s = (Ok a, s').

End Stages.

End PipelineNotions.

(** The tokens behind the candidates: never the token itself, never
    empty, and no deeper than four levels unless the token is. *)
Definition successor_of (parts q : list N) : Prop :=
  q <> [] /\ q <> parts /\ length q <= Nat.max 4 (length parts).

(** The list [possibilities] of [generate_next_numberings]. *)
Definition possibilities (parts : list N) : list str :=
  [render_numbering (init_parts parts ++ [(last_part parts + 1)%N])]
  ++ (if length parts <? 4
      then flat_map
             (fun x =>
                render_numbering (parts ++ [x]) ::
                  (if length (parts ++ [x]) <? 4
                   then map (fun y => render_numbering ((parts ++ [x]) ++ [y]))
                          (range 1 10)
                   else []))
             (range 1 10)
      else [])
  ++ flat_map
       (fun x =>
          render_numbering (init_parts parts ++ [x]) ::
            (if length (init_parts parts ++ [x]) <? 4
             then map (fun y =>
                         render_numbering ((init_parts parts ++ [x]) ++ [y]))
                    (range 1 10)
             else []))
       (range (last_part parts + 1) (last_part parts + 10))
  ++ flat_map
       (fun i =>
          map (fun x =>
                 render_numbering
                   (firstn (i + 1) parts ++ [(nth (i + 1) parts 0 + x)%N]))
            (range 1 10))
       (seq 0 (length parts - 1))
  ++ [render_numbering [(nth 0 parts 0 + 1)%N]].

(** A numbering as the repair writes and reads it: digits and dots,
    with a digit among them. *)
Definition numbering_like (x : str) : Prop :=
  Forall (fun c => is_digit c = true \/ is_dot c = true) x
  /\ Exists (fun c => is_digit c = true) x.

Definition all_numbering_like (l : list str) : Prop :=
  Forall (fun x => x = [] \/ numbering_like x) l.

(** A pattern that cannot match without reading a digit first. *)
Fixpoint needs_digit (r : regex) : bool :=
  match r with
  | RChar (CItem (IDigit false)) => true
  | RSeq RBol r2 => needs_digit r2
  | RSeq r1 _ => needs_digit r1
  | RAlt r1 r2 => needs_digit r1 && needs_digit r2
  | RRep r1 lo _ _ => (1 <=? lo) && needs_digit r1
  | RGroup _ r1 => needs_digit r1
  | _ => false
  end.

(** A pattern every match of which goes through group [n]. *)
Fixpoint sets_cap (n : nat) (r : regex) : bool :=
  match r with
  | RSeq r1 r2 => sets_cap n r1 || sets_cap n r2
  | RAlt r1 r2 => sets_cap n r1 && sets_cap n r2
  | RRep r1 lo _ _ => (1 <=? lo) && sets_cap n r1
  | RGroup m r1 => (m =? n) || sets_cap n r1
  | _ => false
  end.

Definition has_cap (n : nat) (st : mstate) : bool :=
  is_some (lookup_cap n (m_caps st)).

(** The groups closed at [st] are still closed at [st']. *)
Definition caps_extend (st st' : mstate) : Prop :=
  exists l, m_caps st' = l ++ m_caps st.

(** The loop [for key, value in d.items(): out[f(key)] = value]. *)
Fixpoint rekey_loop (f : str -> Res str) (items : list (str * str))
  (out : dict str) : Res (dict str) :=
  match items with
  | [] => Ok out
  | (key, value) :: more =>
      k <- f key ;;
      rekey_loop f more (dict_set out k value)
  end.

(** Where the loop has put a title with its content. *)
Definition placed (organized : dict (dict str)) (unnumbered : dict str)
  (title content : str) : Prop :=
  (exists level_key group,
      level_key_of title = Ok (Some level_key)
      /\ dict_get organized level_key = Some group
      /\ dict_get group title = Some content)
  \/ (level_key_of title = Ok None
      /\ dict_get unnumbered title = Some content).

(** A cleaned title that begins with a numbering, as [extract_toc]
    tests it. *)
Definition begins_with_numbering (cleaned_title : str) : Prop :=
  exists r m, compile (py "^\d+(\.\d+)*\.?\s") = Ok r
              /\ re_match false r cleaned_title = Some m.

(** The spacing variant for one keep/drop choice per space between two
    words, in the words of the specification: the first word, then every
    further word, after a space where the choice is to keep the space and
    directly after the word before it where the choice is to drop it. *)
Definition chosen_spacing (words : list str) (choice : list bool) : str :=
  match words with
  | [] => []
  | w0 :: rest =>
      w0 ++ concat (map (fun kw => (if fst kw : bool then [" "%char] else [])
                                     ++ snd kw)
                      (combine choice rest))
  end.

(** The numbering placeholder as the specification spells it: the
    levels [\d+] separated by an escaped dot, [\d+\.\d+] for two. *)
Definition dotted_placeholder (numbering_depth : nat) : str :=
  join (py "\.") (repeat (py "\d+") numbering_depth).

(** The regular expression of the characters of [v] one after the
    other, as the parser builds it behind [acc]. *)
Definition literal_from (acc : regex) (v : str) : regex :=
  fold_left (fun a c => seq_of a (RChar (CItem (IChar c)))) v acc.

(** The pattern [e] stands for the text [v] and nothing else: it
    compiles, and [re.match] with it succeeds exactly on the texts that
    begin with [v], where it takes [v] and closes no group. *)
Definition literal_pattern (e v : str) : Prop :=
  exists r,
    compile e = Ok r
    /\ forall x,
         re_match false r x
         = if startswith x v
           then Some (RMatch 0 (MState (length v) (skipn (length v) x) []))
           else None.

(** An extractor for a numbered document on which the numbering repair,
    the restructuring of the tree, the reading of the whole text and the
    writing of the file raise while the other stages return: the
    segmenter yields one section, and the key normalizer and the tree
    builder are the program's. *)
Definition faulty_extractor : Pipeline.Methods unit :=
  {| Pipeline.no_numbering_flag := fun _ => Some false;
     Pipeline.formatted_toc := fun _ => Some [];
     Pipeline.extract_toc := fun s => (Ok [], s);
     Pipeline.structure_raw_text_by_toc_no_numbering :=
       fun s => (Raise RuntimeError, s);
     Pipeline.structure_raw_text_by_toc :=
       fun s => (Ok [(py "1.Scope", py "Scope of the survey")], s);
     Pipeline.extract_sections_from_processed_text := fun _ d s => (Ok d, s);
     Pipeline.process_titles := fun d s => (Ok d, s);
     Pipeline.refine_extracted_sections := fun d s => (Ok d, s);
     Pipeline.normalize_keys_with_numbering :=
       fun d s => (normalize_keys_with_numbering d, s);
     Pipeline.find_and_replace_numberings := fun _ s => (Raise ValueError, s);
     Pipeline.remove_title_from_text := fun d s => (Ok d, s);
     Pipeline.process_titles_in_one_step := fun d _ s => (Ok d, s);
     Pipeline.organize_by_levels_with_grouping :=
       fun d s =>
         (t <- organize_by_levels_with_grouping d ;;
          Ok (map (fun g => (fst g, Node (map (fun kv => (fst kv, Leaf (snd kv)))
                                            (snd g)))) t),
          s);
     Pipeline.restructure_levels := fun _ s => (Raise RuntimeError, s);
     Pipeline.resolve_and_filter_dict := fun t s => (Ok t, s);
     Pipeline.extract_metadata := fun s => (Ok [(py "title", py "Survey")], s);
     Pipeline.extract_pdf_textand_clean := fun s => (Raise RuntimeError, s);
     Pipeline.save_json := fun _ s => (Raise IOError, s) |}.

(** An extractor whose document can be read but not structured: the
    metadata and the whole text are returned, every other stage raises. *)
Definition unstructured_extractor (md : dict str) (c : str)
  : Pipeline.Methods unit :=
  {| Pipeline.no_numbering_flag := fun _ => None;
     Pipeline.formatted_toc := fun _ => None;
     Pipeline.extract_toc := fun s => (Raise RuntimeError, s);
     Pipeline.structure_raw_text_by_toc_no_numbering :=
       fun s => (Raise RuntimeError, s);
     Pipeline.structure_raw_text_by_toc := fun s => (Raise RuntimeError, s);
     Pipeline.extract_sections_from_processed_text :=
       fun _ _ s => (Raise RuntimeError, s);
     Pipeline.process_titles := fun _ s => (Raise RuntimeError, s);
     Pipeline.refine_extracted_sections := fun _ s => (Raise RuntimeError, s);
     Pipeline.normalize_keys_with_numbering :=
       fun _ s => (Raise RuntimeError, s);
     Pipeline.find_and_replace_numberings := fun _ s => (Raise ValueError, s);
     Pipeline.remove_title_from_text := fun _ s => (Raise ValueError, s);
     Pipeline.process_titles_in_one_step :=
       fun _ _ s => (Raise RuntimeError, s);
     Pipeline.organize_by_levels_with_grouping :=
       fun _ s => (Raise RuntimeError, s);
     Pipeline.restructure_levels := fun _ s => (Raise RuntimeError, s);
     Pipeline.resolve_and_filter_dict := fun _ s => (Raise RuntimeError, s);
     Pipeline.extract_metadata := fun s => (Ok md, s);
     Pipeline.extract_pdf_textand_clean := fun s => (Ok c, s);
     Pipeline.save_json := fun _ s => (Raise IOError, s) |}.

(** Every run of whitespace of [x] replaced by one space; with [in_ws]
    the run that [x] begins with is dropped. *)
Fixpoint collapse_ws (in_ws : bool) (x : str) : str :=
  match x with
  | [] => []
  | a :: r =>
      if is_space a
      then if in_ws then collapse_ws true r else " "%char :: collapse_ws true r
      else a :: collapse_ws false r
  end.

(** The length of the run of whitespace that [x] begins with. *)
Fixpoint ws_run (x : str) : nat :=
  match x with
  | [] => 0
  | a :: r => if is_space a then S (ws_run r) else 0
  end.

(** A word of [s.split()]: not empty, without whitespace. *)
Definition is_word_of (w : str) : Prop :=
  w <> [] /\ Forall (fun c => is_space c = false) w.

(** A text in whitespace normal form: its words joined by single
    spaces. *)
Definition single_spaced (x : str) : Prop := join space (split_ws x) = x.

(** The length of the run of characters with [p] that [x] begins
    with. *)
Fixpoint run_of (p : ascii -> bool) (x : str) : nat :=
  match x with
  | [] => 0
  | a :: r => if p a then S (run_of p r) else 0
  end.

(** A character that the suffix pattern of [clean_title_suffix] takes:
    a capital letter, a digit or whitespace. *)
Definition suffix_char (c : ascii) : bool :=
  is_upper c || is_digit c || is_space c.

(** A text of such characters that does not begin with whitespace. *)
Definition only_suffix_chars (x : str) : bool :=
  forallb suffix_char x
  && match x with
     | c :: _ => negb (is_space c)
     | [] => true
     end.

(** The log of [fr] is the beginning of the log of [fr']. *)
Definition log_grows {Self : Type} (fr fr' : Pipeline.frame Self) : Prop :=
  exists l, Pipeline.errors fr' = Pipeline.errors fr ++ l.

(** The numbering at [idx] is a logical successor of the numbering
    before it in [l]: it is among the candidates generated from the
    nearest non-blank numbering before [idx]. *)
Definition follows_predecessor (l : list str) (idx : nat) : Prop :=
  exists prev_valid candidates,
    List.find nonblank (rev (firstn idx l)) = Some prev_valid
    /\ generate_next_numberings prev_valid = Ok candidates
    /\ mem_str (nth idx l []) candidates = true.

(** A list of indexes in strictly ascending order. *)
Fixpoint ascending (l : list nat) : Prop :=
  match l with
  | [] => True
  | a :: r => Forall (lt a) r /\ ascending r
  end.

(** * Properties *)

(** ** Strings: basic facts *)

Lemma str_eqb_eq (x y : str) : str_eqb x y = true <-> x = y.
Proof.
  revert y; induction x as [|a x IH]; intros [|b y]; simpl;
    try (split; [discriminate | congruence]); try tauto.
  rewrite andb_true_iff, Ascii.eqb_eq, IH.
  split; [intros [-> ->]; reflexivity | intros [= -> ->]; auto].
Qed.

Lemma str_eqb_refl (x : str) : str_eqb x x = true.
Proof. apply str_eqb_eq; reflexivity. Qed.

Lemma str_eqb_neq (x y : str) : str_eqb x y = false <-> x <> y.
Proof.
  rewrite <- str_eqb_eq. destruct (str_eqb x y); split; congruence.
Qed.

Lemma str_eq_dec (x y : str) : {x = y} + {x <> y}.
Proof. exact (list_eq_dec ascii_dec x y). Qed.

Lemma bind_ok {A B : Type} (m : Res A) (f : A -> Res B) (b : B) :
  bind m f = Ok b -> exists a, m = Ok a /\ f a = Ok b.
Proof. destruct m as [a|e]; simpl; [eauto | discriminate]. Qed.

(** ** Numbering codec: decimal digits *)

Lemma uint_digits (d : Decimal.uint) :
  Forall (fun c => is_digit c = true)
    (String.list_ascii_of_string (NilEmpty.string_of_uint d)).
Proof. induction d; simpl; constructor; auto. Qed.

Lemma N_to_uint_nonnil (n : N) : N.to_uint n <> Decimal.Nil.
Proof.
  destruct n as [|p]; simpl; [discriminate | apply DecimalPos.Unsigned.to_uint_nonnil].
Qed.

Lemma str_of_N_unfold (n : N) :
  str_of_N n = String.list_ascii_of_string (NilEmpty.string_of_uint (N.to_uint n)).
Proof.
  unfold str_of_N, NilZero.string_of_uint.
  pose proof (N_to_uint_nonnil n) as H.
  destruct (N.to_uint n); [congruence | reflexivity ..].
Qed.

Lemma str_of_N_digits (n : N) : Forall (fun c => is_digit c = true) (str_of_N n).
Proof. rewrite str_of_N_unfold. apply uint_digits. Qed.

Lemma str_of_N_nonempty (n : N) : str_of_N n <> [].
Proof.
  rewrite str_of_N_unfold. pose proof (N_to_uint_nonnil n) as H.
  destruct (N.to_uint n); simpl; congruence.
Qed.

Lemma digit_not_dot (c : ascii) : is_digit c = true -> is_dot c = false.
Proof.
  unfold is_dot. destruct (Ascii.eqb_spec c "."%char) as [->|]; [|reflexivity].
  vm_compute. discriminate.
Qed.

Lemma str_of_N_no_dot (n : N) : no_dot (str_of_N n).
Proof.
  eapply Forall_impl; [|apply str_of_N_digits]. apply digit_not_dot.
Qed.

Lemma int_of_str_of_N (n : N) : int_of_str (str_of_N n) = Ok n.
Proof.
  unfold int_of_str, str_of_N.
  rewrite String.string_of_list_ascii_of_string.
  rewrite NilZero.usu by apply N_to_uint_nonnil.
  now rewrite DecimalN.Unsigned.of_to.
Qed.

Lemma mapM_int_of_str (parts : list N) :
  mapM int_of_str (map str_of_N parts) = Ok parts.
Proof.
  induction parts as [|n r IH]; simpl; [reflexivity|].
  now rewrite int_of_str_of_N; simpl; rewrite IH.
Qed.

(** ** Numbering codec: splitting and stripping *)

Lemma split_on_no_dot (x : str) :
  no_dot x -> split_on "."%char x = [x].
Proof.
  induction 1 as [|c x Hc _ IH]; simpl; [reflexivity|].
  unfold is_dot in Hc. rewrite Hc, IH. reflexivity.
Qed.

Lemma split_on_app (x y : str) :
  no_dot x -> split_on "."%char (x ++ dot ++ y) = x :: split_on "."%char y.
Proof.
  induction 1 as [|c x Hc _ IH]; simpl; [reflexivity|].
  unfold is_dot in Hc. rewrite Hc. simpl in IH. rewrite IH. reflexivity.
Qed.

Lemma split_on_join (l : list str) :
  l <> [] -> Forall no_dot l -> split_on "."%char (join dot l) = l.
Proof.
  induction l as [|a r IH]; [congruence|]. intros _ Hall.
  inversion Hall as [|? ? Ha Hr]; subst.
  destruct r as [|b r'].
  - simpl. now apply split_on_no_dot.
  - change (join dot (a :: b :: r')) with (a ++ dot ++ join dot (b :: r')).
    rewrite split_on_app by assumption.
    f_equal. apply IH; [discriminate | assumption].
Qed.

Lemma drop_while_head (f : ascii -> bool) (c : ascii) (x : str) :
  f c = false -> drop_while f (c :: x) = c :: x.
Proof. intros H; simpl; now rewrite H. Qed.

Lemma join_head_digit (l : list N) :
  l <> [] ->
  exists c t, join dot (map str_of_N l) = c :: t /\ is_digit c = true.
Proof.
  destruct l as [|n r]; [congruence|]. intros _.
  pose proof (str_of_N_digits n) as Hd. pose proof (str_of_N_nonempty n) as Hn.
  destruct (str_of_N n) as [|c t] eqn:E; [congruence|].
  inversion Hd; subst.
  destruct r as [|m r']; simpl; rewrite E; simpl; eauto.
Qed.

Lemma join_last_digit (l : list N) :
  l <> [] ->
  exists c t, rev (join dot (map str_of_N l)) = c :: t /\ is_digit c = true.
Proof.
  induction l as [|n r IH]; [congruence|]. intros _.
  destruct r as [|m r'].
  - simpl. pose proof (str_of_N_digits n) as Hd.
    pose proof (str_of_N_nonempty n) as Hn.
    apply Forall_rev in Hd.
    destruct (rev (str_of_N n)) as [|c t] eqn:E.
    + apply (f_equal (@rev ascii)) in E. rewrite rev_involutive in E.
      simpl in E. congruence.
    + inversion Hd; subst; eauto.
  - destruct IH as (c & t & E & Hc); [discriminate|].
    change (join dot (map str_of_N (n :: m :: r')))
      with (str_of_N n ++ dot ++ join dot (map str_of_N (m :: r'))).
    rewrite !rev_app_distr, E. simpl. eauto.
Qed.

Lemma strip_dots_render (parts : list N) :
  parts <> [] ->
  strip_dots (render_numbering parts) = join dot (map str_of_N parts).
Proof.
  intros Hne. unfold strip_dots, strip_by, lstrip_by, rstrip_by, render_numbering.
  destruct (join_head_digit parts Hne) as (c & t & E & Hc).
  destruct (join_last_digit parts Hne) as (c' & t' & E' & Hc').
  rewrite E. simpl app.
  rewrite drop_while_head by now apply digit_not_dot.
  change (c :: t ++ dot) with ((c :: t) ++ dot). rewrite <- E.
  rewrite rev_app_distr. simpl. rewrite E'.
  rewrite drop_while_head by now apply digit_not_dot.
  rewrite <- E'. apply rev_involutive.
Qed.

Lemma parse_render (parts : list N) :
  parts <> [] -> parse_numbering (render_numbering parts) = Ok parts.
Proof.
  intros Hne. unfold parse_numbering.
  rewrite strip_dots_render by assumption.
  rewrite split_on_join.
  - apply mapM_int_of_str.
  - destruct parts; simpl; congruence.
  - apply Forall_forall. intros x Hx. apply in_map_iff in Hx.
    destruct Hx as (n & <- & _). apply str_of_N_no_dot.
Qed.

(** C6. Numbering round trip: for every token of depth 1 to 4 whose
    components are positive integers, parsing the rendered canonical
    string (components joined by dots, with a trailing dot) gives the
    token back. *)
Theorem numbering_round_trip (token : list N) :
  1 <= length token <= 4 ->
  Forall (fun n => (0 < n)%N) token ->
  parse_numbering (render_numbering token) = Ok token.
Proof.
  intros [Hlen _] _. apply parse_render.
  destruct token; simpl in Hlen; [lia | discriminate].
Qed.

Lemma numbering_round_trip_witness :
  parse_numbering (render_numbering [2; 1; 13]%N) = Ok [2; 1; 13]%N.
Proof.
  apply numbering_round_trip.
  - simpl; lia.
  - repeat constructor.
Defined.

(** ** [sorted(set(l))] keeps exactly the elements of [l] *)

Section SortedSetFacts.
Context {A : Type}.
Variable eqb ltb : A -> A -> bool.
Hypothesis eqb_eq : forall a b, eqb a b = true <-> a = b.

Lemma in_insert_sorted (a x : A) (l : list A) :
  In x (insert_sorted eqb ltb a l) <-> x = a \/ In x l.
Proof.
  induction l as [|b r IH]; simpl.
  - intuition.
  - destruct (eqb a b) eqn:E.
    + apply eqb_eq in E; subst. simpl. intuition.
    + destruct (ltb a b); simpl; [intuition|].
      rewrite IH. intuition.
Qed.

Lemma in_fold_insert (x : A) (l acc : list A) :
  In x (fold_left (fun acc a => insert_sorted eqb ltb a acc) l acc)
  <-> In x l \/ In x acc.
Proof.
  revert acc; induction l as [|a r IH]; intros acc; simpl.
  - intuition.
  - rewrite IH, in_insert_sorted. intuition.
Qed.

Lemma in_sorted_set (x : A) (l : list A) :
  In x (sorted_set eqb ltb l) <-> In x l.
Proof.
  unfold sorted_set. rewrite in_fold_insert. simpl. intuition.
Qed.
End SortedSetFacts.

Lemma mem_str_In (x : str) (l : list str) : mem_str x l = true <-> In x l.
Proof.
  unfold mem_str. rewrite existsb_exists. split.
  - intros (y & Hy & E). apply str_eqb_eq in E. now subst.
  - intros H. exists x. split; [assumption | apply str_eqb_refl].
Qed.

(** ** The candidate set of [generate_next_numberings] *)

(** C7. Candidate-set monotonicity: for every well-formed numbering (one
    that parses to a token), the token with its last component
    incremented by one is a member of the candidate-next set that
    [generate_next_numberings] returns for it. *)
Theorem increment_last_in_candidates (s : str) (parts : list N) :
  parse_numbering s = Ok parts ->
  exists l, generate_next_numberings s = Ok l
            /\ In (render_numbering (increment_last parts)) l.
Proof.
  intros H. unfold generate_next_numberings. rewrite H. simpl.
  eexists; split; [reflexivity|].
  apply in_sorted_set; [apply str_eqb_eq|].
  simpl. left. reflexivity.
Qed.

Lemma increment_last_in_candidates_witness :
  exists l, generate_next_numberings (py "1.2.3.") = Ok l
            /\ In (py "1.2.4.") l.
Proof.
  apply (increment_last_in_candidates (py "1.2.3.") [1; 2; 3]%N).
  reflexivity.
Defined.

(** ** The scenario ["1. Intro", "1.1. Background", "2.1. Oops"] *)

(** C4, as the code behaves.  On the titles ["1. Intro"],
    ["1.1. Background"], ["2.1. Oops"] the validation flags position 2
    (["2.1."] is no candidate successor of ["1.1."]), but no numbered title
    follows it, so the guard [if prev_valid and next_valid] leaves it
    alone: the output mapping is the input mapping, key ["2.1. Oops"]
    included. *)
Theorem oops_flagged_not_rewritten (V : Type) (a b c : V) :
  let data := [(py "1. Intro", a); (py "1.1. Background", b);
               (py "2.1. Oops", c)] in
  non_logical_indexes (numberings_of (keys data)) = Ok [2]
  /\ (exists l, generate_next_numberings (py "1.1.") = Ok l
                /\ mem_str (py "2.1.") l = false)
  /\ find_and_replace_numberings data = Ok data.
Proof.
  cbv zeta. split; [|split].
  - vm_compute. reflexivity.
  - eexists. split; vm_compute; reflexivity.
  - vm_compute. reflexivity.
Qed.

(** C4, as the claim states it, fails: the entry keeps the numbering
    ["2.1."] in the output mapping. *)
Lemma oops_keeps_its_numbering :
  exists out,
    find_and_replace_numberings
      [(py "1. Intro", py "a"); (py "1.1. Background", py "b");
       (py "2.1. Oops", py "c")] = Ok out
    /\ numberings_of (keys out) = [py "1."; py "1.1."; py "2.1."]
    /\ dict_get out (py "2.1. Oops") = Some (py "c").
Proof.
  eexists. split; [vm_compute; reflexivity|].
  split; vm_compute; reflexivity.
Qed.

(** ** Validation only flags numbered positions *)

Lemma flags_ok_nil (l : list str) (i : nat) : flags_ok l i [].
Proof. intros k []. Qed.

Lemma flags_ok_shift (a : str) (l : list str) (i : nat) (fl : list nat) :
  flags_ok l (S i) fl -> flags_ok (a :: l) i fl.
Proof.
  intros H k Hk. destruct (H k Hk) as [Hr Hn]. simpl length. split; [lia|].
  replace (k - i) with (S (k - S i)) by lia. exact Hn.
Qed.

Lemma scan_from_flags_ok (resume : list str -> nat -> Res (list nat))
  (cur : str) (m : nat) :
  (forall r j fl, length r <= m -> resume r j = Ok fl -> flags_ok r j fl) ->
  forall r j fl, length r <= m ->
    scan_from resume cur r j = Ok fl -> flags_ok r j fl.
Proof.
  intros Hres. induction r as [|nxt r' IH]; intros j fl Hlen H; simpl in H.
  - injection H as <-. apply flags_ok_nil.
  - simpl in Hlen. destruct (str_eqb nxt []) eqn:Eb.
    + apply flags_ok_shift. apply IH; [lia | exact H].
    + apply bind_ok in H. destruct H as (gen & _ & H).
      destruct (negb (mem_str nxt gen)).
      * apply bind_ok in H. destruct H as (more & Hm & H).
        injection H as <-. intros k [<- | Hk].
        -- simpl length. split; [lia|]. rewrite Nat.sub_diag. simpl.
           unfold nonblank. now rewrite Eb.
        -- refine (flags_ok_shift nxt r' j more _ k Hk).
           apply IH; [lia | exact Hm].
      * apply Hres; [simpl; lia | exact H].
Qed.

Lemma validate_from_flags_ok (m : nat) :
  forall l i fl, length l <= m -> validate_from l i = Ok fl -> flags_ok l i fl.
Proof.
  induction m as [|m IH]; intros l i fl Hlen H.
  - destruct l; [|simpl in Hlen; lia]. injection H as <-. apply flags_ok_nil.
  - destruct l as [|cur rest]; [injection H as <-; apply flags_ok_nil|].
    simpl in Hlen. simpl in H. destruct rest as [|b rest'].
    + injection H as <-. apply flags_ok_nil.
    + destruct (str_eqb cur []).
      * apply flags_ok_shift. apply IH; [lia | exact H].
      * apply flags_ok_shift.
        apply (scan_from_flags_ok validate_from cur m);
          [exact IH | lia | exact H].
Qed.

Lemma non_logical_indexes_nonblank (nums : list str) (flagged : list nat) :
  non_logical_indexes nums = Ok flagged ->
  forall k, In k flagged ->
    k < length nums /\ nonblank (nth k nums []) = true.
Proof.
  unfold non_logical_indexes. intros H k Hk.
  apply bind_ok in H. destruct H as (fl & Hv & H). injection H as <-.
  apply in_sorted_set in Hk; [|apply Nat.eqb_eq].
  destruct (validate_from_flags_ok (length nums) nums 0 fl (le_n _) Hv k Hk)
    as [Hr Hn].
  rewrite Nat.sub_0_r in Hn. split; [lia | exact Hn].
Qed.

(** ** Reconstruction rewrites only between two numbered neighbours *)

Lemma list_assign_spec {A : Type} (d v : A) :
  forall (l : list A) (i : nat) (l' : list A),
    list_assign l i v = Ok l' ->
    i < length l /\ length l' = length l /\ nth i l' d = v
    /\ forall j, j <> i -> nth j l' d = nth j l d.
Proof.
  induction l as [|a r IH]; intros i l' H; simpl in H; [discriminate|].
  destruct i as [|i'].
  - injection H as <-. simpl. repeat split; try lia.
    intros [|j] Hj; [congruence | reflexivity].
  - apply bind_ok in H. destruct H as (r' & Hr & H). injection H as <-.
    destruct (IH _ _ Hr) as (H1 & H2 & H3 & H4). simpl.
    repeat split; try lia; try assumption.
    intros [|j] Hj; [reflexivity | apply H4; lia].
Qed.

Lemma find_before (f : str -> bool) (l : list str) (idx : nat) (x : str) :
  List.find f (rev (firstn idx l)) = Some x ->
  exists i, i < idx /\ i < length l /\ f (nth i l []) = true.
Proof.
  intros H. apply find_some in H. destruct H as [Hin Hf].
  apply in_rev in Hin. apply (In_nth _ _ []) in Hin.
  destruct Hin as (i & Hi & E). rewrite length_firstn in Hi.
  exists i. rewrite nth_firstn in E.
  destruct (i <? idx) eqn:Ei; [|apply Nat.ltb_ge in Ei; lia].
  repeat split; try lia. now rewrite E.
Qed.

Lemma find_after (f : str -> bool) (l : list str) (idx : nat) (x : str) :
  List.find f (skipn (idx + 1) l) = Some x ->
  exists k, idx < k < length l /\ f (nth k l []) = true.
Proof.
  intros H. apply find_some in H. destruct H as [Hin Hf].
  apply (In_nth _ _ []) in Hin. destruct Hin as (i & Hi & E).
  rewrite length_skipn in Hi. rewrite nth_skipn in E.
  exists (idx + 1 + i). split; [lia|]. now rewrite E.
Qed.

Lemma render_numbering_nonblank (parts : list N) :
  nonblank (render_numbering parts) = true.
Proof.
  unfold nonblank, render_numbering.
  destruct (join dot (map str_of_N parts) ++ dot) eqn:E; [|reflexivity].
  apply app_eq_nil in E. destruct E as [_ E]. discriminate.
Qed.

Lemma reconstruct_one_spec (l : list str) (idx : nat) (l' : list str) :
  reconstruct_one l idx = Ok l' ->
  length l' = length l
  /\ (forall j, j <> idx -> nth j l' [] = nth j l [])
  /\ (l' = l \/ (nonblank (nth idx l' []) = true /\ between_numbered l idx)).
Proof.
  unfold reconstruct_one. intros H.
  destruct (List.find nonblank (rev (firstn idx l))) as [pv|] eqn:Ep;
    [|injection H as <-; auto].
  destruct (List.find nonblank (skipn (idx + 1) l)) as [nv|] eqn:En;
    [|injection H as <-; auto].
  apply find_before in Ep. apply find_after in En.
  assert (Hb : between_numbered l idx).
  { destruct Ep as (i & Hi & _ & Hf). destruct En as (k & Hk & Hg).
    split; eauto. }
  apply bind_ok in H. destruct H as (pp & _ & H).
  apply bind_ok in H. destruct H as (np & _ & H).
  assert (Hgen : forall v, list_assign l idx (render_numbering v) = Ok l' ->
    length l' = length l
    /\ (forall j, j <> idx -> nth j l' [] = nth j l [])
    /\ (l' = l \/ (nonblank (nth idx l' []) = true /\ between_numbered l idx))).
  { intros v Hv. destruct (list_assign_spec ([] : str) _ _ _ _ Hv) as (_ & H2 & H3 & H4).
    repeat split; try assumption. right. split; [|exact Hb].
    rewrite H3. apply render_numbering_nonblank. }
  destruct (_ && _); [eapply Hgen; exact H|].
  destruct (_ && _); eapply Hgen; exact H.
Qed.

Lemma reconstruct_spec (idxs : list nat) :
  forall (l l' : list str),
    (forall j, In j idxs -> nonblank (nth j l []) = true) ->
    reconstruct l idxs = Ok l' ->
    length l' = length l
    /\ (forall i, nonblank (nth i l' []) = nonblank (nth i l []))
    /\ (forall idx, nth idx l' [] <> nth idx l [] ->
          In idx idxs /\ between_numbered l idx).
Proof.
  induction idxs as [|idx0 more IH]; intros l l' Hnb H; simpl in H.
  - injection H as <-. split; [reflexivity|]. split; [reflexivity|].
    intros idx Hn. exfalso. now apply Hn.
  - apply bind_ok in H. destruct H as (l1 & H1 & H).
    destruct (reconstruct_one_spec _ _ _ H1) as (Hlen1 & Hframe1 & Hch1).
    assert (Hblank1 : forall i, nonblank (nth i l1 []) = nonblank (nth i l [])).
    { intros i. destruct Hch1 as [-> | [Hn _]]; [reflexivity|].
      destruct (Nat.eq_dec i idx0) as [-> | Hne].
      - rewrite Hn. symmetry. apply Hnb. now left.
      - now rewrite Hframe1. }
    destruct (IH l1 l') as (Hlen & Hblank & Hch); [|exact H|].
    { intros j Hj. rewrite Hblank1. apply Hnb. now right. }
    split; [lia|]. split; [intros i; now rewrite Hblank, Hblank1|].
    intros idx Hneq.
    destruct (str_eq_dec (nth idx l' []) (nth idx l1 [])) as [E | Hne].
    + rewrite E in Hneq.
      assert (idx = idx0) as ->.
      { destruct (Nat.eq_dec idx idx0); [assumption|].
        exfalso. apply Hneq. now apply Hframe1. }
      split; [now left|].
      destruct Hch1 as [-> | [_ Hb]]; [congruence | exact Hb].
    + destruct (Hch idx Hne) as [Hin [(i & Hi & Hpi) (k & Hk & Hnk)]].
      split; [now right|]. split.
      * exists i. now rewrite <- Hblank1.
      * exists k. rewrite <- Hblank1, <- Hlen1. auto.
Qed.

(** ** The keys written by the last loop *)

Lemma split1_space_spec (x : str) :
  match split1_space x with
  | (h, Some t) => x = h ++ space ++ t
  | (h, None) => x = h
  end.
Proof.
  induction x as [|a r IH]; simpl; [reflexivity|].
  destruct (Ascii.eqb_spec a " "%char) as [-> | Hne]; [reflexivity|].
  destruct (split1_space r) as [h [t|]]; simpl; now rewrite IH at 1.
Qed.

Lemma dict_set_has_key {V : Type} (d : dict V) (k : str) (v : V) :
  In k (keys (dict_set d k v)).
Proof.
  induction d as [|[k' v'] r IH]; simpl; [now left|].
  destruct (str_eqb k' k) eqn:E; simpl.
  - left. now apply str_eqb_eq.
  - now right.
Qed.

Lemma dict_set_keeps_keys {V : Type} (d : dict V) (k k0 : str) (v : V) :
  In k0 (keys d) -> In k0 (keys (dict_set d k v)).
Proof.
  induction d as [|[k' v'] r IH]; simpl; [tauto|].
  destruct (str_eqb k' k); simpl; tauto.
Qed.

Lemma update_dict_keeps_keys {V : Type} (bl : list nat) (rec_ : list str) :
  forall (items : list (str * V)) (idx : nat) (acc out : dict V),
    update_dict bl rec_ idx items acc = Ok out ->
    forall k, In k (keys acc) -> In k (keys out).
Proof.
  induction items as [|[key value] r IH]; intros idx acc out H k Hk; simpl in H.
  - now injection H as <-.
  - apply bind_ok in H. destruct H as (k1 & _ & H).
    eapply IH; [exact H|]. now apply dict_set_keeps_keys.
Qed.

Lemma update_dict_writes_key {V : Type} (bl : list nat) (rec_ : list str) :
  forall (items : list (str * V)) (idx : nat) (acc out : dict V),
    update_dict bl rec_ idx items acc = Ok out ->
    forall n key value, nth_error items n = Some (key, value) ->
      exists k, updated_key bl rec_ (idx + n) key = Ok k /\ In k (keys out).
Proof.
  induction items as [|[key0 value0] r IH]; intros idx acc out H n key value Hn;
    simpl in H.
  - destruct n; discriminate.
  - apply bind_ok in H. destruct H as (k1 & Hk1 & H). destruct n as [|n'].
    + injection Hn as -> ->. rewrite Nat.add_0_r. exists k1. split; [assumption|].
      eapply update_dict_keeps_keys; [exact H|]. apply dict_set_has_key.
    + simpl in Hn. replace (idx + S n') with (S idx + n') by lia.
      eapply IH; eassumption.
Qed.

Lemma updated_key_unchanged (bl : list nat) (rec_ : list str) (idx : nat)
  (key : str) :
  nth_error rec_ idx = Some (key_numbering key) ->
  nonblank (key_numbering key) = true ->
  updated_key bl rec_ idx key = Ok key.
Proof.
  intros Hget Hnb. unfold updated_key.
  destruct (existsb (Nat.eqb idx) bl); [reflexivity|].
  unfold list_get. rewrite Hget. simpl.
  unfold key_numbering in *. pose proof (split1_space_spec key) as Hs.
  destruct (split1_space key) as [p0 rest]. simpl in *.
  destruct (isdigit (remove_char "."%char p0)); [|discriminate].
  destruct rest; subst key; reflexivity.
Qed.

(** C10. In [find_and_replace_numberings], the numbering at a position
    differs between [reconstructed_numberings] and [numberings] only when
    the position was flagged and there is a non-blank numbering before it
    and a non-blank numbering after it.  A flagged position with no
    non-blank numbering after it (the last numbered title, say) keeps its
    numbering, and its key is a key of the output. *)
Theorem rewrite_needs_both_neighbours (V : Type) (data out : dict V) :
  find_and_replace_numberings data = Ok out ->
  let numberings := numberings_of (keys data) in
  exists flagged reconstructed,
    non_logical_indexes numberings = Ok flagged
    /\ reconstruct numberings flagged = Ok reconstructed
    /\ length reconstructed = length numberings
    /\ (forall idx,
          nth idx reconstructed [] <> nth idx numberings [] ->
          In idx flagged /\ between_numbered numberings idx)
    /\ (forall idx key,
          nth_error (keys data) idx = Some key ->
          In idx flagged ->
          (forall k, idx < k -> nth k numberings [] = []) ->
          nth idx reconstructed [] = key_numbering key
          /\ In key (keys out)).
Proof.
  intros H numberings. unfold find_and_replace_numberings in H.
  fold numberings in H.
  apply bind_ok in H. destruct H as (flagged & Hfl & H).
  apply bind_ok in H. destruct H as (rec_ & Hrec & H).
  exists flagged, rec_. split; [assumption|]. split; [assumption|].
  pose proof (non_logical_indexes_nonblank _ _ Hfl) as Hnb.
  destruct (reconstruct_spec flagged numberings rec_) as (Hlen & Hblank & Hch);
    [intros j Hj; now apply Hnb | assumption |].
  split; [assumption|]. split; [assumption|].
  intros idx key Hkey Hin Hlast.
  assert (Hnum : nth idx numberings [] = key_numbering key).
  { unfold numberings, numberings_of.
    apply nth_error_nth. now apply map_nth_error. }
  assert (Hsame : nth idx rec_ [] = nth idx numberings []).
  { destruct (str_eq_dec (nth idx rec_ []) (nth idx numberings [])) as [E|Hne];
      [assumption|].
    destruct (Hch idx Hne) as [_ [_ (k & Hk & Hnk)]].
    rewrite (Hlast k) in Hnk by lia. discriminate. }
  split; [congruence|].
  destruct (Hnb idx Hin) as [Hidx Hnbk].
  unfold keys in Hkey. rewrite nth_error_map in Hkey.
  destruct (nth_error data idx) as [[key' value]|] eqn:Hitem; [|discriminate].
  simpl in Hkey. injection Hkey as ->.
  destruct (update_dict_writes_key _ _ _ _ _ _ H _ _ _ Hitem) as (k & Hk & Hink).
  simpl in Hk. rewrite updated_key_unchanged in Hk.
  - now injection Hk as <-.
  - rewrite <- Hnum, <- Hsame. apply nth_error_nth'. lia.
  - now rewrite <- Hnum.
Qed.

Lemma rewrite_needs_both_neighbours_witness :
  let data := [(py "1. Intro", 10); (py "1.1. Background", 11);
               (py "2.1. Oops", 12)] in
  let numberings := numberings_of (keys data) in
  exists flagged reconstructed,
    non_logical_indexes numberings = Ok flagged
    /\ reconstruct numberings flagged = Ok reconstructed
    /\ length reconstructed = length numberings
    /\ (forall idx,
          nth idx reconstructed [] <> nth idx numberings [] ->
          In idx flagged /\ between_numbered numberings idx)
    /\ (forall idx key,
          nth_error (keys data) idx = Some key ->
          In idx flagged ->
          (forall k, idx < k -> nth k numberings [] = []) ->
          nth idx reconstructed [] = key_numbering key
          /\ In key (keys data)).
Proof.
  intros data.
  apply (rewrite_needs_both_neighbours nat data data).
  vm_compute. reflexivity.
Defined.

(** ** Title variations *)

Lemma product_bool_length (n : nat) : length (product_bool n) = 2 ^ n.
Proof.
  induction n as [|n IH]; [reflexivity|].
  simpl. rewrite app_nil_r, length_app, !length_map, IH. lia.
Qed.

Lemma product_bool_spec (n : nat) (comb : list bool) :
  In comb (product_bool n) <-> length comb = n.
Proof.
  revert comb; induction n as [|n IH]; intros comb; simpl.
  - destruct comb; simpl; intuition; discriminate.
  - rewrite app_nil_r, in_app_iff, !in_map_iff. split.
    + intros [(c & <- & Hc) | (c & <- & Hc)]; simpl; f_equal; now apply IH.
    + destruct comb as [|[|] c]; simpl; intros [=]; [left | right];
        exists c; (split; [reflexivity | now apply IH]).
Qed.

Lemma product_bool_first (n : nat) :
  nth 0 (product_bool n) [] = repeat true n.
Proof.
  induction n as [|n IH]; [reflexivity|].
  simpl. rewrite app_nil_r.
  pose proof (product_bool_length n) as Hl.
  destruct (product_bool n) as [|c r] eqn:E.
  - simpl in Hl. pose proof (Nat.pow_nonzero 2 n). lia.
  - simpl in *. now rewrite IH.
Qed.

Lemma glue_words_all_spaces (rest : list str) (acc : str) :
  glue_words acc (repeat true (length rest)) rest
  = join space ((acc :: rest)).
Proof.
  revert acc; induction rest as [|w r IH]; intros acc; [reflexivity|].
  simpl repeat. simpl glue_words. rewrite IH.
  destruct r; simpl; now rewrite <- ?app_assoc.
Qed.

Lemma spacing_variant_canonical (words : list str) :
  spacing_variant words (repeat true (length words - 1)) = join space words.
Proof.
  destruct words as [|w0 rest]; [reflexivity|].
  replace (length (w0 :: rest) - 1) with (length rest) by (simpl; lia).
  apply glue_words_all_spaces.
Qed.

Lemma numbered_variations_length (l : list str) :
  length (flat_map (fun v => map (numbered_variation v) [1; 2; 3; 4]) l)
  = 4 * length l.
Proof.
  induction l as [|v r IH]; [reflexivity|].
  change (flat_map (fun v => map (numbered_variation v) [1; 2; 3; 4]) (v :: r))
    with (map (numbered_variation v) [1; 2; 3; 4]
            ++ flat_map (fun v => map (numbered_variation v) [1; 2; 3; 4]) r).
  rewrite length_app, IH. simpl. lia.
Qed.

Lemma glue_words_chosen (rest : list str) :
  forall choice acc,
    glue_words acc choice rest
    = acc ++ concat (map (fun kw => (if fst kw : bool then [" "%char] else [])
                                      ++ snd kw)
                       (combine choice rest)).
Proof.
  induction rest as [|w rest IH]; intros [|keep choice] acc;
    cbn [glue_words combine map concat]; rewrite ?app_nil_r; try reflexivity.
  rewrite IH, <- !app_assoc. destruct keep; reflexivity.
Qed.

Lemma spacing_variant_chosen (words : list str) (choice : list bool) :
  spacing_variant words choice = chosen_spacing words choice.
Proof.
  destruct words as [|w0 rest]; [reflexivity|]. apply glue_words_chosen.
Qed.

(** Two choices for the same words that give the same text are the same
    choice: a word is not empty and has no space in it. *)
Lemma chosen_tail_injective (rest : list str) :
  Forall is_word_of rest ->
  forall c c' : list bool,
    length c = length rest -> length c' = length rest ->
    concat (map (fun kw => (if fst kw : bool then [" "%char] else [])
                             ++ snd kw) (combine c rest))
    = concat (map (fun kw => (if fst kw : bool then [" "%char] else [])
                               ++ snd kw) (combine c' rest)) ->
    c = c'.
Proof.
  induction 1 as [|w rest Hw Hrest IH]; intros [|k c] [|k' c'] Hl Hl' E;
    try discriminate; [reflexivity|].
  cbn [combine map concat fst snd] in E.
  destruct Hw as (Hne & Hsp).
  destruct w as [|a w]; [congruence|].
  assert (Ha : a <> " "%char).
  { intros ->. inversion Hsp as [|? ? Hs]; subst. vm_compute in Hs. discriminate. }
  assert (Ek : k = k').
  { destruct k, k'; cbn in E; try reflexivity; injection E as E1 _; congruence. }
  subst k'. f_equal.
  rewrite <- !app_assoc in E. apply app_inv_head in E. apply app_inv_head in E.
  apply IH; [now injection Hl | now injection Hl' | exact E].
Qed.

Lemma product_bool_NoDup (n : nat) : NoDup (product_bool n).
Proof.
  induction n as [|n IH]; cbn [product_bool flat_map].
  - constructor; [intros []|constructor].
  - rewrite app_nil_r.
    assert (Hc : forall b, NoDup (map (cons b) (product_bool n))).
    { intros b. apply NoDup_map_NoDup_ForallPairs; [|exact IH].
      intros x y _ _ [=]. assumption. }
    apply NoDup_app; [apply Hc | apply Hc |].
    intros a Ha Hb. apply in_map_iff in Ha, Hb.
    destruct Ha as (x & <- & _), Hb as (y & [=] & _).
Qed.

Lemma spacing_variants_NoDup (words : list str) :
  Forall is_word_of words ->
  NoDup (map (spacing_variant words) (product_bool (length words - 1))).
Proof.
  intros Hw. apply NoDup_map_NoDup_ForallPairs; [|apply product_bool_NoDup].
  intros c c' Hc Hc'. apply product_bool_spec in Hc, Hc'.
  rewrite !spacing_variant_chosen.
  destruct words as [|w0 rest].
  - cbn in Hc, Hc'. destruct c, c'; try discriminate. reflexivity.
  - assert (Hl : length c = length rest) by (cbn [length] in Hc; lia).
    assert (Hl' : length c' = length rest) by (cbn [length] in Hc'; lia).
    cbn [chosen_spacing]. intros E. apply app_inv_head in E.
    inversion Hw; subst. now apply (chosen_tail_injective rest).
Qed.

Lemma plain_is_no_quantifier (c : ascii) (rest : str) :
  re_special c = false -> parse_quantifier (c :: rest) = None.
Proof.
  intros Hc.
  destruct c as [[] [] [] [] [] [] [] []]; try (vm_compute in Hc; discriminate);
    reflexivity.
Qed.

Lemma special_is_escaped (c : ascii) :
  re_special c = true -> parse_escape c = Some (IChar c).
Proof.
  intros Hc.
  destruct c as [[] [] [] [] [] [] [] []]; try (vm_compute in Hc; discriminate);
    reflexivity.
Qed.

Lemma parse_atom_plain (c : ascii) (rest : str) (fuel g : nat) :
  re_special c = false ->
  parse_atom (S fuel) (c :: rest) g
  = Some (RChar (CItem (IChar c)), rest, g, true).
Proof.
  intros Hc.
  destruct c as [[] [] [] [] [] [] [] []]; try (vm_compute in Hc; discriminate);
    reflexivity.
Qed.

(** One step of [parse_seq]. *)
Lemma parse_seq_S (fuel : nat) (x : str) (g : nat) (acc : regex) :
  parse_seq (S fuel) x g acc
  = match x with
    | [] => Some (acc, x, g)
    | "|"%char :: _ => Some (acc, x, g)
    | ")"%char :: _ => Some (acc, x, g)
    | _ =>
        match parse_atom fuel x g with
        | None => None
        | Some (r, x1, g1, repeatable) =>
            match parse_quantifier x1 with
            | None => parse_seq fuel x1 g1 (seq_of acc r)
            | Some (lo, hi, x2) =>
                if negb repeatable then None
                else if negb (allowed lo (option_map S hi)) then None
                else
                  let '(greedy, x3) :=
                    match x2 with
                    | "?"%char :: x3 => (false, x3)
                    | _ => (true, x2)
                    end in
                  match parse_quantifier x3 with
                  | Some _ => None
                  | None =>
                      parse_seq fuel x3 g1
                        (seq_of acc (RRep r lo hi greedy))
                  end
            end
        end
    end.
Proof. reflexivity. Qed.

Lemma parse_seq_plain (c : ascii) (rest : str) (fuel g : nat) (acc : regex) :
  re_special c = false ->
  parse_quantifier rest = None ->
  parse_seq (S (S fuel)) (c :: rest) g acc
  = parse_seq (S fuel) rest g (seq_of acc (RChar (CItem (IChar c)))).
Proof.
  intros Hc Hq. rewrite parse_seq_S.
  pose proof (parse_atom_plain c rest fuel g Hc) as Ha.
  destruct c as [[] [] [] [] [] [] [] []]; try (vm_compute in Hc; discriminate);
    cbv beta iota; rewrite Ha, Hq; reflexivity.
Qed.

Lemma parse_seq_escaped (c : ascii) (rest : str) (fuel g : nat) (acc : regex) :
  re_special c = true ->
  parse_quantifier rest = None ->
  parse_seq (S (S fuel)) ("\"%char :: c :: rest) g acc
  = parse_seq (S fuel) rest g (seq_of acc (RChar (CItem (IChar c)))).
Proof.
  intros Hc Hq. rewrite parse_seq_S. cbv beta iota.
  assert (Ha : parse_atom (S fuel) ("\"%char :: c :: rest) g
               = Some (RChar (CItem (IChar c)), rest, g, true)).
  { cbn [parse_atom]. now rewrite (special_is_escaped c Hc). }
  rewrite Ha, Hq. reflexivity.
Qed.

Lemma no_quantifier_after_escape (v : str) :
  parse_quantifier (re_escape v) = None.
Proof.
  destruct v as [|c v]; [reflexivity|].
  unfold re_escape. cbn [flat_map].
  destruct (re_special c) eqn:Hc; [reflexivity|].
  destruct c as [[] [] [] [] [] [] [] []]; try (vm_compute in Hc; discriminate);
    reflexivity.
Qed.

Lemma parse_seq_re_escape (v : str) :
  forall fuel g acc,
    length v < fuel ->
    parse_seq fuel (re_escape v) g acc = Some (literal_from acc v, [], g).
Proof.
  induction v as [|c v IH]; intros fuel g acc Hf.
  - destruct fuel; [lia | reflexivity].
  - destruct fuel as [|[|fuel]]; cbn [length] in Hf; try lia.
    change (re_escape (c :: v))
      with ((if re_special c then ["\"%char; c] else [c]) ++ re_escape v).
    cbn [literal_from fold_left]. fold (literal_from (seq_of acc (RChar (CItem (IChar c)))) v).
    destruct (re_special c) eqn:Hc; cbn [app].
    + rewrite parse_seq_escaped by (auto using no_quantifier_after_escape).
      apply IH. lia.
    + rewrite parse_seq_plain by (auto using no_quantifier_after_escape).
      apply IH. lia.
Qed.

Lemma re_escape_length (v : str) : length v <= length (re_escape v).
Proof.
  induction v as [|c v IH]; [reflexivity|].
  change (re_escape (c :: v))
    with ((if re_special c then ["\"%char; c] else [c]) ++ re_escape v).
  rewrite length_app. destruct (re_special c); cbn [length]; lia.
Qed.

Lemma compile_re_escape (v : str) :
  compile (re_escape v) = Ok (literal_from REmpty v).
Proof.
  unfold compile, re_compile.
  pose proof (re_escape_length v) as Hl.
  replace (3 * length (re_escape v) + 3)
    with (S (S (3 * length (re_escape v) + 1))) by lia.
  cbn [parse_alt]. fold parse_seq.
  rewrite parse_seq_re_escape by lia. reflexivity.
Qed.

Lemma re_run_seq_of (ic : bool) (acc r : regex) (st : mstate)
  (k : mstate -> option mstate) :
  re_run ic (seq_of acc r) st k
  = re_run ic acc st (fun st' => re_run ic r st' k).
Proof. destruct acc; reflexivity. Qed.

Lemma startswith_nil (x : str) : startswith x [] = true.
Proof. destruct x; reflexivity. Qed.

Lemma startswith_app (p q : str) :
  forall x,
    startswith x (p ++ q)
    = startswith x p && startswith (skipn (length p) x) q.
Proof.
  induction p as [|b p IH]; intros x; [destruct x; reflexivity|].
  destruct x as [|a x]; cbn [app startswith length skipn]; [reflexivity|].
  rewrite IH. now rewrite andb_assoc.
Qed.

(** Matching the characters of [v] one after the other takes [v] at the
    head of the text, or fails. *)
Lemma re_run_literal (v : str) :
  forall st k,
    re_run false (literal_from REmpty v) st k
    = if startswith (m_rest st) v
      then k (MState (m_pos st + length v) (skipn (length v) (m_rest st))
                (m_caps st))
      else None.
Proof.
  induction v as [|c v IH] using rev_ind; intros st k.
  - destruct st as [pos [|a rest] caps]; cbn; now rewrite Nat.add_0_r.
  - unfold literal_from. rewrite fold_left_app. cbn [fold_left].
    fold (literal_from REmpty v).
    rewrite re_run_seq_of, IH, startswith_app, length_app.
    destruct (startswith (m_rest st) v); [|reflexivity].
    cbn [andb re_run m_rest m_pos m_caps class_matches item_matches length].
    rewrite (Nat.add_comm (length v) 1), <- skipn_skipn.
    destruct (skipn (length v) (m_rest st)) as [|a rest];
      cbn [startswith skipn]; [reflexivity|].
    rewrite startswith_nil, andb_true_r.
    destruct (Ascii.eqb a c); [|reflexivity].
    f_equal. f_equal. lia.
Qed.

(** [re.escape] makes a pattern that stands for the text itself. *)
Lemma re_escape_literal (v : str) : literal_pattern (re_escape v) v.
Proof.
  exists (literal_from REmpty v). split; [apply compile_re_escape|].
  intros x. unfold re_match, match_at. rewrite re_run_literal.
  cbn [m_rest m_pos m_caps skipn andb Nat.add].
  destruct (startswith x v); reflexivity.
Qed.

(** X29. For the title ["Scope (EU)"] the generator returns the two
    spacing variants, with and without the space, and for each of them
    four numbered variants in which [re.escape] has escaped the space and
    the parentheses of the title, and in which the levels [\d+] are
    joined by a bare dot: ['.'.join] does not escape it, so in the pattern
    it stands for any character.  The variant of two levels is
    [\d+.\d+\s*Scope\ \(EU\)], not [\d+\.\d+\s*Scope\ \(EU\)]: it
    matches ["2024 Scope (EU)"], a title after a plain year, as if
    ["2024"] were a numbering of two levels, which the pattern with the
    escaped dot refuses; both match ["1.2 Scope (EU)"]. *)
Theorem placeholder_dot_takes_any_character :
  exists r_code r_spec,
    generate_title_variations (py "Scope (EU)")
    = Ok [py "Scope (EU)"; py "Scope(EU)";
          py "\d+\s*Scope\ \(EU\)"; py "\d+.\d+\s*Scope\ \(EU\)";
          py "\d+.\d+.\d+\s*Scope\ \(EU\)";
          py "\d+.\d+.\d+.\d+\s*Scope\ \(EU\)";
          py "\d+\s*Scope\(EU\)"; py "\d+.\d+\s*Scope\(EU\)";
          py "\d+.\d+.\d+\s*Scope\(EU\)";
          py "\d+.\d+.\d+.\d+\s*Scope\(EU\)"]
    /\ dotted_placeholder 2 ++ py "\s*" ++ re_escape (py "Scope (EU)")
       = py "\d+\.\d+\s*Scope\ \(EU\)"
    /\ compile (py "\d+.\d+\s*Scope\ \(EU\)") = Ok r_code
    /\ compile (py "\d+\.\d+\s*Scope\ \(EU\)") = Ok r_spec
    /\ (exists m, re_match true r_code (py "2024 Scope (EU)") = Some m
                  /\ group (py "2024 Scope (EU)") m 0
                     = Some (py "2024 Scope (EU)"))
    /\ re_match true r_spec (py "2024 Scope (EU)") = None
    /\ (exists m, re_match true r_code (py "1.2 Scope (EU)") = Some m
                  /\ group (py "1.2 Scope (EU)") m 0
                     = Some (py "1.2 Scope (EU)"))
    /\ (exists m, re_match true r_spec (py "1.2 Scope (EU)") = Some m
                  /\ group (py "1.2 Scope (EU)") m 0
                     = Some (py "1.2 Scope (EU)")).
Proof.
  eexists. eexists.
  split; [vm_compute; reflexivity|].
  split; [vm_compute; reflexivity|].
  split; [vm_compute; reflexivity|].
  split; [vm_compute; reflexivity|].
  split; [eexists; split; vm_compute; reflexivity|].
  split; [vm_compute; reflexivity|].
  split; eexists; split; vm_compute; reflexivity.
Qed.

(** ** Dictionaries *)

Lemma dict_get_set_same {V : Type} (d : dict V) (k : str) (v : V) :
  dict_get (dict_set d k v) k = Some v.
Proof.
  induction d as [|[k' v'] r IH]; simpl.
  - now rewrite str_eqb_refl.
  - destruct (str_eqb k' k) eqn:E; simpl; now rewrite E.
Qed.

Lemma dict_get_set_other {V : Type} (d : dict V) (k k0 : str) (v : V) :
  k <> k0 -> dict_get (dict_set d k v) k0 = dict_get d k0.
Proof.
  intros Hne. induction d as [|[k' v'] r IH]; simpl.
  - apply str_eqb_neq in Hne. now rewrite Hne.
  - destruct (str_eqb k' k) eqn:E; simpl.
    + apply str_eqb_eq in E. subst k'.
      apply str_eqb_neq in Hne. now rewrite Hne.
    + destruct (str_eqb k' k0); [reflexivity | exact IH].
Qed.

Lemma in_keys_unique {V : Type} (d : dict V) (k : str) (v v' : V) :
  NoDup (keys d) -> In (k, v) d -> In (k, v') d -> v = v'.
Proof.
  induction d as [|[k0 v0] r IH]; simpl; [tauto|].
  intros Hnd H1 H2. inversion Hnd as [|? ? Hnotin Hnd']; subst.
  destruct H1 as [E1 | H1], H2 as [E2 | H2].
  - congruence.
  - injection E1 as -> ->. exfalso. apply Hnotin.
    apply in_map_iff. now exists (k, v').
  - injection E2 as -> ->. exfalso. apply Hnotin.
    apply in_map_iff. now exists (k, v).
  - now apply IH.
Qed.

(** ** The program's patterns compile *)

Ltac compiles := eexists; vm_compute; reflexivity.

Lemma compile_depth3_spaced :
  exists r, compile (py "^\d+\.\d+\.\d+\.\s+.+") = Ok r.
Proof. compiles. Qed.

Lemma compile_depth2 : exists r, compile (py "^\d+\.\d+\..+") = Ok r.
Proof. compiles. Qed.

Lemma compile_depth3 : exists r, compile (py "^\d+\.\d+\.\d+\..+") = Ok r.
Proof. compiles. Qed.

Lemma compile_groups : exists r, compile (py "((\d+\.){2,3})") = Ok r.
Proof. compiles. Qed.

Lemma compile_depth1 : exists r, compile (py "^\d+\..+") = Ok r.
Proof. compiles. Qed.

Lemma compile_prefix : exists r, compile (py "^\d+\.\s*") = Ok r.
Proof. compiles. Qed.

Lemma compile_prefix_text : exists r, compile (py "^\d+\.\s*.+") = Ok r.
Proof. compiles. Qed.

Lemma compile_digit_runs : exists r, compile (py "\d+[\.\s]*") = Ok r.
Proof. compiles. Qed.

Lemma compile_numbering : exists r, compile (py "^(\d+(\.\d+)*\.)") = Ok r.
Proof. compiles. Qed.

Lemma compile_whitespace : exists r, compile (py "\s+") = Ok r.
Proof. compiles. Qed.

Ltac use_compile L :=
  let r := fresh "r" in
  let E := fresh "E" in
  destruct L as [r E]; rewrite ?E; cbn [bind].

(** ** Boundary refiner *)

Lemma search_key_total (title : str) : exists k, search_key title = Ok k.
Proof.
  unfold search_key.
  use_compile compile_depth3_spaced. use_compile compile_depth2.
  use_compile compile_depth3. use_compile compile_groups.
  use_compile compile_depth1. use_compile compile_prefix.
  destruct (is_some (re_match false r title)); [eauto|].
  destruct (_ || _); [eauto|].
  destruct (is_some (re_match false r3 title)); eauto.
Qed.

Lemma plain_title_total (title : str) : exists k, plain_title title = Ok k.
Proof. unfold plain_title. use_compile compile_prefix. eauto. Qed.

Lemma start_index_of_total (current_text modified_title title : str) :
  exists i, start_index_of current_text modified_title title = Ok i.
Proof.
  unfold start_index_of. use_compile compile_prefix_text.
  destruct (_ && _); [|eauto].
  destruct (plain_title_total title) as [p ->]. simpl. eauto.
Qed.

Lemma section_text_of_total (title : str) (next : option str) (text : str) :
  exists s, section_text_of title next text = Ok s.
Proof.
  unfold section_text_of.
  destruct (search_key_total title) as [k ->]. cbn [bind].
  destruct next as [next_title|].
  - destruct (search_key_total next_title) as [k' ->]. cbn [bind].
    destruct (start_index_of_total text k title) as [i ->]. cbn [bind].
    destruct (negb _); eauto.
  - destruct (negb _); eauto.
Qed.

Lemma extract_sections_loop_total (processed_text : dict str) :
  forall titles acc, exists out,
    extract_sections_loop titles processed_text acc = Ok out.
Proof.
  induction titles as [|title rest IH]; intros acc; simpl; [eauto|].
  destruct (search_key_total title) as [k ->]. cbn [bind].
  destruct (dict_get_default processed_text title []) as [|c text']; [apply IH|].
  destruct (section_text_of_total title (hd_error rest) (c :: text')) as [s ->].
  cbn [bind]. apply IH.
Qed.

(** A search that fails on the search key, the raw title and the plain
    title leaves the text as it is. *)
Lemma section_text_of_not_found (title key plain : str) (next : option str)
  (text : str) :
  search_key title = Ok key ->
  plain_title title = Ok plain ->
  str_find text key = (-1)%Z ->
  str_find text title = (-1)%Z ->
  str_find text plain = (-1)%Z ->
  section_text_of title next text = Ok text.
Proof.
  intros Hk Hp H1 H2 H3. unfold section_text_of. rewrite Hk. cbn [bind].
  destruct next as [next_title|].
  - destruct (search_key_total next_title) as [k' ->]. cbn [bind].
    assert (Hs : start_index_of text key title = Ok (-1)%Z).
    { unfold start_index_of. use_compile compile_prefix_text.
      rewrite H1. cbn [Z.eqb Pos.eqb]. rewrite H2. cbn [Z.eqb Pos.eqb andb].
      destruct (is_some (re_match false r title)); [|reflexivity].
      rewrite Hp. cbn [bind]. now rewrite H3. }
    rewrite Hs. reflexivity.
  - rewrite H1. reflexivity.
Qed.

Lemma extract_sections_loop_get (processed_text : dict str)
  (title v : str) :
  (forall next,
     match dict_get_default processed_text title [] with
     | [] => v = []
     | text => section_text_of title next text = Ok v
     end) ->
  forall titles acc out,
    extract_sections_loop titles processed_text acc = Ok out ->
    In title titles \/ dict_get acc title = Some v ->
    dict_get out title = Some v.
Proof.
  intros Hw. induction titles as [|t rest IH]; intros acc out H Hin; simpl in H.
  - injection H as <-. destruct Hin as [[] | Hin]. exact Hin.
  - apply bind_ok in H. destruct H as (k & _ & H).
    destruct (str_eq_dec t title) as [-> | Hne].
    + specialize (Hw (hd_error rest)).
      destruct (dict_get_default processed_text title []) as [|c text'].
      * subst v. eapply IH; [exact H|]. right. apply dict_get_set_same.
      * rewrite Hw in H. cbn [bind] in H.
        eapply IH; [exact H|]. right. apply dict_get_set_same.
    + assert (Hin' : In title rest \/ dict_get acc title = Some v).
      { destruct Hin as [[E | Hin] | Hin]; [congruence | now left | now right]. }
      destruct (dict_get_default processed_text t []) as [|c text'].
      * eapply IH; [exact H|].
        destruct Hin' as [? | Hg]; [now left | right].
        now rewrite dict_get_set_other.
      * apply bind_ok in H. destruct H as (s & _ & H).
        eapply IH; [exact H|].
        destruct Hin' as [? | Hg]; [now left | right].
        now rewrite dict_get_set_other.
Qed.

(** C2. For every title of the mapping given to the boundary refiner:
    when neither its search key nor the raw title nor the
    numbering-stripped title occurs in the body assigned to it, the
    refined body is that body, unchanged; in particular a non-empty body
    is not emptied by a failed search.  (The refiner always returns.) *)
Theorem failed_search_keeps_body (titles : list str)
  (processed_text : dict str) (title key plain : str) :
  In title titles ->
  let text := dict_get_default processed_text title [] in
  search_key title = Ok key ->
  plain_title title = Ok plain ->
  str_find text key = (-1)%Z ->
  str_find text title = (-1)%Z ->
  str_find text plain = (-1)%Z ->
  exists out,
    extract_sections_from_processed_text titles processed_text = Ok out
    /\ dict_get out title = Some text
    /\ (text <> [] -> dict_get out title <> Some []).
Proof.
  intros Hin text Hk Hp H1 H2 H3.
  unfold extract_sections_from_processed_text.
  destruct (extract_sections_loop_total processed_text titles []) as [out Hout].
  rewrite Hout. exists out. split; [reflexivity|].
  assert (Hget : dict_get out title = Some text).
  { eapply extract_sections_loop_get; [|exact Hout | now left].
    intros next. fold text. destruct text as [|c t] eqn:Et; [reflexivity|].
    now apply section_text_of_not_found with (key := key) (plain := plain). }
  split; [exact Hget|]. rewrite Hget. congruence.
Qed.

Lemma failed_search_keeps_body_witness :
  exists out,
    extract_sections_from_processed_text
      [py "1. Scope"; py "2. Methods"]
      [(py "1. Scope", py "Running head The survey covers all units");
       (py "2. Methods", py "Sampling was stratified by region")] = Ok out
    /\ dict_get out (py "1. Scope")
       = Some (py "Running head The survey covers all units")
    /\ (py "Running head The survey covers all units" <> [] ->
        dict_get out (py "1. Scope") <> Some []).
Proof.
  apply (failed_search_keeps_body
           [py "1. Scope"; py "2. Methods"]
           [(py "1. Scope", py "Running head The survey covers all units");
            (py "2. Methods", py "Sampling was stratified by region")]
           (py "1. Scope") (py "Scope") (py "Scope")).
  - simpl. left. reflexivity.
  - vm_compute. reflexivity.
  - vm_compute. reflexivity.
  - vm_compute. reflexivity.
  - vm_compute. reflexivity.
  - vm_compute. reflexivity.
Defined.

(** ** [refine_extracted_sections] *)

Lemma strip_numbers_total (x : str) : exists y, strip_numbers x = Ok y.
Proof. unfold strip_numbers. use_compile compile_digit_runs. eauto. Qed.

Lemma startswith_nil_nonempty (p : str) : p <> [] -> startswith [] p = false.
Proof. destruct p; [congruence | reflexivity]. Qed.

Lemma refine_section_total (title text : str) :
  exists t, refine_section title text = Ok t.
Proof.
  unfold refine_section.
  destruct (strip_numbers_total title) as [st ->]. cbn [bind].
  destruct (strip_numbers_total (without_title title text)) as [sx ->].
  cbn [bind]. use_compile compile_numbering.
  destruct (re_match false r title) as [m|]; [|eauto].
  unfold group. cbn [of_option bind]. destruct (startswith _ _); eauto.
Qed.

(** The length test of step 2 decides: a short stripped text gives the
    empty string, whatever step 3 finds. *)
Lemma refine_section_short (title text stripped : str) :
  strip_numbers (without_title title text) = Ok stripped ->
  length stripped <= 50 ->
  refine_section title text = Ok [].
Proof.
  intros Hs Hlen. unfold refine_section.
  destruct (strip_numbers_total title) as [st ->]. cbn [bind].
  rewrite Hs. cbn [bind].
  apply Nat.leb_le in Hlen. rewrite Hlen.
  use_compile compile_numbering.
  destruct (re_match false r title) as [m|]; [|reflexivity].
  unfold group. cbn [of_option bind].
  rewrite startswith_nil_nonempty; [reflexivity|].
  intros Hnil. apply app_eq_nil in Hnil. destruct Hnil as [_ Hnil].
  apply app_eq_nil in Hnil. destruct Hnil as [Hnil _]. discriminate.
Qed.

Lemma refine_loop_total :
  forall items acc, exists out, refine_loop items acc = Ok out.
Proof.
  induction items as [|[title text] more IH]; intros acc; simpl; [eauto|].
  destruct (refine_section_total title text) as [t ->]. cbn [bind]. apply IH.
Qed.

Lemma refine_loop_get (title v : str) :
  forall items acc out,
    (forall text, In (title, text) items -> refine_section title text = Ok v) ->
    refine_loop items acc = Ok out ->
    In title (keys items) \/ dict_get acc title = Some v ->
    dict_get out title = Some v.
Proof.
  induction items as [|[t x] more IH]; intros acc out Hw H Hin; simpl in H.
  - injection H as <-. destruct Hin as [[] | Hin]. exact Hin.
  - apply bind_ok in H. destruct H as (tx & Htx & H).
    eapply IH; [| exact H |].
    + intros text Ht. apply Hw. now right.
    + destruct (str_eq_dec t title) as [-> | Hne].
      * right. rewrite (Hw x) in Htx by now left.
        injection Htx as <-. apply dict_get_set_same.
      * destruct Hin as [[E | Hin] | Hg];
          [simpl in E; congruence | now left | right].
        now rewrite dict_get_set_other.
Qed.

(** C9, as the code behaves.  For every entry of the mapping given to
    [refine_extracted_sections]: when the body, after a leading copy of
    the title has been cut off and the rest trimmed, has length at most
    50 once the digit runs (with the dots and whitespace after them) are
    removed and the result trimmed, the refined body for that title is
    the empty string. *)
Theorem short_section_is_emptied (extracted_sections : dict str)
  (title text stripped : str) :
  NoDup (keys extracted_sections) ->
  In (title, text) extracted_sections ->
  strip_numbers (without_title title text) = Ok stripped ->
  length stripped <= 50 ->
  exists out,
    refine_extracted_sections extracted_sections = Ok out
    /\ dict_get out title = Some [].
Proof.
  intros Hnd Hin Hs Hlen. unfold refine_extracted_sections.
  destruct (refine_loop_total extracted_sections []) as [out Hout].
  rewrite Hout. exists out. split; [reflexivity|].
  eapply refine_loop_get; [| exact Hout |].
  - intros text' Hin'.
    rewrite (in_keys_unique extracted_sections title text' text Hnd Hin' Hin).
    now apply refine_section_short with (stripped := stripped).
  - left. apply in_map_iff. now exists (title, text).
Qed.

Lemma short_section_is_emptied_witness :
  exists out,
    refine_extracted_sections
      [(py "1. Scope", py "1. Scope 2.1 see annex 3");
       (py "Annex", py "Annex tables")] = Ok out
    /\ dict_get out (py "1. Scope") = Some [].
Proof.
  apply (short_section_is_emptied
           [(py "1. Scope", py "1. Scope 2.1 see annex 3");
            (py "Annex", py "Annex tables")]
           (py "1. Scope") (py "1. Scope 2.1 see annex 3") (py "see annex")).
  - repeat constructor; simpl; intuition discriminate.
  - simpl. left. reflexivity.
  - vm_compute. reflexivity.
  - simpl. lia.
Defined.

(** C9, as the claim states it, fails: a body of 55 characters that
    keeps 50 characters once its digit-and-dot runs are removed is not
    emptied, because the title ["2024"] is cut off first and the dot that
    followed it is then no part of a digit run. *)
Lemma short_body_not_emptied :
  let title := py "2024" in
  let body := py "2024." ++ repeat "x"%char 50 in
  strip_numbers body = Ok (repeat "x"%char 50)
  /\ filter (fun c => negb (is_digit c || is_dot c)) body = repeat "x"%char 50
  /\ length (repeat "x"%char 50) <= 50
  /\ refine_extracted_sections [(title, body)]
     = Ok [(title, py "." ++ repeat "x"%char 50)].
Proof.
  cbv zeta. split; [vm_compute; reflexivity|].
  split; [vm_compute; reflexivity|].
  split; [vm_compute; lia|]. vm_compute. reflexivity.
Qed.

(** ** Cleaning the empty text *)

Lemma as_runtime_error_ok {A : Type} (m : Res A) (a : A) :
  as_runtime_error m = Ok a -> m = Ok a.
Proof. destruct m; simpl; congruence. Qed.

Lemma remove_all_nil (old : str) : remove_all old [] = [].
Proof. destruct old; reflexivity. Qed.

Lemma strip_nil : strip [] = [].
Proof. reflexivity. Qed.

Lemma re_sub_delete_nil (r : regex) : re_sub r [] [] = [].
Proof.
  unfold re_sub. simpl. destruct (match_at false r [] 0 false); reflexivity.
Qed.

Lemma sub_expressions_nil (exprs : list str) (t : str) :
  sub_expressions exprs [] = Ok t -> t = [].
Proof.
  induction exprs as [|e more IH]; simpl; intros H; [congruence|].
  apply bind_ok in H. destruct H as (r & _ & H).
  rewrite re_sub_delete_nil in H. now apply IH.
Qed.

Lemma whitespace_on_nil :
  exists r, compile (py "\s+") = Ok r /\ re_sub r [RText space] [] = [].
Proof. eexists. split; vm_compute; reflexivity. Qed.

Lemma remove_characters_nil (chars : list str) :
  fold_left (fun t char => remove_all char t) chars [] = [].
Proof.
  induction chars as [|c more IH]; cbn [fold_left]; [reflexivity|].
  now rewrite remove_all_nil.
Qed.

Lemma clean_text_nil (config : CleanupConfig) (t : str) :
  clean_text config [] = Ok t -> t = [].
Proof.
  unfold clean_text. intros H. apply as_runtime_error_ok in H.
  rewrite remove_characters_nil in H. apply bind_ok in H. destruct H as (t2 & H2 & H).
  apply sub_expressions_nil in H2. subst t2.
  destruct whitespace_on_nil as (r & E & Hr). rewrite E in H. cbn [bind] in H.
  rewrite Hr in H. now injection H as <-.
Qed.

Lemma remove_texts_nil (texts : list str) : remove_texts texts [] = [].
Proof.
  unfold remove_texts. induction texts as [|t more IH];
    cbn [fold_left]; [reflexivity|].
  now rewrite remove_all_nil, strip_nil.
Qed.

(** ** Section segmenter, no-numbering mode *)

Lemma section_pages_loop_not_found (config : CleanupConfig) (doc : Document)
  (title : str) (next_title : option str) :
  forall page_nums section_text out,
    (forall page_num raw page_text,
       In page_num page_nums ->
       load_page doc page_num = Ok raw ->
       clean_text config raw = Ok page_text ->
       first_offset page_text title 0 = None) ->
    section_pages_loop config doc title next_title page_nums section_text false
    = Ok out ->
    out = section_text.
Proof.
  induction page_nums as [|n more IH]; intros section_text out Hnf H; simpl in H.
  - congruence.
  - apply bind_ok in H. destruct H as (raw & Hraw & H).
    apply bind_ok in H. destruct H as (page_text & Hclean & H).
    rewrite (Hnf n raw page_text (or_introl eq_refl) Hraw Hclean) in H.
    simpl in H. apply IH; [|exact H].
    intros n' raw' p' Hin. apply Hnf. now right.
Qed.

Lemma section_of_entry_key (config : CleanupConfig) (doc : Document)
  (e : TocEntry) (next : option TocEntry) (kv : str * str) :
  section_of_entry config doc e next = Ok kv ->
  section_title (toc_title e) = Ok (fst kv).
Proof.
  unfold section_of_entry. intros H.
  apply bind_ok in H. destruct H as (t & Ht & H).
  apply bind_ok in H. destruct H as (s & _ & H).
  apply bind_ok in H. destruct H as (b & _ & H).
  injection H as <-. exact Ht.
Qed.

Lemma no_numbering_loop_other_keys (config : CleanupConfig) (doc : Document)
  (title : str) :
  forall toc acc out,
    (forall e t, In e toc -> section_title (toc_title e) = Ok t -> t <> title) ->
    no_numbering_loop config doc toc acc = Ok out ->
    dict_get out title = dict_get acc title.
Proof.
  induction toc as [|e rest IH]; intros acc out Hne H; simpl in H.
  - now injection H as <-.
  - apply bind_ok in H. destruct H as (kv & Hkv & H).
    rewrite (IH _ _ (fun e' t Hin => Hne e' t (or_intror Hin)) H).
    apply dict_get_set_other.
    apply (Hne e (fst kv) (or_introl eq_refl)).
    now apply section_of_entry_key with (config := config) (doc := doc) (next := hd_error rest).
Qed.

(** C5, as the code behaves.  In the no-numbering mode, for a TOC entry
    whose (cleanup-stripped) title starts at no offset of any page of its
    page range, the assembled text stays empty: the section is present
    in the result, with the empty string as its body (no later entry
    having the same title). *)
Theorem unfound_title_gives_empty_section (config : CleanupConfig)
  (doc : Document) (before after : list TocEntry) (entry : TocEntry)
  (title : str) (sections : dict str) :
  structure_raw_text_by_toc_no_numbering config doc (before ++ entry :: after)
  = Ok sections ->
  section_title (toc_title entry) = Ok title ->
  (forall page_num raw page_text,
     In page_num (page_range (toc_page entry - 1)
                    (end_page_of doc (hd_error after))) ->
     load_page doc page_num = Ok raw ->
     clean_text config raw = Ok page_text ->
     first_offset page_text title 0 = None) ->
  (forall e t, In e after -> section_title (toc_title e) = Ok t -> t <> title) ->
  dict_get sections title = Some [].
Proof.
  unfold structure_raw_text_by_toc_no_numbering.
  intros H Ht Hnf Hlater. apply as_runtime_error_ok in H.
  revert H. generalize (@nil (str * str)).
  induction before as [|b more IH]; intros acc H.
  - simpl in H. apply bind_ok in H. destruct H as (kv & Hkv & H).
    rewrite (no_numbering_loop_other_keys config doc title after _ _ Hlater H).
    unfold section_of_entry in Hkv. rewrite Ht in Hkv. cbn [bind] in Hkv.
    apply bind_ok in Hkv. destruct Hkv as (s & Hs & Hkv).
    apply section_pages_loop_not_found in Hs; [|exact Hnf]. subst s.
    rewrite remove_texts_nil in Hkv.
    apply bind_ok in Hkv. destruct Hkv as (body & Hb & Hkv).
    apply clean_text_nil in Hb. subst body. injection Hkv as <-.
    apply dict_get_set_same.
  - simpl in H. apply bind_ok in H. destruct H as (kv & _ & H).
    eapply IH. exact H.
Qed.

Lemma unfound_title_gives_empty_section_witness :
  dict_get [(py "Missing", []); (py "again", py "again")] (py "Missing")
  = Some [].
Proof.
  apply (unfound_title_gives_empty_section
           {| special_characters := []; expressions := [];
              texts_to_remove := [] |}
           {| pages := [py "Hello   world"; py "again"] |}
           []
           [{| toc_level := 1; toc_title := py "again"; toc_page := 2 |}]
           {| toc_level := 1; toc_title := py "Missing"; toc_page := 1 |}
           (py "Missing")).
  - vm_compute. reflexivity.
  - vm_compute. reflexivity.
  - intros page_num raw page_text Hin Hraw Hclean.
    simpl in Hin. destruct Hin as [<- | [<- | []]].
    + vm_compute in Hraw. injection Hraw as <-.
      vm_compute in Hclean. injection Hclean as <-. vm_compute. reflexivity.
    + vm_compute in Hraw. injection Hraw as <-.
      vm_compute in Hclean. injection Hclean as <-. vm_compute. reflexivity.
  - intros e t [<- | []] Hst. vm_compute in Hst. injection Hst as <-.
    discriminate.
Defined.

(** C5, as the claim states it, fails: the title ["Missing"] is on no
    page, and its section is the empty string, not the cleaned text
    ["Hello world"] of its start page. *)
Lemma missing_title_section_is_empty :
  let config := {| special_characters := []; expressions := [];
                   texts_to_remove := [] |} in
  let doc := {| pages := [py "Hello   world"] |} in
  structure_raw_text_by_toc_no_numbering config doc
    [{| toc_level := 1; toc_title := py "Missing"; toc_page := 1 |}]
  = Ok [(py "Missing", [])]
  /\ (raw <- load_page doc 0 ;; clean_text config raw) = Ok (py "Hello world").
Proof. cbv zeta. split; vm_compute; reflexivity. Qed.

(** ** The failing search of the TOC rectifier *)

(** C3, at a failing input.  Page text ["12. Intro 3 Intro"], entry
    ["Intro"]: the first hit (pattern [\d+], offset 10) rewrites the title
    to ["3 Intro"], the loop over the numbering patterns goes on, and the
    second pattern [\d+\.] rewrites it again, to ["12. Intro"]. *)
Theorem search_goes_on_after_first_hit :
  let config := {| special_characters := []; expressions := [];
                   texts_to_remove := [] |} in
  let doc := {| pages := [py "12. Intro 3 Intro"] |} in
  let entry := {| toc_level := 1; toc_title := py "Intro"; toc_page := 1 |} in
  (exists st,
     search_entry config doc true entry None [] = Ok st
     /\ assigned st = [py "3 Intro"; py "12. Intro"])
  /\ search_and_replace_numbered_titles config doc true [entry] []
     = Ok ([{| toc_level := 1; toc_title := py "12. Intro"; toc_page := 1 |}],
           []).
Proof.
  cbv zeta. split.
  - eexists. split; vm_compute; reflexivity.
  - vm_compute. reflexivity.
Qed.

(** ** The orchestrator *)

Module PipelineFacts.
Import Pipeline.

Section Facts.

Variable Self : Type.
Variable m : Methods Self.

Ltac run_step :=
  repeat (cbn;
    match goal with
    | |- context [andb ?a _] => is_var a; destruct a
    | |- context [andb (negb ?a) _] => is_var a; destruct a
    | |- context [match ?c with _ => _ end] =>
        lazymatch c with
        | context [match _ with _ => _ end] => fail
        | _ =>
            lazymatch type of c with
            | (Res _ * _)%type => destruct c as [[?|?] ?] eqn:?
            | option _ => destruct c eqn:?
            | bool => destruct c eqn:?
            end
        end
    end).

Ltac impossible_step :=
  match goal with
  | E : structured_processed_text ?f = [],
    H : truthy (structured_processed_text ?f) = true |- _ =>
      rewrite E in H; discriminate
  end.

Ltac done_step :=
  first
    [ impossible_step
    | cbn; eexists; split; [reflexivity|]; cbn; unfold same_data; cbn;
      repeat split; auto; try congruence ].

Lemma step1_spec (fr : frame Self) :
  exists fr', step1 m fr = (Ok tt, fr') /\ same_data fr fr'.
Proof.
  unfold step1, try_except, mbind, call, logging_error, update, ret.
  run_step; done_step.
Qed.

Lemma step2_spec (fr : frame Self) :
  exists fr', step2 m fr = (Ok tt, fr') /\ same_data fr fr'
    /\ (always_fails (structure_raw_text_by_toc_no_numbering m) ->
        always_fails (structure_raw_text_by_toc m) ->
        structured_processed_text fr' = []).
Proof.
  unfold step2, try_except, mbind, call, attribute, set_structured,
    logging_error, update, ret.
  run_step; done_step;
    intros H1 H2;
    match goal with
    | E : structure_raw_text_by_toc_no_numbering m ?s = (Ok _, _) |- _ =>
        destruct (H1 s) as (? & ? & ?); congruence
    | E : structure_raw_text_by_toc m ?s = (Ok _, _) |- _ =>
        destruct (H2 s) as (? & ? & ?); congruence
    end.
Qed.

Lemma step3_spec (fr : frame Self) :
  exists fr', step3 m fr = (Ok tt, fr') /\ same_data fr fr'
    /\ leveled_text fr' = leveled_text fr
    /\ (structured_processed_text fr = [] ->
        structured_processed_text fr' = []).
Proof.
  unfold step3, try_except, mbind, call, read, set_structured,
    logging_error, update, ret.
  cbn; destruct (structured_processed_text fr) eqn:Es; run_step; done_step.
Qed.

Lemma step4_spec (fr : frame Self) :
  exists fr', step4 m fr = (Ok tt, fr') /\ same_data fr fr'
    /\ leveled_text fr' = leveled_text fr
    /\ (structured_processed_text fr = [] ->
        structured_processed_text fr' = []).
Proof.
  unfold step4, try_except, mbind, call, attribute, read, set_structured,
    logging_error, update, ret.
  cbn; destruct (structured_processed_text fr) eqn:Es; run_step; done_step.
Qed.

Lemma step5_spec (fr : frame Self) :
  exists fr', step5 m fr = (Ok tt, fr') /\ same_data fr fr'
    /\ leveled_text fr' = leveled_text fr
    /\ (structured_processed_text fr = [] ->
        structured_processed_text fr' = []).
Proof.
  unfold step5, try_except, mbind, call, read, set_structured,
    logging_error, update, ret.
  cbn; destruct (structured_processed_text fr) eqn:Es; run_step; done_step.
Qed.

Lemma step6_spec (fr : frame Self) :
  exists fr', step6 m fr = (Ok tt, fr') /\ same_data fr fr'
    /\ leveled_text fr' = leveled_text fr
    /\ (structured_processed_text fr = [] ->
        structured_processed_text fr' = []).
Proof.
  unfold step6, try_except, mbind, call, attribute, read, set_structured,
    logging_error, update, ret.
  cbn; destruct (structured_processed_text fr) eqn:Es; run_step; done_step.
Qed.

Lemma step7_spec (fr : frame Self) :
  exists fr', step7 m fr = (Ok tt, fr') /\ same_data fr fr'
    /\ structured_processed_text fr' = structured_processed_text fr
    /\ (structured_processed_text fr = [] -> leveled_text fr' = [])
    /\ ((forall d, always_fails (organize_by_levels_with_grouping m d)) ->
        leveled_text fr' = []).
Proof.
  unfold step7, try_except, mbind, call, read, set_leveled,
    logging_error, update, ret.
  cbn; destruct (structured_processed_text fr) eqn:Es; run_step; done_step;
    intros H;
    match goal with
    | E : organize_by_levels_with_grouping m ?d ?s = (Ok _, _) |- _ =>
        destruct (H d s) as (? & ? & ?); congruence
    end.
Qed.

(** The last block either leaves [data] alone (the metadata could not
    be read) or fills the first three fields, and the fourth when the
    whole text could be read. *)
Lemma populate_spec (fr : frame Self) :
  exists fr', populate m fr = (Ok tt, fr')
    /\ (same_data fr fr'
        \/ (data_leveled_text fr' = leveled_text fr
            /\ data_processed_text fr' = structured_processed_text fr
            /\ (always_fails (extract_pdf_textand_clean m) ->
                data_cleaned_text fr' = data_cleaned_text fr)))
    /\ (always_fails (extract_metadata m) -> same_data fr fr').
Proof.
  unfold populate, try_except, mbind, call, read, set_data_metadata,
    set_data_leveled_text, set_data_processed_text, set_data_cleaned_text,
    logging_error, update, ret.
  run_step; cbn; eexists; (split; [reflexivity|]); cbn; unfold same_data; cbn;
    (split; [auto 10|]);
    try (intros H;
         match goal with
         | E : extract_metadata m ?s = (Ok _, _) |- _ =>
             destruct (H s) as (? & ? & ?); congruence
         end);
    auto.
  right. repeat split; auto. intros H.
  match goal with
  | E : extract_pdf_textand_clean m ?s = (Ok _, _) |- _ =>
      destruct (H s) as (? & ? & ?); congruence
  end.
Qed.

Lemma step8_spec (out : list (str * field)) (fr : frame Self) :
  exists fr', step8 m out fr = (Ok tt, fr').
Proof.
  unfold step8, try_except, call, logging_error, update.
  run_step; try match goal with a : unit |- _ => destruct a end;
    eexists; reflexivity.
Qed.

Ltac open_step :=
  unfold step2, step3, step4, step5, step6, step7, populate, try_except,
    mbind, call, attribute, read, set_structured, set_leveled,
    set_data_metadata, set_data_leveled_text, set_data_processed_text,
    set_data_cleaned_text, logging_error, update, ret.

Ltac nonempty_text :=
  match goal with
  | text := structured_processed_text ?fr, Hne : _ <> [] |- _ =>
      subst text; cbn -[keys];
      destruct (structured_processed_text fr) as [|? ?] eqn:?;
      [congruence|]; cbn [truthy andb negb]
  end.

Ltac finish := cbn; first [reflexivity | assumption].

(** Step 2 on the run: a missing flag or a raising segmenter leaves the
    text mapping empty. *)
Lemma step2_degrades (fr : frame Self) :
  (no_numbering_flag m (self fr) = None ->
   structured_processed_text (snd (step2 m fr)) = [])
  /\ (forall flag, no_numbering_flag m (self fr) = Some flag ->
      raises (if flag then structure_raw_text_by_toc_no_numbering m
              else structure_raw_text_by_toc m) (self fr) ->
      structured_processed_text (snd (step2 m fr)) = []).
Proof.
  split.
  - intros E. open_step. cbn -[keys]. rewrite E. reflexivity.
  - intros flag E (e & s' & H). open_step. cbn -[keys]. rewrite E.
    destruct flag; cbn; rewrite H; reflexivity.
Qed.

(** Steps 3 to 6: a call that raises leaves the text mapping as the
    last call that returned left it, or as it was before the step. *)
Lemma step3_degrades (fr : frame Self) :
  let text := structured_processed_text fr in
  text <> [] ->
  raises (extract_sections_from_processed_text m (keys text) text) (self fr) ->
  structured_processed_text (snd (step3 m fr)) = text.
Proof.
  intros text Hne (e & s' & H). open_step. nonempty_text.
  cbn -[keys]. rewrite H. finish.
Qed.

Lemma step4_degrades (fr : frame Self) :
  let text := structured_processed_text fr in
  no_numbering_flag m (self fr) = Some true ->
  text <> [] ->
  (raises (process_titles m text) (self fr) ->
   structured_processed_text (snd (step4 m fr)) = text)
  /\ (forall d1 s1, process_titles m text (self fr) = (Ok d1, s1) ->
      raises (refine_extracted_sections m d1) s1 ->
      structured_processed_text (snd (step4 m fr)) = d1).
Proof.
  intros text E Hne. split.
  - intros (e & s' & H). open_step. cbn -[keys]. rewrite E. nonempty_text.
    cbn -[keys]. rewrite H. finish.
  - intros d1 s1 H1 (e & s' & H). open_step. cbn -[keys]. rewrite E. nonempty_text.
    cbn -[keys]. rewrite H1. cbn -[keys]. rewrite H. finish.
Qed.

Lemma step5_degrades (fr : frame Self) :
  let text := structured_processed_text fr in
  text <> [] ->
  (raises (normalize_keys_with_numbering m text) (self fr) ->
   structured_processed_text (snd (step5 m fr)) = text)
  /\ (forall d1 s1,
        normalize_keys_with_numbering m text (self fr) = (Ok d1, s1) ->
        (raises (find_and_replace_numberings m d1) s1 ->
         structured_processed_text (snd (step5 m fr)) = d1)
        /\ (forall d2 s2,
              find_and_replace_numberings m d1 s1 = (Ok d2, s2) ->
              raises (remove_title_from_text m d2) s2 ->
              structured_processed_text (snd (step5 m fr)) = d2)).
Proof.
  intros text Hne. split; [|intros d1 s1 H1; split; [|intros d2 s2 H2]].
  - intros (e & s' & H). open_step. nonempty_text.
    cbn -[keys]. rewrite H. finish.
  - intros (e & s' & H). open_step. nonempty_text.
    cbn -[keys]. rewrite H1. cbn -[keys]. rewrite H. finish.
  - intros (e & s' & H). open_step. nonempty_text.
    cbn -[keys]. rewrite H1. cbn -[keys]. rewrite H2. cbn -[keys]. rewrite H. finish.
Qed.

Lemma step6_degrades (fr : frame Self) :
  let text := structured_processed_text fr in
  no_numbering_flag m (self fr) = Some false ->
  text <> [] ->
  (formatted_toc m (self fr) = None ->
   structured_processed_text (snd (step6 m fr)) = text)
  /\ (forall toc, formatted_toc m (self fr) = Some toc ->
      raises (process_titles_in_one_step m text toc) (self fr) ->
      structured_processed_text (snd (step6 m fr)) = text).
Proof.
  intros text E Hne. split.
  - intros Ht. open_step. cbn -[keys]. rewrite E. nonempty_text.
    cbn -[keys]. rewrite Ht. finish.
  - intros toc Ht (e & s' & H). open_step. cbn -[keys]. rewrite E. nonempty_text.
    cbn -[keys]. rewrite Ht. cbn -[keys]. rewrite H. finish.
Qed.

(** Step 7: the tree is assigned after each of the three calls, so a call
    that raises leaves the tree of the call before it, and the empty
    tree when the first one raises. *)
Lemma step7_degrades (fr : frame Self) :
  let text := structured_processed_text fr in
  text <> [] ->
  (raises (organize_by_levels_with_grouping m text) (self fr) ->
   leveled_text (snd (step7 m fr)) = [])
  /\ (forall t1 s1,
        organize_by_levels_with_grouping m text (self fr) = (Ok t1, s1) ->
        (raises (restructure_levels m t1) s1 ->
         leveled_text (snd (step7 m fr)) = t1)
        /\ (forall t2 s2,
              restructure_levels m t1 s1 = (Ok t2, s2) ->
              (raises (resolve_and_filter_dict m t2) s2 ->
               leveled_text (snd (step7 m fr)) = t2)
              /\ (forall t3 s3,
                    resolve_and_filter_dict m t2 s2 = (Ok t3, s3) ->
                    leveled_text (snd (step7 m fr)) = t3))).
Proof.
  intros text Hne.
  split; [|intros t1 s1 H1; split; [|intros t2 s2 H2; split; [|intros t3 s3 H3]]].
  - intros (e & s' & H). open_step. nonempty_text.
    cbn -[keys]. rewrite H. finish.
  - intros (e & s' & H). open_step. nonempty_text.
    cbn -[keys]. rewrite H1. cbn -[keys]. rewrite H. finish.
  - intros (e & s' & H). open_step. nonempty_text.
    cbn -[keys]. rewrite H1. cbn -[keys]. rewrite H2. cbn -[keys]. rewrite H. finish.
  - open_step. nonempty_text.
    cbn -[keys]. rewrite H1. cbn -[keys]. rewrite H2. cbn -[keys]. rewrite H3. finish.
Qed.

(** The last block: [data] is filled in the order metadata, leveled
    text, processed text, cleaned text, up to the call that raises. *)
Lemma populate_degrades (fr : frame Self) :
  let fr' := snd (populate m fr) in
  (raises (extract_metadata m) (self fr) -> same_data fr fr')
  /\ (forall md s1, extract_metadata m (self fr) = (Ok md, s1) ->
      data_metadata fr' = md
      /\ data_leveled_text fr' = leveled_text fr
      /\ data_processed_text fr' = structured_processed_text fr
      /\ (raises (extract_pdf_textand_clean m) s1 ->
          data_cleaned_text fr' = data_cleaned_text fr)
      /\ (forall c s2, extract_pdf_textand_clean m s1 = (Ok c, s2) ->
          data_cleaned_text fr' = c)).
Proof.
  intros fr'. subst fr'. split.
  - intros (e & s' & H). open_step. cbn -[keys]. rewrite H. cbn.
    unfold same_data. cbn -[keys]. auto.
  - intros md s1 H1. open_step. cbn -[keys]. rewrite H1. cbn.
    destruct (extract_pdf_textand_clean m s1) as [[c|e] s2] eqn:H2; cbn;
      repeat split; auto; try (intros (? & ? & ?); congruence);
      try (intros ? ? ?; congruence).
Qed.

(** The blocks of the outer [try] return one after the other: the
    handler of the outer [try] is never entered. *)
Lemma main_blocks_run (s : Self) :
  main_blocks m (initial s) = (Ok tt, frame_after m 8 s).
Proof.
  unfold frame_after, blocks. cbn [firstn fold_left].
  unfold main_blocks, mbind.
  destruct (step1_spec (initial s)) as (fr1 & E & _).
  rewrite !E. cbn [snd]. clear E.
  destruct (step2_spec fr1) as (fr2 & E & _).
  rewrite !E. cbn [snd]. clear E.
  destruct (step3_spec fr2) as (fr3 & E & _).
  rewrite !E. cbn [snd]. clear E.
  destruct (step4_spec fr3) as (fr4 & E & _).
  rewrite !E. cbn [snd]. clear E.
  destruct (step5_spec fr4) as (fr5 & E & _).
  rewrite !E. cbn [snd]. clear E.
  destruct (step6_spec fr5) as (fr6 & E & _).
  rewrite !E. cbn [snd]. clear E.
  destruct (step7_spec fr6) as (fr7 & E & _).
  rewrite !E. cbn [snd]. clear E.
  destruct (populate_spec fr7) as (fr8 & E8 & _).
  rewrite !E8. reflexivity.
Qed.

(** Up to the last block the four entries of [data] keep their empty
    defaults. *)
Lemma data_untouched (s : Self) (k : nat) :
  k <= 7 -> same_data (initial s) (frame_after m k s).
Proof.
  intros Hk. unfold frame_after, blocks.
  assert (D0 : same_data (initial s) (initial s))
    by (unfold same_data; auto).
  pose proof (step1_spec (initial s)) as (fr1 & E1 & D1).
  pose proof (step2_spec fr1) as (fr2 & E2 & D2 & _).
  pose proof (step3_spec fr2) as (fr3 & E3 & D3 & _).
  pose proof (step4_spec fr3) as (fr4 & E4 & D4 & _).
  pose proof (step5_spec fr4) as (fr5 & E5 & D5 & _).
  pose proof (step6_spec fr5) as (fr6 & E6 & D6 & _).
  pose proof (step7_spec fr6) as (fr7 & E7 & D7 & _).
  do 8 (destruct k as [|k]; [cbn [firstn fold_left];
    rewrite ?E1; cbn [snd]; rewrite ?E2; cbn [snd]; rewrite ?E3; cbn [snd];
    rewrite ?E4; cbn [snd]; rewrite ?E5; cbn [snd]; rewrite ?E6; cbn [snd];
    rewrite ?E7; cbn [snd];
    unfold same_data in *; cbn in *; intuition congruence|]).
  lia.
Qed.

(** An empty text mapping stays empty through steps 3 to 6, and the
    tree built from it is empty. *)
Lemma empty_text_stays_empty (s : Self) :
  structured_processed_text (frame_after m 2 s) = [] ->
  structured_processed_text (frame_after m 6 s) = []
  /\ leveled_text (frame_after m 7 s) = [].
Proof.
  unfold frame_after, blocks. cbn [firstn fold_left].
  set (fr2 := snd (step2 m (snd (step1 m (initial s))))).
  intros H2.
  destruct (step3_spec fr2) as (fr3 & E3 & _ & _ & S3).
  destruct (step4_spec fr3) as (fr4 & E4 & _ & _ & S4).
  destruct (step5_spec fr4) as (fr5 & E5 & _ & _ & S5).
  destruct (step6_spec fr5) as (fr6 & E6 & _ & _ & S6).
  destruct (step7_spec fr6) as (fr7 & E7 & _ & _ & S7 & _).
  rewrite E3; cbn [snd]. rewrite E4; cbn [snd]. rewrite E5; cbn [snd].
  rewrite E6; cbn [snd]. rewrite E7; cbn [snd]. auto 10.
Qed.

(** C1. For every behaviour of the stages and every extractor object,
    [extract_all] returns (it does not raise), and what it returns is the
    ordered record with exactly the four fields [metadata],
    [leveled_text], [processed_text], [cleaned_text], in this order.  The
    record is then described on the run itself, call by call ([fr k] is
    the frame after the first [k] blocks, [obj k] the extractor object
    and [text k] the text mapping in it, [tree] the tree after step 7):
    - last block: when the metadata call raises, all four fields keep
      their empty defaults; when it returns, the first three fields are
      the metadata, the tree and the text mapping, and [cleaned_text] is
      the whole text, or empty when that call raises;
    - step 2: when the flag is not set or the segmenter that it selects
      raises, the text mapping is empty, and then so are the text mapping
      after step 6 and the tree;
    - steps 3 to 6: when a call raises, the text mapping is the result of
      the call before it in the same step, and unchanged when it is the
      first call of the step (or, in step 6, when the outline is not
      set);
    - step 7: when the grouping raises the tree is empty; when
      [restructure_levels] or [resolve_and_filter_dict] raises, the tree
      is the result of the call before it. *)
Theorem extract_all_returns_record (s : Self) :
  let fr := fun k => frame_after m k s in
  let obj := fun k => self (fr k) in
  let text := fun k => structured_processed_text (fr k) in
  let tree := leveled_text (fr 7) in
  exists md t d c fr',
    extract_all m s
    = (Ok [(py "metadata", FMetadata md); (py "leveled_text", FLeveled t);
           (py "processed_text", FProcessed d); (py "cleaned_text", FCleaned c)],
       fr')
    /\ (raises (extract_metadata m) (obj 7) ->
        md = [] /\ t = [] /\ d = [] /\ c = [])
    /\ (forall md' s1, extract_metadata m (obj 7) = (Ok md', s1) ->
        md = md' /\ t = tree /\ d = text 6
        /\ (raises (extract_pdf_textand_clean m) s1 -> c = [])
        /\ (forall c' s2, extract_pdf_textand_clean m s1 = (Ok c', s2) ->
            c = c'))
    /\ (no_numbering_flag m (obj 1) = None -> text 2 = [])
    /\ (forall flag, no_numbering_flag m (obj 1) = Some flag ->
        raises (if flag then structure_raw_text_by_toc_no_numbering m
                else structure_raw_text_by_toc m) (obj 1) ->
        text 2 = [])
    /\ (text 2 = [] -> text 6 = [])
    /\ (text 6 = [] -> tree = [])
    /\ (text 2 <> [] ->
        raises (extract_sections_from_processed_text m (keys (text 2)) (text 2))
          (obj 2) ->
        text 3 = text 2)
    /\ (no_numbering_flag m (obj 3) = Some true -> text 3 <> [] ->
        (raises (process_titles m (text 3)) (obj 3) -> text 4 = text 3)
        /\ (forall d1 s1, process_titles m (text 3) (obj 3) = (Ok d1, s1) ->
            raises (refine_extracted_sections m d1) s1 -> text 4 = d1))
    /\ (text 4 <> [] ->
        (raises (normalize_keys_with_numbering m (text 4)) (obj 4) ->
         text 5 = text 4)
        /\ (forall d1 s1,
              normalize_keys_with_numbering m (text 4) (obj 4) = (Ok d1, s1) ->
              (raises (find_and_replace_numberings m d1) s1 -> text 5 = d1)
              /\ (forall d2 s2,
                    find_and_replace_numberings m d1 s1 = (Ok d2, s2) ->
                    raises (remove_title_from_text m d2) s2 -> text 5 = d2)))
    /\ (no_numbering_flag m (obj 5) = Some false -> text 5 <> [] ->
        (formatted_toc m (obj 5) = None -> text 6 = text 5)
        /\ (forall toc, formatted_toc m (obj 5) = Some toc ->
            raises (process_titles_in_one_step m (text 5) toc) (obj 5) ->
            text 6 = text 5))
    /\ (text 6 <> [] ->
        (raises (organize_by_levels_with_grouping m (text 6)) (obj 6) ->
         tree = [])
        /\ (forall t1 s1,
              organize_by_levels_with_grouping m (text 6) (obj 6) = (Ok t1, s1) ->
              (raises (restructure_levels m t1) s1 -> tree = t1)
              /\ (forall t2 s2,
                    restructure_levels m t1 s1 = (Ok t2, s2) ->
                    (raises (resolve_and_filter_dict m t2) s2 -> tree = t2)
                    /\ (forall t3 s3,
                          resolve_and_filter_dict m t2 s2 = (Ok t3, s3) ->
                          tree = t3)))).
Proof.
  intros fr obj text tree.
  destruct (step8_spec (ordered_data (fr 8)) (fr 8))
    as (fr' & E8).
  exists (data_metadata (fr 8)), (data_leveled_text (fr 8)),
    (data_processed_text (fr 8)), (data_cleaned_text (fr 8)), fr'.
  pose proof (data_untouched s 7 (le_n 7)) as (Da & Db & Dc & Dd).
  fold (fr 7) in Da, Db, Dc, Dd.
  cbn [initial data_metadata data_leveled_text data_processed_text
         data_cleaned_text] in Da, Db, Dc, Dd.
  pose proof (populate_degrades (fr 7)) as (Pa & Pb).
  change (snd (populate m (fr 7))) with (fr 8) in Pa, Pb.
  assert (T7 : structured_processed_text (fr 7) = text 6).
  { change (fr 7) with (snd (step7 m (fr 6))).
    destruct (step7_spec (fr 6)) as (fr7 & E & _ & T & _).
    rewrite E. exact T. }
  split.
  { unfold extract_all, extract_all_body.
    unfold mbind at 1. unfold try_except at 1. rewrite main_blocks_run.
    fold (fr 8). unfold mbind, read. rewrite E8. reflexivity. }
  split.
  { intros H. destruct (Pa H) as (Ha & Hb & Hc & Hd).
    repeat split; congruence. }
  split.
  { intros md' s1 H. destruct (Pb md' s1 H) as (Ha & Hb & Hc & Hd & He).
    split; [exact Ha|]. split; [exact Hb|].
    split; [rewrite Hc; exact T7|].
    split; [intros Hr; rewrite (Hd Hr); exact Dd | exact He]. }
  pose proof (step2_degrades (fr 1)) as (H2a & H2b).
  split; [exact H2a|]. split; [exact H2b|].
  split; [intros H; exact (proj1 (empty_text_stays_empty s H))|].
  split.
  { intros H. change tree with (leveled_text (snd (step7 m (fr 6)))).
    destruct (step7_spec (fr 6)) as (fr7 & E & _ & _ & S7 & _).
    rewrite E. exact (S7 H). }
  split; [exact (step3_degrades (fr 2))|].
  split; [exact (step4_degrades (fr 3))|].
  split; [exact (step5_degrades (fr 4))|].
  split; [exact (step6_degrades (fr 5))|].
  exact (step7_degrades (fr 6)).
Qed.

End Facts.
End PipelineFacts.

Lemma extract_all_returns_record_witness :
  Pipeline.structured_processed_text (Pipeline.frame_after faulty_extractor 5 tt)
  = [(py "1. Scope", py "Scope of the survey")]
  /\ exists fr',
       Pipeline.extract_all faulty_extractor tt
       = (Ok [(py "metadata", FMetadata [(py "title", py "Survey")]);
              (py "leveled_text",
               FLeveled [(py "level 1",
                          Node [(py "1. Scope",
                                 Leaf (py "Scope of the survey"))])]);
              (py "processed_text",
               FProcessed [(py "1. Scope", py "Scope of the survey")]);
              (py "cleaned_text", FCleaned [])],
          fr').
Proof.
  destruct (PipelineFacts.extract_all_returns_record unit faulty_extractor tt)
    as (md & t & d & c & fr' & E & _ & Hmeta & _ & _ & _ & _ & _ & _ & H5 & _
        & H7).
  split.
  - refine (proj1 (proj2 (H5 _) _ tt eq_refl) _).
    + vm_compute. discriminate.
    + exists ValueError, tt. reflexivity.
  - exists fr'. rewrite E.
    destruct (Hmeta [(py "title", py "Survey")] tt eq_refl)
      as (-> & -> & -> & Hc & _).
    rewrite Hc by (exists RuntimeError, tt; reflexivity).
    assert (T6 : Pipeline.structured_processed_text
                   (Pipeline.frame_after faulty_extractor 6 tt)
                 = [(py "1. Scope", py "Scope of the survey")])
      by (vm_compute; reflexivity).
    rewrite T6.
    rewrite (proj1 (proj2 (H7 ltac:(rewrite T6; discriminate))
                     [(py "level 1",
                       Node [(py "1. Scope", Leaf (py "Scope of the survey"))])]
                     tt ltac:(rewrite T6; reflexivity))
               ltac:(exists RuntimeError, tt; reflexivity)).
    reflexivity.
Defined.

(** * Further properties *)

(** ** The candidate set, token by token *)

Lemma in_range_iff (a b x : N) : In x (range a b) <-> (a <= x < b)%N.
Proof.
  unfold range. rewrite in_map_iff. split.
  - intros (k & <- & Hk). apply in_seq in Hk. lia.
  - intros H. exists (N.to_nat (x - a)). split; [lia|].
    apply in_seq. lia.
Qed.

Lemma mapM_length {A B : Type} (f : A -> Res B) (l : list A) (l' : list B) :
  mapM f l = Ok l' -> length l' = length l.
Proof.
  revert l'; induction l as [|a r IH]; intros l' H; simpl in H.
  - now injection H as <-.
  - apply bind_ok in H. destruct H as (b & _ & H).
    apply bind_ok in H. destruct H as (bs & Hbs & H).
    injection H as <-. simpl. f_equal. now apply IH.
Qed.

Lemma split_on_nonempty (c : ascii) (x : str) : split_on c x <> [].
Proof.
  induction x as [|a r IH]; simpl; [discriminate|].
  destruct (Ascii.eqb a c); [discriminate|].
  destruct (split_on c r); discriminate.
Qed.

Lemma parse_numbering_nonempty (s : str) (parts : list N) :
  parse_numbering s = Ok parts -> parts <> [].
Proof.
  unfold parse_numbering. intros H. apply mapM_length in H.
  pose proof (split_on_nonempty "."%char (strip_dots s)) as Hn.
  destruct parts; [|discriminate].
  destruct (split_on "."%char (strip_dots s)); [congruence | discriminate].
Qed.

Lemma init_last (parts : list N) :
  parts <> [] -> parts = init_parts parts ++ [last_part parts].
Proof. intros H. now apply app_removelast_last. Qed.

Lemma init_length (parts : list N) :
  parts <> [] -> S (length (init_parts parts)) = length parts.
Proof.
  intros H. rewrite (init_last parts H) at 2. rewrite length_app. cbn [length]. lia.
Qed.

Lemma generate_next_numberings_eq (s : str) (parts : list N) :
  parse_numbering s = Ok parts ->
  generate_next_numberings s
  = Ok (sorted_set str_eqb str_ltb (possibilities parts)).
Proof.
  intros Hp. unfold generate_next_numberings. rewrite Hp. reflexivity.
Qed.

Lemma candidates_are_successors (s : str) (parts : list N) (l : list str) :
  parse_numbering s = Ok parts ->
  generate_next_numberings s = Ok l ->
  forall c, In c l -> exists q, c = render_numbering q /\ successor_of parts q.
Proof.
  intros Hp Hg c Hc. pose proof (parse_numbering_nonempty s parts Hp) as Hne.
  pose proof (init_last parts Hne) as Hil.
  pose proof (init_length parts Hne) as Hlen.
  rewrite (generate_next_numberings_eq s parts Hp) in Hg.
  assert (Hc' : In c (possibilities parts)).
  { apply (in_sorted_set str_eqb str_ltb str_eqb_eq). congruence. }
  clear Hc Hg. rename Hc' into Hc.
  unfold successor_of, possibilities in *.
  repeat (apply in_app_or in Hc; destruct Hc as [Hc | Hc]).
  - destruct Hc as [<- | []]. eexists. split; [reflexivity|].
    split; [now destruct (init_parts parts)|]. split.
    + intros E. pose proof (eq_trans E Hil) as E'. apply app_inv_head in E'.
      injection E'. lia.
    + rewrite length_app. cbn [length]. lia.
  - destruct (length parts <? 4) eqn:E4; [|destruct Hc].
    apply Nat.ltb_lt in E4. apply in_flat_map in Hc.
    destruct Hc as (x & _ & [<- | Hc]).
    + eexists. split; [reflexivity|]. split; [now destruct parts|]. split.
      * intros E. apply (f_equal (@length N)) in E.
        rewrite length_app in E. simpl in E. lia.
      * rewrite length_app. cbn [length]. lia.
    + destruct (length (parts ++ [x]) <? 4) eqn:E5; [|destruct Hc].
      apply Nat.ltb_lt in E5. rewrite length_app in E5. simpl in E5.
      apply in_map_iff in Hc. destruct Hc as (y & <- & _).
      eexists. split; [reflexivity|]. split; [now destruct parts|]. split.
      * intros E. apply (f_equal (@length N)) in E.
        rewrite !length_app in E. simpl in E. lia.
      * rewrite !length_app. cbn [length]. lia.
  - apply in_flat_map in Hc. destruct Hc as (x & Hx & [<- | Hc]).
    + apply in_range_iff in Hx. eexists. split; [reflexivity|].
      split; [now destruct (init_parts parts)|]. split.
      * intros E. pose proof (eq_trans E Hil) as E'. apply app_inv_head in E'.
        injection E'. lia.
      * rewrite length_app. cbn [length]. lia.
    + destruct (length (init_parts parts ++ [x]) <? 4) eqn:E5; [|destruct Hc].
      apply Nat.ltb_lt in E5. rewrite length_app in E5. simpl in E5.
      apply in_map_iff in Hc. destruct Hc as (y & <- & _).
      eexists. split; [reflexivity|].
      split; [now destruct (init_parts parts)|]. split.
      * intros E. apply (f_equal (@length N)) in E.
        rewrite !length_app in E. simpl in E. lia.
      * rewrite !length_app. cbn [length]. lia.
  - apply in_flat_map in Hc. destruct Hc as (i & Hi & Hc).
    apply in_seq in Hi. apply in_map_iff in Hc. destruct Hc as (x & <- & Hx).
    apply in_range_iff in Hx. eexists. split; [reflexivity|].
    split; [now destruct (firstn (i + 1) parts)|].
    assert (Hf : length (firstn (i + 1) parts) = i + 1)
      by (rewrite length_firstn; lia).
    split.
    + intros E. apply (f_equal (fun l => nth (i + 1) l 0%N)) in E.
      rewrite app_nth2 in E by lia. rewrite Hf, Nat.sub_diag in E.
      simpl in E. lia.
    + rewrite length_app, Hf. cbn [length]. lia.
  - destruct Hc as [<- | []]. eexists. split; [reflexivity|].
    split; [discriminate|]. split.
    + intros E. destruct parts as [|p [|p' r]]; try discriminate.
      simpl in E. injection E. lia.
    + cbn [length]. lia.
Qed.

Lemma render_injective (q q' : list N) :
  q <> [] -> q' <> [] -> render_numbering q = render_numbering q' -> q = q'.
Proof.
  intros H H' E. apply (f_equal parse_numbering) in E.
  rewrite !parse_render in E by assumption. congruence.
Qed.

(** X1. No numbering is a candidate successor of itself: neither the
    string given to [generate_next_numberings] nor the canonical
    rendering of its token is in the candidate set, so a title that
    repeats the numbering before it is always flagged. *)
Theorem numbering_is_no_successor_of_itself (s : str) (parts : list N) :
  parse_numbering s = Ok parts ->
  exists l, generate_next_numberings s = Ok l
            /\ mem_str s l = false
            /\ mem_str (render_numbering parts) l = false.
Proof.
  intros Hp. pose proof (parse_numbering_nonempty s parts Hp) as Hne.
  assert (Hg : exists l, generate_next_numberings s = Ok l).
  { unfold generate_next_numberings. rewrite Hp. simpl. eauto. }
  destruct Hg as [l Hg]. exists l. split; [assumption|].
  split; apply not_true_is_false; intros Hm; apply mem_str_In in Hm;
    destruct (candidates_are_successors s parts l Hp Hg _ Hm)
      as (q & E & Hq & Hneq & _).
  - apply Hneq. subst s. rewrite parse_render in Hp by assumption. congruence.
  - apply Hneq. symmetry. now apply render_injective.
Qed.

Lemma numbering_is_no_successor_of_itself_witness :
  exists l, generate_next_numberings (py "1.1.") = Ok l
            /\ mem_str (py "1.1.") l = false
            /\ mem_str (py "1.1.") l = false.
Proof.
  apply (numbering_is_no_successor_of_itself (py "1.1.") [1; 1]%N).
  reflexivity.
Defined.

(** X2. Every candidate is the canonical rendering of a token that it
    parses back to, of depth at least one and at most four, or at most
    the depth of the given token when that is deeper than four. *)
Theorem candidates_are_canonical_and_shallow (s : str) (parts : list N)
  (l : list str) :
  parse_numbering s = Ok parts ->
  generate_next_numberings s = Ok l ->
  forall c, In c l -> token_depth_le c (Nat.max 4 (length parts)).
Proof.
  intros Hp Hg c Hc.
  destruct (candidates_are_successors s parts l Hp Hg c Hc)
    as (q & -> & Hq & _ & Hlen).
  exists q. split; [reflexivity|]. split; [now apply parse_render|].
  destruct q; [congruence | simpl in *; lia].
Qed.

Lemma candidates_are_canonical_and_shallow_witness :
  token_depth_le (py "1.2.3.4.") 4.
Proof.
  apply (candidates_are_canonical_and_shallow (py "1.2.3.") [1; 2; 3]%N
           (match generate_next_numberings (py "1.2.3.") with
            | Ok l => l
            | Raise _ => []
            end)).
  - reflexivity.
  - vm_compute. reflexivity.
  - vm_compute. tauto.
Defined.

(** X3. The candidate set of a token holds its next nine siblings, the
    next top-level numbering and, for a token of depth below four, its
    first nine children. *)
Theorem siblings_children_and_top_are_candidates (s : str) (parts : list N) :
  parse_numbering s = Ok parts ->
  exists l, generate_next_numberings s = Ok l
    /\ (forall k, (1 <= k <= 9)%N ->
          In (render_numbering (init_parts parts ++ [(last_part parts + k)%N])) l)
    /\ (length parts < 4 ->
        forall k, (1 <= k <= 9)%N -> In (render_numbering (parts ++ [k])) l)
    /\ In (render_numbering [(nth 0 parts 0 + 1)%N]) l.
Proof.
  intros Hp. rewrite (generate_next_numberings_eq s parts Hp).
  eexists. split; [reflexivity|]. unfold possibilities.
  split; [|split].
  - intros k Hk. apply in_sorted_set; [apply str_eqb_eq|].
    apply in_or_app. right. apply in_or_app. right. apply in_or_app. left.
    apply in_flat_map. exists (last_part parts + k)%N. split.
    + apply in_range_iff. lia.
    + now left.
  - intros Hlen k Hk. apply in_sorted_set; [apply str_eqb_eq|].
    apply in_or_app. right. apply in_or_app. left.
    apply Nat.ltb_lt in Hlen. rewrite Hlen.
    apply in_flat_map. exists k. split.
    + apply in_range_iff. lia.
    + now left.
  - apply in_sorted_set; [apply str_eqb_eq|].
    repeat (apply in_or_app; right). now left.
Qed.

Lemma siblings_children_and_top_are_candidates_witness :
  exists l, generate_next_numberings (py "2.3") = Ok l
    /\ (forall k, (1 <= k <= 9)%N ->
          In (render_numbering ([2%N] ++ [(3 + k)%N])) l)
    /\ (2 < 4 ->
        forall k, (1 <= k <= 9)%N -> In (render_numbering ([2; 3]%N ++ [k])) l)
    /\ In (render_numbering [(2 + 1)%N]) l.
Proof.
  apply (siblings_children_and_top_are_candidates (py "2.3") [2; 3]%N).
  reflexivity.
Defined.

(** ** Repair leaves a logical sequence alone *)

Lemma blank_indexes_complete :
  forall ks s n key,
    nth_error ks n = Some key ->
    isdigit (remove_char "."%char (fst (split1_space key))) = false ->
    In (s + n) (blank_indexes_from s ks).
Proof.
  induction ks as [|k r IH]; intros s n key Hn Hd; [destruct n; discriminate|].
  destruct n as [|n']; simpl in Hn.
  - injection Hn as ->. simpl. rewrite Hd, Nat.add_0_r. now left.
  - replace (s + S n') with (S s + n') by lia.
    cbn [blank_indexes_from].
    destruct (isdigit (remove_char "."%char (fst (split1_space k))));
      [|right]; now apply IH with (key := key).
Qed.

Lemma updated_key_identity (ks : list str) (idx : nat) (key : str) :
  nth_error ks idx = Some key ->
  updated_key (blank_indexes_from 0 ks) (numberings_of ks) idx key = Ok key.
Proof.
  intros Hn. unfold updated_key.
  destruct (existsb (Nat.eqb idx) (blank_indexes_from 0 ks)) eqn:Eb;
    [reflexivity|].
  unfold list_get, numberings_of. rewrite (map_nth_error _ _ _ Hn). simpl.
  unfold key_numbering. pose proof (split1_space_spec key) as Hs.
  destruct (isdigit (remove_char "."%char (fst (split1_space key)))) eqn:Ed.
  - destruct (split1_space key) as [p0 [rest|]]; simpl; now subst key.
  - exfalso. pose proof (blank_indexes_complete ks 0 idx key Hn Ed) as Hin.
    simpl in Hin. assert (existsb (Nat.eqb idx) (blank_indexes_from 0 ks) = true).
    { apply existsb_exists. exists idx. split; [assumption | apply Nat.eqb_refl]. }
    congruence.
Qed.

Lemma dict_set_fresh {V : Type} (d : dict V) (k : str) (v : V) :
  ~ In k (keys d) -> dict_set d k v = d ++ [(k, v)].
Proof.
  induction d as [|[k' v'] r IH]; simpl; intros Hn; [reflexivity|].
  destruct (str_eqb k' k) eqn:E.
  - apply str_eqb_eq in E. tauto.
  - f_equal. apply IH. tauto.
Qed.

Lemma update_dict_identity {V : Type} (bl : list nat) (rec_ : list str) :
  forall (items : list (str * V)) (idx : nat) (acc : dict V),
    (forall n key v, nth_error items n = Some (key, v) ->
                     updated_key bl rec_ (idx + n) key = Ok key) ->
    NoDup (keys (acc ++ items)) ->
    update_dict bl rec_ idx items acc = Ok (acc ++ items).
Proof.
  induction items as [|[key v] r IH]; intros idx acc Hk Hnd; simpl.
  - now rewrite app_nil_r.
  - pose proof (Hk 0 key v eq_refl) as H0. rewrite Nat.add_0_r in H0.
    rewrite H0. cbn [bind].
    assert (Hfresh : ~ In key (keys acc)).
    { unfold keys in *. rewrite map_app in Hnd. simpl in Hnd.
      apply NoDup_remove_2 in Hnd. intros Hin. apply Hnd.
      apply in_or_app. now left. }
    rewrite (dict_set_fresh acc key v Hfresh).
    rewrite IH.
    + now rewrite <- app_assoc.
    + intros n k' v' Hn. replace (S idx + n) with (idx + S n) by lia.
      now apply Hk with (v := v').
    + now rewrite <- app_assoc.
Qed.

(** X4. When the validation flags no position, for instance on the
    titles ["1. Intro"], ["1.1. Background"], ["1.3. Method"] or on a
    mapping without numbered titles, [find_and_replace_numberings]
    returns its input mapping unchanged. *)
Theorem unflagged_mapping_is_unchanged (V : Type) (data : dict V) :
  NoDup (keys data) ->
  non_logical_indexes (numberings_of (keys data)) = Ok [] ->
  find_and_replace_numberings data = Ok data.
Proof.
  intros Hnd Hfl. unfold find_and_replace_numberings. rewrite Hfl. simpl.
  apply (update_dict_identity _ _ data 0 []); [|assumption].
  intros n key v Hn. simpl. apply updated_key_identity.
  unfold keys. now rewrite (map_nth_error fst _ _ Hn).
Qed.

Lemma unflagged_mapping_is_unchanged_witness :
  find_and_replace_numberings
    [(py "1. Intro", 1); (py "Foreword", 2); (py "1.1. Background", 3);
     (py "1.3. Method", 4)]
  = Ok [(py "1. Intro", 1); (py "Foreword", 2); (py "1.1. Background", 3);
        (py "1.3. Method", 4)].
Proof.
  apply (unflagged_mapping_is_unchanged nat).
  - repeat constructor; simpl; intuition discriminate.
  - vm_compute. reflexivity.
Defined.

(** ** Unnumbered titles pass through the repair *)

Lemma digit_not_space (c : ascii) : is_digit c = true -> Ascii.eqb c " "%char = false.
Proof.
  destruct (Ascii.eqb_spec c " "%char) as [-> | _]; [|reflexivity].
  vm_compute. discriminate.
Qed.

Lemma dot_not_space (c : ascii) : is_dot c = true -> Ascii.eqb c " "%char = false.
Proof.
  unfold is_dot. intros H. apply Ascii.eqb_eq in H. now subst c.
Qed.

Lemma numbering_like_isdigit (x : str) :
  numbering_like x -> isdigit (remove_char "."%char x) = true.
Proof.
  intros [Hall Hex]. unfold isdigit, remove_char.
  assert (Hf : forallb is_digit
                 (filter (fun a => negb (Ascii.eqb a "."%char)) x) = true).
  { apply forallb_forall. intros c Hc. apply filter_In in Hc.
    destruct Hc as [Hc Hnd]. rewrite Forall_forall in Hall.
    destruct (Hall c Hc) as [Hd | Hd]; [assumption|].
    unfold is_dot in Hd. rewrite Hd in Hnd. discriminate. }
  apply Exists_exists in Hex. destruct Hex as (c & Hc & Hd).
  assert (Hin : In c (filter (fun a => negb (Ascii.eqb a "."%char)) x)).
  { apply filter_In. split; [assumption|].
    pose proof (digit_not_dot c Hd) as Hn. unfold is_dot in Hn. now rewrite Hn. }
  destruct (filter _ x); [destruct Hin | exact Hf].
Qed.

Lemma split1_space_numbering (num rest : str) :
  Forall (fun c => is_digit c = true \/ is_dot c = true) num ->
  split1_space (num ++ space ++ rest) = (num, Some rest)
  /\ split1_space num = (num, None).
Proof.
  induction 1 as [|c num Hc _ [IH1 IH2]]; simpl; [split; reflexivity|].
  assert (Hs : Ascii.eqb c " "%char = false)
    by (destruct Hc; [now apply digit_not_space | now apply dot_not_space]).
  rewrite Hs. simpl in IH1. rewrite IH1, IH2. split; reflexivity.
Qed.

Lemma numbering_like_nonblank (x : str) : numbering_like x -> nonblank x = true.
Proof.
  intros [_ Hex]. destruct x; [inversion Hex | reflexivity].
Qed.

(** The key written for a numbering keeps that numbering. *)
Lemma key_numbering_of_written (num : str) (rest : option str) :
  numbering_like num ->
  key_numbering (match rest with
                 | Some r => num ++ space ++ r
                 | None => num
                 end) = num.
Proof.
  intros Hl. pose proof (numbering_like_isdigit num Hl) as Hd.
  destruct Hl as [Hall _]. unfold key_numbering.
  destruct rest as [r|].
  - destruct (split1_space_numbering num r Hall) as [-> _]. simpl. now rewrite Hd.
  - destruct (split1_space_numbering num [] Hall) as [_ ->]. simpl. now rewrite Hd.
Qed.

Lemma key_numbering_like (key : str) :
  key_numbering key = [] \/ numbering_like (key_numbering key).
Proof.
  unfold key_numbering.
  destruct (isdigit (remove_char "."%char (fst (split1_space key)))) eqn:Ed;
    [right | now left].
  set (p0 := fst (split1_space key)) in *. unfold isdigit, remove_char in Ed.
  destruct (filter (fun a => negb (Ascii.eqb a "."%char)) p0) as [|c f] eqn:Ef;
    [discriminate|].
  split.
  - apply Forall_forall. intros a Ha.
    destruct (Ascii.eqb a "."%char) eqn:Ea; [right; exact Ea | left].
    rewrite forallb_forall in Ed. apply Ed. rewrite <- Ef.
    apply filter_In. split; [assumption|]. now rewrite Ea.
  - apply Exists_exists. exists c.
    assert (Hin : In c (filter (fun a => negb (Ascii.eqb a "."%char)) p0))
      by (rewrite Ef; now left).
    apply filter_In in Hin. split; [tauto|].
    rewrite forallb_forall in Ed. apply Ed. now left.
Qed.

Lemma join_digits_dots (l : list N) :
  Forall (fun c => is_digit c = true \/ is_dot c = true)
    (join dot (map str_of_N l)).
Proof.
  induction l as [|n r IH]; [constructor|].
  assert (Hn : Forall (fun c => is_digit c = true \/ is_dot c = true) (str_of_N n)).
  { eapply Forall_impl; [|apply str_of_N_digits]. intros c Hc. now left. }
  destruct r as [|m r']; [exact Hn|].
  change (join dot (map str_of_N (n :: m :: r')))
    with (str_of_N n ++ dot ++ join dot (map str_of_N (m :: r'))).
  apply Forall_app. split; [exact Hn|].
  apply Forall_app. split; [|exact IH].
  constructor; [now right | constructor].
Qed.

Lemma render_numbering_like (q : list N) :
  q <> [] -> numbering_like (render_numbering q).
Proof.
  intros Hq. unfold render_numbering. split.
  - apply Forall_app. split; [apply join_digits_dots|].
    constructor; [now right | constructor].
  - destruct (join_head_digit q Hq) as (c & t & E & Hc). rewrite E.
    simpl. now apply Exists_cons_hd.
Qed.

Lemma list_assign_forall {A : Type} (P : A -> Prop) (v : A) :
  forall l i l', P v -> Forall P l -> list_assign l i v = Ok l' -> Forall P l'.
Proof.
  induction l as [|a r IH]; intros i l' Hv Hall H; simpl in H; [discriminate|].
  inversion Hall; subst. destruct i as [|i'].
  - injection H as <-. now constructor.
  - apply bind_ok in H. destruct H as (r' & Hr & H). injection H as <-.
    constructor; [assumption|]. now apply IH with (i := i').
Qed.

Lemma reconstruct_one_like (l : list str) (idx : nat) (l' : list str) :
  all_numbering_like l -> reconstruct_one l idx = Ok l' -> all_numbering_like l'.
Proof.
  unfold reconstruct_one, all_numbering_like. intros Hall H.
  destruct (List.find nonblank (rev (firstn idx l))); [|now injection H as <-].
  destruct (List.find nonblank (skipn (idx + 1) l)); [|now injection H as <-].
  apply bind_ok in H. destruct H as (pp & _ & H).
  apply bind_ok in H. destruct H as (np & _ & H).
  assert (Hgen : forall q, q <> [] ->
            list_assign l idx (render_numbering q) = Ok l' ->
            Forall (fun x => x = [] \/ numbering_like x) l').
  { intros q Hq Hq'. eapply list_assign_forall; [| exact Hall | exact Hq'].
    right. now apply render_numbering_like. }
  assert (Hne : forall (a : list N) (b : N), a ++ [b] <> []).
  { intros a b E. apply app_eq_nil in E. destruct E. discriminate. }
  destruct (_ && _).
  - destruct (length pp <? 4); (eapply Hgen; [|exact H]); apply Hne.
  - destruct (_ && _); (eapply Hgen; [|exact H]); apply Hne.
Qed.

Lemma reconstruct_like (idxs : list nat) :
  forall l l', all_numbering_like l -> reconstruct l idxs = Ok l' ->
               all_numbering_like l'.
Proof.
  induction idxs as [|i more IH]; intros l l' Hall H; simpl in H.
  - now injection H as <-.
  - apply bind_ok in H. destruct H as (l1 & H1 & H).
    eapply IH; [|exact H]. now apply reconstruct_one_like with (l := l) (idx := i).
Qed.

Lemma update_dict_get {V : Type} (bl : list nat) (rec_ : list str)
  (key : str) (v : V) :
  forall (items : list (str * V)) (idx : nat) (acc out : dict V),
    update_dict bl rec_ idx items acc = Ok out ->
    (forall n k' v',
       nth_error items n = Some (k', v') ->
       updated_key bl rec_ (idx + n) k' = Ok key -> k' = key /\ v' = v) ->
    (forall n v', nth_error items n = Some (key, v') ->
                  updated_key bl rec_ (idx + n) key = Ok key) ->
    (exists n, nth_error items n = Some (key, v)) \/ dict_get acc key = Some v ->
    dict_get out key = Some v.
Proof.
  induction items as [|[k' v'] r IH]; intros idx acc out H Hw Hown Hin;
    simpl in H.
  - injection H as <-. destruct Hin as [[n Hn] | Hg]; [destruct n; discriminate|].
    exact Hg.
  - apply bind_ok in H. destruct H as (w & Hwk & H).
    eapply IH; [exact H | | |].
    + intros n k2 v2 Hn Hk. replace (S idx + n) with (idx + S n) in Hk by lia.
      now apply (Hw (S n) k2 v2).
    + intros n v2 Hn. replace (S idx + n) with (idx + S n) by lia.
      now apply (Hown (S n) v2).
    + destruct (str_eq_dec w key) as [-> | Hne].
      * right. destruct (Hw 0 k' v' eq_refl) as [_ ->];
          [now rewrite Nat.add_0_r|].
        apply dict_get_set_same.
      * destruct Hin as [[[|n] Hn] | Hg].
        -- simpl in Hn. injection Hn as -> ->. exfalso. apply Hne.
           pose proof (Hown 0 v eq_refl) as Ho. rewrite Nat.add_0_r in Ho.
           congruence.
        -- left. now exists n.
        -- right. now rewrite dict_get_set_other.
Qed.

Lemma numberings_like (ks : list str) : all_numbering_like (numberings_of ks).
Proof.
  unfold all_numbering_like, numberings_of. apply Forall_forall.
  intros x Hx. apply in_map_iff in Hx. destruct Hx as (k & <- & _).
  apply key_numbering_like.
Qed.

(** X5. Titles without numbering pass through the repair untouched:
    such a key of the input is a key of the output, with the same value,
    whatever is repaired around it. *)
Theorem unnumbered_titles_pass_through (V : Type) (data out : dict V)
  (key : str) (v : V) :
  NoDup (keys data) ->
  find_and_replace_numberings data = Ok out ->
  In (key, v) data ->
  key_numbering key = [] ->
  dict_get out key = Some v.
Proof.
  intros Hnd H Hin Hblank. unfold find_and_replace_numberings in H.
  set (nums := numberings_of (keys data)) in *.
  apply bind_ok in H. destruct H as (flagged & Hfl & H).
  apply bind_ok in H. destruct H as (rec_ & Hrec & H).
  pose proof (non_logical_indexes_nonblank _ _ Hfl) as Hnb.
  destruct (reconstruct_spec flagged nums rec_) as (Hlen & Hsame & _);
    [intros j Hj; now apply Hnb | assumption |].
  pose proof (reconstruct_like flagged nums rec_ (numberings_like _) Hrec) as Hlike.
  assert (Hd : isdigit (remove_char "."%char (fst (split1_space key))) = false).
  { unfold key_numbering in Hblank.
    destruct (isdigit (remove_char "."%char (fst (split1_space key)))) eqn:E;
      [|reflexivity].
    unfold isdigit in E. rewrite Hblank in E. discriminate. }
  eapply update_dict_get; [exact H | | |].
  - intros n k' v' Hn Hk. simpl in Hk.
    assert (Hkn : nth_error (keys data) n = Some k')
      by (unfold keys; now rewrite (map_nth_error fst _ _ Hn)).
    unfold updated_key in Hk.
    destruct (existsb (Nat.eqb n) (blank_indexes_from 0 (keys data))) eqn:Eb.
    + injection Hk as ->. split; [reflexivity|].
      apply nth_error_In in Hn.
      now apply (in_keys_unique data key v' v Hnd).
    + exfalso. apply bind_ok in Hk. destruct Hk as (num & Hnum & Hk).
      unfold list_get in Hnum.
      destruct (nth_error rec_ n) as [x|] eqn:Ex; [|discriminate].
      simpl in Hnum. injection Hnum as ->.
      assert (Hnonblank : nonblank num = true).
      { assert (Hx : nth n rec_ [] = num) by now apply nth_error_nth.
        rewrite <- Hx, Hsame. unfold nums, numberings_of.
        rewrite (nth_error_nth _ _ _ (map_nth_error key_numbering _ _ Hkn)).
        unfold key_numbering.
        destruct (isdigit (remove_char "."%char (fst (split1_space k')))) eqn:Ed.
        - unfold nonblank. destruct (fst (split1_space k')); [discriminate|].
          reflexivity.
        - pose proof (blank_indexes_complete (keys data) 0 n k' Hkn Ed) as Hb.
          simpl in Hb.
          assert (existsb (Nat.eqb n) (blank_indexes_from 0 (keys data)) = true).
          { apply existsb_exists. exists n. split; [assumption|].
            apply Nat.eqb_refl. }
          congruence. }
      assert (Hl : numbering_like num).
      { unfold all_numbering_like in Hlike. rewrite Forall_forall in Hlike.
        destruct (Hlike num (nth_error_In _ _ Ex)) as [-> | Hl];
          [discriminate | exact Hl]. }
      pose proof (key_numbering_of_written num (snd (split1_space k')) Hl) as Hw.
      assert (Hkey : key = match snd (split1_space k') with
                           | Some r => num ++ space ++ r
                           | None => num
                           end).
      { destruct (snd (split1_space k')); now injection Hk as <-. }
      rewrite <- Hkey, Hblank in Hw. subst num. discriminate.
  - intros n v' Hn. simpl. unfold updated_key.
    assert (Hkn : nth_error (keys data) n = Some key)
      by (unfold keys; now rewrite (map_nth_error fst _ _ Hn)).
    pose proof (blank_indexes_complete (keys data) 0 n key Hkn Hd) as Hb.
    simpl in Hb.
    assert (E : existsb (Nat.eqb n) (blank_indexes_from 0 (keys data)) = true).
    { apply existsb_exists. exists n. split; [assumption | apply Nat.eqb_refl]. }
    now rewrite E.
  - left. apply In_nth_error in Hin. exact Hin.
Qed.

Lemma unnumbered_titles_pass_through_witness :
  dict_get
    [(py "1. Intro", 1); (py "1.1. Background", 2); (py "1.2. Oops", 3);
     (py "Annex", 4); (py "1.3. Next", 5)]
    (py "Annex") = Some 4.
Proof.
  apply (unnumbered_titles_pass_through nat
           [(py "1. Intro", 1); (py "1.1. Background", 2); (py "2.1. Oops", 3);
            (py "Annex", 4); (py "1.3. Next", 5)]).
  - repeat constructor; simpl; intuition discriminate.
  - vm_compute. reflexivity.
  - simpl. tauto.
  - vm_compute. reflexivity.
Defined.

(** ** Parts and suffixes of a text *)

Lemma part_of_refl (x : str) : part_of x x.
Proof. exists [], []. now rewrite app_nil_r. Qed.

Lemma part_of_nil (x : str) : part_of [] x.
Proof. exists [], x. reflexivity. Qed.

Lemma part_of_trans (a b c : str) : part_of a b -> part_of b c -> part_of a c.
Proof.
  intros (p1 & q1 & ->) (p2 & q2 & ->). exists (p2 ++ p1), (q1 ++ q2).
  now rewrite <- !app_assoc.
Qed.

Lemma part_of_nil_inv (b : str) : part_of b [] -> b = [].
Proof.
  intros (pre & post & E). symmetry in E. apply app_eq_nil in E.
  destruct E as [_ E]. apply app_eq_nil in E. tauto.
Qed.

Lemma suffix_part (b t : str) : suffix_of b t -> part_of b t.
Proof. intros (pre & ->). exists pre, []. now rewrite app_nil_r. Qed.

Lemma suffix_of_refl (x : str) : suffix_of x x.
Proof. now exists []. Qed.

Lemma suffix_of_trans (a b c : str) :
  suffix_of a b -> suffix_of b c -> suffix_of a c.
Proof.
  intros (p1 & ->) (p2 & ->). exists (p2 ++ p1). now rewrite app_assoc.
Qed.

Lemma skipn_suffix (n : nat) (x : str) : suffix_of (skipn n x) x.
Proof. exists (firstn n x). symmetry. apply firstn_skipn. Qed.

Lemma firstn_part (n : nat) (x : str) : part_of (firstn n x) x.
Proof. exists [], (skipn n x). symmetry. apply firstn_skipn. Qed.

Lemma drop_while_suffix (f : ascii -> bool) (x : str) :
  suffix_of (drop_while f x) x.
Proof.
  induction x as [|a r IH]; simpl; [apply suffix_of_refl|].
  destruct (f a); [|apply suffix_of_refl].
  destruct IH as (pre & E). exists (a :: pre). simpl. now f_equal.
Qed.

Lemma rstrip_by_part (f : ascii -> bool) (x : str) : part_of (rstrip_by f x) x.
Proof.
  unfold rstrip_by. destruct (drop_while_suffix f (rev x)) as (pre & E).
  exists [], (rev pre). simpl.
  rewrite <- rev_app_distr, <- E. symmetry. apply rev_involutive.
Qed.

Lemma strip_by_part (f : ascii -> bool) (x : str) : part_of (strip_by f x) x.
Proof.
  unfold strip_by, lstrip_by.
  eapply part_of_trans; [apply rstrip_by_part|].
  apply suffix_part, drop_while_suffix.
Qed.

Lemma strip_part (x : str) : part_of (strip x) x.
Proof. apply strip_by_part. Qed.

Lemma slice_part (x : str) (a b : Z) : part_of (slice x a b) x.
Proof.
  unfold slice. eapply part_of_trans; [apply firstn_part|].
  apply suffix_part, skipn_suffix.
Qed.

Lemma slice_from_suffix (x : str) (a : Z) : suffix_of (slice_from x a) x.
Proof. apply skipn_suffix. Qed.

(** ** The boundary refiner only cuts *)

Lemma section_text_of_part (title : str) (next : option str) (text s : str) :
  section_text_of title next text = Ok s -> part_of s text.
Proof.
  unfold section_text_of. intros H.
  apply bind_ok in H. destruct H as (k & _ & H). destruct next as [nt|].
  - apply bind_ok in H. destruct H as (k' & _ & H).
    apply bind_ok in H. destruct H as (i & _ & H).
    destruct (negb _); injection H as <-; [|apply part_of_refl].
    eapply part_of_trans; [apply strip_part | apply slice_part].
  - destruct (negb _); injection H as <-; [|apply part_of_refl].
    eapply part_of_trans; [apply strip_part|].
    apply suffix_part, slice_from_suffix.
Qed.

Lemma extract_sections_loop_part (processed_text : dict str) (title : str) :
  forall titles acc out,
    extract_sections_loop titles processed_text acc = Ok out ->
    In title titles
    \/ (exists b, dict_get acc title = Some b
                  /\ part_of b (dict_get_default processed_text title [])) ->
    exists b, dict_get out title = Some b
              /\ part_of b (dict_get_default processed_text title []).
Proof.
  induction titles as [|t rest IH]; intros acc out H Hin; simpl in H.
  - injection H as <-. destruct Hin as [[] | Hin]. exact Hin.
  - apply bind_ok in H. destruct H as (k & _ & H).
    assert (Hstep : forall v,
      (t = title -> part_of v (dict_get_default processed_text title [])) ->
      extract_sections_loop rest processed_text (dict_set acc t v) = Ok out ->
      exists b, dict_get out title = Some b
                /\ part_of b (dict_get_default processed_text title [])).
    { intros v Hv Hl. eapply IH; [exact Hl|].
      destruct (str_eq_dec t title) as [-> | Hne].
      - right. exists v. split; [apply dict_get_set_same | now apply Hv].
      - destruct Hin as [[E | Hin] | Hg]; [congruence | now left | right].
        now rewrite dict_get_set_other. }
    destruct (dict_get_default processed_text t []) as [|c text'] eqn:Et.
    + apply (Hstep [] (fun _ => part_of_nil _) H).
    + apply bind_ok in H. destruct H as (s & Hs & H).
      apply (Hstep s); [|exact H].
      intros ->. rewrite Et. now apply section_text_of_part in Hs.
Qed.

(** X6. The boundary refiner gives every title of its list an entry, and
    the refined body is always a contiguous part of the body it was
    given for that title; a title that has no body, or an empty one, gets
    the empty string. *)
Theorem refined_body_is_part_of_body (titles : list str)
  (processed_text : dict str) (title : str) :
  In title titles ->
  exists out body,
    extract_sections_from_processed_text titles processed_text = Ok out
    /\ dict_get out title = Some body
    /\ part_of body (dict_get_default processed_text title [])
    /\ (dict_get processed_text title = None -> body = []).
Proof.
  intros Hin. unfold extract_sections_from_processed_text.
  destruct (extract_sections_loop_total processed_text titles []) as [out Hout].
  rewrite Hout.
  destruct (extract_sections_loop_part processed_text title titles [] out Hout
              (or_introl Hin)) as (b & Hb & Hp).
  exists out, b. repeat split; try assumption.
  intros Hnone. unfold dict_get_default in Hp. rewrite Hnone in Hp.
  now apply part_of_nil_inv.
Qed.

Lemma refined_body_is_part_of_body_witness :
  exists out body,
    extract_sections_from_processed_text
      [py "1. Scope"; py "2. Methods"]
      [(py "1. Scope", py "head Scope of the survey Methods used")] = Ok out
    /\ dict_get out (py "2. Methods") = Some body
    /\ part_of body
         (dict_get_default
            [(py "1. Scope", py "head Scope of the survey Methods used")]
            (py "2. Methods") [])
    /\ (dict_get [(py "1. Scope", py "head Scope of the survey Methods used")]
          (py "2. Methods") = None -> body = []).
Proof.
  apply (refined_body_is_part_of_body [py "1. Scope"; py "2. Methods"]).
  simpl. tauto.
Defined.

(** ** [refine_extracted_sections] only cuts *)

Lemma refine_section_part (title text t : str) :
  refine_section title text = Ok t -> part_of t text.
Proof.
  unfold refine_section. intros H.
  apply bind_ok in H. destruct H as (st & _ & H).
  apply bind_ok in H. destruct H as (sx & _ & H).
  apply bind_ok in H. destruct H as (np & _ & H).
  assert (H1 : part_of (without_title title text) text).
  { unfold without_title. destruct (startswith text title); [|apply part_of_refl].
    eapply part_of_trans; [apply strip_part|].
    apply suffix_part, slice_from_suffix. }
  assert (H2 : part_of (if length sx <=? 50 then [] else without_title title text)
                 text).
  { destruct (length sx <=? 50); [apply part_of_nil | exact H1]. }
  destruct (re_match false np title) as [m|]; [|now injection H as <-].
  apply bind_ok in H. destruct H as (numbering & _ & H).
  destruct (startswith _ _); injection H as <-; [|exact H2].
  eapply part_of_trans; [apply strip_part|].
  eapply part_of_trans; [apply suffix_part, slice_from_suffix | exact H2].
Qed.

Lemma refine_loop_keys :
  forall items acc out,
    refine_loop items acc = Ok out ->
    NoDup (keys acc ++ keys items) ->
    keys out = keys acc ++ keys items.
Proof.
  induction items as [|[title text] more IH]; intros acc out H Hnd; simpl in H.
  - injection H as <-. simpl. now rewrite app_nil_r.
  - apply bind_ok in H. destruct H as (t & _ & H).
    simpl in Hnd. pose proof (NoDup_remove_2 _ _ _ Hnd) as Hfresh.
    rewrite dict_set_fresh in H
      by (intros Hin; apply Hfresh, in_or_app; now left).
    apply IH in H.
    + rewrite H. unfold keys. rewrite map_app. simpl. now rewrite <- app_assoc.
    + unfold keys in *. rewrite map_app. simpl. now rewrite <- app_assoc.
Qed.

Lemma refine_loop_part (title text : str) :
  forall items acc out,
    refine_loop items acc = Ok out ->
    (forall text', In (title, text') items -> text' = text) ->
    In title (keys items)
    \/ (exists b, dict_get acc title = Some b /\ part_of b text) ->
    exists b, dict_get out title = Some b /\ part_of b text.
Proof.
  induction items as [|[t x] more IH]; intros acc out H Hu Hin; simpl in H.
  - injection H as <-. destruct Hin as [[] | Hin]. exact Hin.
  - apply bind_ok in H. destruct H as (tx & Htx & H).
    eapply IH; [exact H | |].
    + intros text' Ht. apply Hu. now right.
    + destruct (str_eq_dec t title) as [-> | Hne].
      * right. exists tx. split; [apply dict_get_set_same|].
        rewrite <- (Hu x (or_introl eq_refl)).
        now apply refine_section_part with (title := title).
      * destruct Hin as [[E | Hin] | Hg];
          [simpl in E; congruence | now left | right].
        now rewrite dict_get_set_other.
Qed.

(** X7. [refine_extracted_sections] always returns, keeps the keys of
    its input in their order, and each refined text is a contiguous part
    of the text it was given (possibly the empty one): it removes, it
    never adds. *)
Theorem refinement_keeps_keys_and_only_cuts (extracted_sections : dict str) :
  NoDup (keys extracted_sections) ->
  exists out,
    refine_extracted_sections extracted_sections = Ok out
    /\ keys out = keys extracted_sections
    /\ forall title text,
         In (title, text) extracted_sections ->
         exists body, dict_get out title = Some body /\ part_of body text.
Proof.
  intros Hnd. unfold refine_extracted_sections.
  destruct (refine_loop_total extracted_sections []) as [out Hout].
  rewrite Hout. exists out. split; [reflexivity|]. split.
  - now apply (refine_loop_keys extracted_sections [] out Hout).
  - intros title text Hin.
    eapply refine_loop_part; [exact Hout | |].
    + intros text' Hin'.
      now apply (in_keys_unique extracted_sections title text' text Hnd).
    + left. apply in_map_iff. now exists (title, text).
Qed.

Lemma refinement_keeps_keys_and_only_cuts_witness :
  exists out,
    refine_extracted_sections
      [(py "1. Scope", py "1. Scope 2.1 see annex 3"); (py "Annex", py "Annex tables")]
    = Ok out
    /\ keys out = [py "1. Scope"; py "Annex"]
    /\ forall title text,
         In (title, text)
           [(py "1. Scope", py "1. Scope 2.1 see annex 3");
            (py "Annex", py "Annex tables")] ->
         exists body, dict_get out title = Some body /\ part_of body text.
Proof.
  apply (refinement_keeps_keys_and_only_cuts
           [(py "1. Scope", py "1. Scope 2.1 see annex 3");
            (py "Annex", py "Annex tables")]).
  repeat constructor; simpl; intuition discriminate.
Defined.

(** ** [remove_title_from_text] *)

Lemma compile_numbering_prefix :
  exists r, compile (py "^\d+(\.\d+)*\.\s*") = Ok r.
Proof. eexists; vm_compute; reflexivity. Qed.

Lemma remove_numbering_total (title : str) :
  exists clean, remove_numbering title = Ok clean.
Proof.
  unfold remove_numbering. destruct compile_numbering_prefix as [r ->].
  simpl. eauto.
Qed.

Lemma after_first_suffix (title : str) :
  forall text rest, after_first text title = Some rest -> suffix_of rest text.
Proof.
  induction text as [|a r IH]; intros rest H; cbn [after_first] in H.
  - destruct (startswith [] title); [|discriminate].
    injection H as <-. apply skipn_suffix.
  - destruct (startswith (a :: r) title).
    + injection H as <-. apply skipn_suffix.
    + apply IH in H. destruct H as (pre & ->). now exists (a :: pre).
Qed.

Lemma after_first_none (title : str) :
  forall text i, (0 <= i)%Z ->
    find_at title text i = (-1)%Z -> after_first text title = None.
Proof.
  induction text as [|a r IH]; intros i Hi H;
    cbn [after_first find_at] in *.
  - destruct (startswith [] title); [lia | reflexivity].
  - destruct (startswith (a :: r) title); [lia|].
    apply (IH (i + 1)%Z); [lia | exact H].
Qed.

Lemma find_and_remove_suffix (text title : str) :
  suffix_of (find_and_remove text title) text.
Proof.
  unfold find_and_remove. destruct (after_first text title) as [rest|] eqn:E;
    [|apply suffix_of_refl].
  eapply suffix_of_trans; [apply drop_while_suffix|].
  now apply after_first_suffix with (title := title).
Qed.

Lemma find_and_remove_not_found (text title : str) :
  str_find text title = (-1)%Z -> find_and_remove text title = text.
Proof.
  unfold str_find, str_find_from, find_and_remove. simpl.
  replace (zlen text <? 0)%Z with false
    by (symmetry; apply Z.ltb_ge; unfold zlen; lia).
  intros H. now rewrite (after_first_none title text 0%Z (Z.le_refl 0) H).
Qed.

Lemma remove_title_loop_total :
  forall items acc, exists out, remove_title_loop items acc = Ok out.
Proof.
  induction items as [|[title text] more IH]; intros acc;
    cbn [remove_title_loop]; [eauto|].
  destruct (remove_numbering_total title) as [c ->]. cbn [bind]. apply IH.
Qed.

Lemma remove_title_loop_keys :
  forall items acc out,
    remove_title_loop items acc = Ok out ->
    NoDup (keys acc ++ keys items) ->
    keys out = keys acc ++ keys items.
Proof.
  induction items as [|[title text] more IH]; intros acc out H Hnd;
    cbn [remove_title_loop] in H.
  - injection H as <-. simpl. now rewrite app_nil_r.
  - apply bind_ok in H. destruct H as (t & _ & H).
    simpl in Hnd. pose proof (NoDup_remove_2 _ _ _ Hnd) as Hfresh.
    rewrite dict_set_fresh in H
      by (intros Hin; apply Hfresh, in_or_app; now left).
    apply IH in H.
    + rewrite H. unfold keys. rewrite map_app. simpl. now rewrite <- app_assoc.
    + unfold keys in *. rewrite map_app. simpl. now rewrite <- app_assoc.
Qed.

Lemma remove_title_loop_get (title text clean : str) :
  remove_numbering title = Ok clean ->
  forall items acc out,
    remove_title_loop items acc = Ok out ->
    (forall text', In (title, text') items -> text' = text) ->
    In title (keys items)
    \/ dict_get acc title = Some (find_and_remove text clean) ->
    dict_get out title = Some (find_and_remove text clean).
Proof.
  intros Hc. induction items as [|[t x] more IH]; intros acc out H Hu Hin;
    cbn [remove_title_loop] in H.
  - injection H as <-. destruct Hin as [[] | Hin]. exact Hin.
  - apply bind_ok in H. destruct H as (c & Hcx & H).
    eapply IH; [exact H | |].
    + intros text' Ht. apply Hu. now right.
    + destruct (str_eq_dec t title) as [-> | Hne].
      * right. rewrite Hc in Hcx. injection Hcx as <-.
        rewrite (Hu x (or_introl eq_refl)). apply dict_get_set_same.
      * destruct Hin as [[E | Hin] | Hg];
          [simpl in E; congruence | now left | right].
        now rewrite dict_get_set_other.
Qed.

(** X8. [remove_title_from_text] always returns and keeps the keys of
    its input in their order; each new text is what the old text ends
    with (nothing is added), and it is the old text itself when the title
    without its numbering does not occur in it. *)
Theorem title_removal_keeps_a_suffix (input_dict : dict str) :
  NoDup (keys input_dict) ->
  exists out,
    remove_title_from_text input_dict = Ok out
    /\ keys out = keys input_dict
    /\ forall title text,
         In (title, text) input_dict ->
         exists clean_title body,
           remove_numbering title = Ok clean_title
           /\ dict_get out title = Some body
           /\ suffix_of body text
           /\ (str_find text clean_title = (-1)%Z -> body = text).
Proof.
  intros Hnd. unfold remove_title_from_text.
  destruct (remove_title_loop_total input_dict []) as [out Hout].
  exists out. split; [assumption|]. split.
  - now apply (remove_title_loop_keys input_dict [] out Hout).
  - intros title text Hin.
    destruct (remove_numbering_total title) as [clean Hc].
    exists clean, (find_and_remove text clean).
    split; [assumption|]. split; [|split].
    + eapply remove_title_loop_get; [exact Hc | exact Hout | |].
      * intros text' Hin'.
        now apply (in_keys_unique input_dict title text' text Hnd).
      * left. apply in_map_iff. now exists (title, text).
    + apply find_and_remove_suffix.
    + apply find_and_remove_not_found.
Qed.

Lemma title_removal_keeps_a_suffix_witness :
  exists out,
    remove_title_from_text
      [(py "1. Intro", py "head 1. Intro   body text");
       (py "Annex", py "no title here")] = Ok out
    /\ keys out = [py "1. Intro"; py "Annex"]
    /\ forall title text,
         In (title, text)
           [(py "1. Intro", py "head 1. Intro   body text");
            (py "Annex", py "no title here")] ->
         exists clean_title body,
           remove_numbering title = Ok clean_title
           /\ dict_get out title = Some body
           /\ suffix_of body text
           /\ (str_find text clean_title = (-1)%Z -> body = text).
Proof.
  apply (title_removal_keeps_a_suffix
           [(py "1. Intro", py "head 1. Intro   body text");
            (py "Annex", py "no title here")]).
  repeat constructor; simpl; intuition discriminate.
Defined.

(** ** [process_titles_in_one_step] *)

Lemma fold_dict_set_bounds {V : Type} :
  forall (items : list (str * V)) (acc : dict V),
    let out := fold_left (fun d kv => dict_set d (fst kv) (snd kv)) items acc in
    length out <= length acc + length items
    /\ forall k v, In (k, v) out -> In (k, v) acc \/ In (k, v) items.
Proof.
  assert (Hset : forall (d : dict V) k v,
            length (dict_set d k v) <= S (length d)
            /\ forall k' v', In (k', v') (dict_set d k v) ->
                             In (k', v') d \/ (k', v') = (k, v)).
  { induction d as [|[k0 v0] r IH]; intros k v; simpl.
    - split; [lia|]. intros k' v' [E | []]. right. now symmetry.
    - destruct (IH k v) as [Hl Hi]. destruct (str_eqb k0 k) eqn:E; simpl.
      + split; [lia|]. intros k' v' [E' | Hin]; [|tauto].
        right. apply str_eqb_eq in E. congruence.
      + split; [lia|]. intros k' v' [E' | Hin]; [tauto|].
        destruct (Hi k' v' Hin); tauto. }
  induction items as [|[k v] r IH]; intros acc; simpl.
  - split; [lia | tauto].
  - destruct (IH (dict_set acc k v)) as [Hl Hi]. destruct (Hset acc k v) as [Hl' Hi'].
    split; [lia|]. intros k' v' Hin.
    destruct (Hi k' v' Hin) as [H1 | H1]; [|tauto].
    destruct (Hi' k' v' H1); [tauto | right; left; now symmetry].
Qed.

(** ** What a match needs and what it records *)

Lemma caps_extend_refl (st : mstate) : caps_extend st st.
Proof. now exists []. Qed.

Lemma caps_extend_trans (a b c : mstate) :
  caps_extend a b -> caps_extend b c -> caps_extend a c.
Proof.
  intros [l1 H1] [l2 H2]. exists (l2 ++ l1). now rewrite H2, H1, app_assoc.
Qed.

Lemma has_cap_extend (n : nat) (st st' : mstate) :
  caps_extend st st' -> has_cap n st = true -> has_cap n st' = true.
Proof.
  intros [l H] Hs. unfold has_cap in *. rewrite H. clear H.
  induction l as [|[m span] l IH]; [exact Hs|].
  cbn [app lookup_cap]. destruct (m =? n); [reflexivity | exact IH].
Qed.

Lemma re_run_needs_digit :
  forall r ic st k,
    needs_digit r = true -> no_leading_digit (m_rest st) = true ->
    re_run ic r st k = None.
Proof.
  induction r as [|c|r1 IH1 r2 IH2|r1 IH1 r2 IH2|r1 IH1 lo hi greedy|g r1 IH1| |];
    intros ic st k H Hd; try discriminate.
  - cbn [re_run]. destruct (m_rest st) as [|a rest]; [reflexivity|].
    destruct c as [|[]|]; try discriminate. destruct negated; try discriminate.
    simpl in Hd |- *. apply negb_true_iff in Hd. now rewrite Hd.
  - assert (Hc : needs_digit r1 = true \/ (r1 = RBol /\ needs_digit r2 = true))
      by (destruct r1; simpl in H; auto).
    cbn [re_run]. destruct Hc as [Hc | [-> Hc]].
    + now apply IH1.
    + cbn [re_run]. destruct (m_pos st =? 0); [now apply IH2 | reflexivity].
  - simpl in H. apply andb_true_iff in H. destruct H as [Ha Hb].
    cbn [re_run]. now rewrite IH1, IH2.
  - simpl in H. apply andb_true_iff in H. destruct H as [Ha Hb].
    destruct lo as [|lo]; [discriminate|].
    cbn [re_run].
    replace (2 * length (m_rest st) + S lo + 2)
      with (S (2 * length (m_rest st) + lo + 2)) by lia.
    rewrite (IH1 ic st _ Hb Hd).
    destruct greedy, (allowed 0 hi); reflexivity.
  - cbn [re_run]. now apply IH1.
Qed.

Lemma re_match_needs_digit (ic : bool) (r : regex) (x : str) :
  needs_digit r = true -> no_leading_digit x = true -> re_match ic r x = None.
Proof.
  intros H Hd. unfold re_match, match_at.
  now rewrite re_run_needs_digit.
Qed.

Lemma re_run_inv (n : nat) :
  forall r ic st k res,
    re_run ic r st k = Some res ->
    exists st', k st' = Some res /\ caps_extend st st'
                /\ (sets_cap n r = true -> has_cap n st' = true).
Proof.
  induction r as [|c|r1 IH1 r2 IH2|r1 IH1 r2 IH2|r1 IH1 lo hi greedy|g r1 IH1| |];
    intros ic st k res H; cbn [re_run] in H.
  - exists st. repeat split; [assumption | apply caps_extend_refl | discriminate].
  - destruct (m_rest st) as [|a rest]; [discriminate|].
    destruct (class_matches ic c a); [|discriminate].
    eexists. split; [exact H|]. split; [now exists [] | discriminate].
  - apply IH1 in H. destruct H as (st1 & H & E1 & S1).
    apply IH2 in H. destruct H as (st2 & H & E2 & S2).
    exists st2. split; [assumption|]. split; [eapply caps_extend_trans; eauto|].
    simpl. intros Hs. apply orb_true_iff in Hs. destruct Hs as [Hs | Hs].
    + eapply has_cap_extend; eauto.
    + auto.
  - destruct (re_run ic r1 st k) eqn:E.
    + injection H as <-. apply IH1 in E. destruct E as (st1 & H & E1 & S1).
      exists st1. repeat split; auto. simpl. intros Hs.
      apply andb_true_iff in Hs. tauto.
    + apply IH2 in H. destruct H as (st1 & H & E1 & S1).
      exists st1. repeat split; auto. simpl. intros Hs.
      apply andb_true_iff in Hs. tauto.
  - match type of H with
    | ?F _ _ _ _ = _ =>
        enough (HF : forall fuel count last st0,
                   (1 <= count -> sets_cap n r1 = true ->
                    has_cap n st0 = true) ->
                   F fuel count last st0 = Some res ->
                   exists st', k st' = Some res /\ caps_extend st0 st'
                     /\ ((1 <=? lo) && sets_cap n r1 = true ->
                         has_cap n st' = true))
    end.
    { eapply HF; [|exact H]. intros; lia. }
    clear st H. induction fuel as [|fuel IHf]; intros count last st Hinv H;
      [discriminate|].
    assert (Hstop : (if lo <=? count then k st else None) = Some res ->
                    exists st', k st' = Some res /\ caps_extend st st'
                      /\ ((1 <=? lo) && sets_cap n r1 = true ->
                          has_cap n st' = true)).
    { destruct (lo <=? count) eqn:El; [|discriminate]. intros Hk.
      exists st. split; [assumption|]. split; [apply caps_extend_refl|].
      intros Hs. apply andb_true_iff in Hs. destruct Hs as [Hl Hs].
      apply Nat.leb_le in El, Hl. apply Hinv; [lia | assumption]. }
    assert (Hagain :
              (if allowed count hi
                  && negb ((lo <=? count) && same_pos last (m_pos st))
               then re_run ic r1 st
                      (fun st' =>
                         (fix loop (fuel count : nat) (last : option nat)
                            (st : mstate) {struct fuel} : option mstate :=
                            match fuel with
                            | 0 => None
                            | S fuel' =>
                                let again (_ : unit) :=
                                  if allowed count hi
                                     && negb ((lo <=? count)
                                              && same_pos last (m_pos st))
                                  then re_run ic r1 st
                                         (fun st' =>
                                            loop fuel' (S count)
                                              (Some (m_pos st)) st')
                                  else None in
                                let stop (_ : unit) :=
                                  if lo <=? count then k st else None in
                                if greedy
                                then match again tt with
                                     | Some res => Some res
                                     | None => stop tt
                                     end
                                else match stop tt with
                                     | Some res => Some res
                                     | None => again tt
                                     end
                            end) fuel (S count) (Some (m_pos st)) st')
               else None) = Some res ->
              exists st', k st' = Some res /\ caps_extend st st'
                /\ ((1 <=? lo) && sets_cap n r1 = true ->
                    has_cap n st' = true)).
    { destruct (allowed count hi
                && negb ((lo <=? count) && same_pos last (m_pos st)));
        [|discriminate].
      intros Hr. apply IH1 in Hr. destruct Hr as (st1 & Hr & E1 & S1).
      apply IHf in Hr; [|intros _; exact S1].
      destruct Hr as (st2 & Hr & E2 & S2).
      exists st2. split; [assumption|].
      split; [eapply caps_extend_trans; eauto | assumption]. }
    cbn beta iota zeta in H.
    destruct greedy.
    + match type of H with
      | match ?a with _ => _ end = _ => destruct a eqn:Ea
      end; [injection H as <-; now apply Hagain | now apply Hstop].
    + match type of H with
      | match ?a with _ => _ end = _ => destruct a eqn:Ea
      end; [injection H as <-; now apply Hstop | now apply Hagain].
  - apply IH1 in H. destruct H as (st1 & H & E1 & S1).
    eexists. split; [exact H|]. split.
    + destruct E1 as [l El]. exists ((g, (m_pos st, m_pos st1)) :: l).
      simpl. now rewrite El.
    + simpl. intros Hs. unfold has_cap. simpl.
      destruct (g =? n) eqn:Eg; [reflexivity|]. now apply S1.
  - destruct (m_pos st =? 0); [|discriminate].
    exists st. repeat split; [assumption | apply caps_extend_refl | discriminate].
  - exists st. split; [|split; [apply caps_extend_refl | discriminate]].
    destruct (m_rest st) as [|a [|b rest]]; try discriminate; [assumption|].
    now destruct (Ascii.eqb a line_feed).
Qed.

(** A group that every match goes through is set in the match object. *)
Lemma group_of_match (ic : bool) (r : regex) (x : str) (m : rmatch) (n : nat) :
  re_match ic r x = Some m -> sets_cap (S n) r = true ->
  exists g, group x m (S n) = Some g.
Proof.
  unfold re_match, match_at. intros H Hs.
  destruct (re_run ic r _ _) as [st|] eqn:E; [|discriminate].
  injection H as <-. apply (re_run_inv (S n)) in E.
  destruct E as (st' & Hk & _ & Hc). cbn in Hk. injection Hk as ->.
  specialize (Hc Hs). unfold has_cap in Hc. unfold group. cbn [rm_end].
  destruct (lookup_cap (S n) (m_caps st)) as [[a b]|]; [eauto | discriminate].
Qed.

(** ** Loops that rewrite the keys of a mapping *)

Lemma normalize_keys_loop_eq :
  forall items out,
    normalize_keys_loop items out = rekey_loop normalize_key items out.
Proof.
  induction items as [|[k v] more IH]; intros out; cbn [normalize_keys_loop
    rekey_loop]; [reflexivity|].
  destruct (normalize_key k); cbn [bind]; [apply IH | reflexivity].
Qed.

Lemma process_titles_loop_eq :
  forall items out,
    process_titles_loop items out = rekey_loop process_string items out.
Proof.
  induction items as [|[k v] more IH]; intros out; cbn [process_titles_loop
    rekey_loop]; [reflexivity|].
  destruct (process_string k); cbn [bind]; [apply IH | reflexivity].
Qed.

Lemma dict_set_bounds {V : Type} (d : dict V) (k : str) (v : V) :
  length (dict_set d k v) <= S (length d)
  /\ forall k' v', In (k', v') (dict_set d k v) ->
                   In (k', v') d \/ (k' = k /\ v' = v).
Proof.
  induction d as [|[k0 v0] r [Hl Hi]]; simpl.
  - split; [lia|]. intros k' v' [E | []]. right. now inversion E.
  - destruct (str_eqb k0 k) eqn:E; simpl.
    + split; [lia|]. intros k' v' [E' | Hin]; [|tauto].
      right. apply str_eqb_eq in E. inversion E'. now subst.
    + split; [lia|]. intros k' v' [E' | Hin]; [tauto|].
      destruct (Hi k' v' Hin); tauto.
Qed.

Section Rekey.

Variable f : str -> Res str.

Lemma rekey_loop_total :
  (forall k, exists k', f k = Ok k') ->
  forall items out, exists out', rekey_loop f items out = Ok out'.
Proof.
  intros Hf. induction items as [|[k v] more IH]; intros out;
    cbn [rekey_loop]; [eauto|].
  destruct (Hf k) as [k' ->]. cbn [bind]. apply IH.
Qed.

Lemma rekey_loop_bounds :
  forall items out out',
    rekey_loop f items out = Ok out' ->
    length out' <= length out + length items
    /\ forall k v, In (k, v) out' ->
         In (k, v) out \/ In v (map snd items).
Proof.
  induction items as [|[k v] more IH]; intros out out' H;
    cbn [rekey_loop] in H.
  - injection H as <-. simpl. split; [lia | tauto].
  - apply bind_ok in H. destruct H as (k' & _ & H). apply IH in H.
    destruct H as [Hl Hi]. destruct (dict_set_bounds out k' v) as [Hl' Hi'].
    simpl. split; [lia|]. intros k0 v0 Hin.
    destruct (Hi k0 v0 Hin) as [H1 | H1]; [|tauto].
    destruct (Hi' k0 v0 H1) as [H2 | [_ ->]]; tauto.
Qed.

Lemma rekey_loop_identity :
  forall items out,
    (forall k, In k (keys items) -> f k = Ok k) ->
    NoDup (keys out ++ keys items) ->
    rekey_loop f items out = Ok (out ++ items).
Proof.
  induction items as [|[k v] more IH]; intros out Hf Hnd; cbn [rekey_loop].
  - now rewrite app_nil_r.
  - rewrite (Hf k) by now left. cbn [bind].
    simpl in Hnd. pose proof (NoDup_remove_2 _ _ _ Hnd) as Hfresh.
    rewrite dict_set_fresh
      by (intros Hin; apply Hfresh, in_or_app; now left).
    rewrite IH.
    + now rewrite <- app_assoc.
    + intros k0 Hk0. apply Hf. now right.
    + unfold keys in *. rewrite map_app. simpl. now rewrite <- app_assoc.
Qed.

End Rekey.

(** ** Title and key normalization *)

Lemma compile_normalize_key :
  exists r, compile (py "^(\d+(\.\d+)*)(\.?)(\s*)(.*)") = Ok r
            /\ needs_digit r = true
            /\ sets_cap 1 r = true /\ sets_cap 5 r = true.
Proof. eexists; repeat split; vm_compute; reflexivity. Qed.

Lemma compile_process_string :
  exists r, compile (py "^(\d+(?:\.\d+)*\.*)(.*)$") = Ok r
            /\ needs_digit r = true
            /\ sets_cap 1 r = true /\ sets_cap 2 r = true.
Proof. eexists; repeat split; vm_compute; reflexivity. Qed.

Lemma normalize_key_total (key : str) :
  exists k, normalize_key key = Ok k.
Proof.
  unfold normalize_key.
  destruct compile_normalize_key as (r & -> & _ & H1 & H5). cbn [bind].
  destruct (re_match false r key) as [m|] eqn:E; [|eauto].
  destruct (group_of_match _ _ _ _ 0 E H1) as [g1 ->].
  destruct (group_of_match _ _ _ _ 4 E H5) as [g5 ->].
  cbn [of_option bind]. eauto.
Qed.

Lemma normalize_key_unnumbered (key : str) :
  no_leading_digit key = true -> normalize_key key = Ok key.
Proof.
  intros H. unfold normalize_key.
  destruct compile_normalize_key as (r & -> & Hd & _). cbn [bind].
  now rewrite (re_match_needs_digit false r key Hd H).
Qed.

Lemma process_string_total (input_string : str) :
  exists k, process_string input_string = Ok k.
Proof.
  unfold process_string.
  destruct compile_process_string as (r & -> & _ & H1 & H2). cbn [bind].
  destruct (re_match false r input_string) as [m|] eqn:E; [|eauto].
  destruct (group_of_match _ _ _ _ 0 E H1) as [g1 ->].
  destruct (group_of_match _ _ _ _ 1 E H2) as [g2 ->].
  cbn [of_option bind]. eauto.
Qed.

Lemma process_string_unnumbered (input_string : str) :
  no_leading_digit input_string = true ->
  process_string input_string = Ok input_string.
Proof.
  intros H. unfold process_string.
  destruct compile_process_string as (r & -> & Hd & _). cbn [bind].
  now rewrite (re_match_needs_digit false r input_string Hd H).
Qed.

(** X10. [normalize_keys_with_numbering] and [process_titles] always
    return; the result has no more entries than the input and every text
    in it is a text of the input.  A mapping none of whose keys begins
    with a digit is returned as it is by both. *)
Theorem key_normalizers_keep_unnumbered_keys (input_dict : dict str) :
  exists normalized processed,
    normalize_keys_with_numbering input_dict = Ok normalized
    /\ process_titles input_dict = Ok processed
    /\ length normalized <= length input_dict
    /\ length processed <= length input_dict
    /\ (forall k v, In (k, v) normalized \/ In (k, v) processed ->
          In v (map snd input_dict))
    /\ (NoDup (keys input_dict) ->
        Forall (fun k => no_leading_digit k = true) (keys input_dict) ->
        normalized = input_dict /\ processed = input_dict).
Proof.
  destruct (rekey_loop_total normalize_key normalize_key_total input_dict [])
    as [n Hn].
  destruct (rekey_loop_total process_string process_string_total input_dict [])
    as [p Hp].
  exists n, p.
  unfold normalize_keys_with_numbering, process_titles.
  rewrite normalize_keys_loop_eq, process_titles_loop_eq, Hn, Hp.
  destruct (rekey_loop_bounds _ _ _ _ Hn) as [Hln Hin].
  destruct (rekey_loop_bounds _ _ _ _ Hp) as [Hlp Hip].
  simpl in Hln, Hlp.
  repeat split; try assumption.
  - intros k v [H | H]; [apply Hin in H | apply Hip in H];
      (destruct H as [[] | H]; exact H).
  - rewrite rekey_loop_identity in Hn; [simpl in Hn; congruence | | assumption].
    intros k Hk. apply normalize_key_unnumbered.
    now apply (proj1 (Forall_forall _ _) H0).
  - rewrite rekey_loop_identity in Hp; [simpl in Hp; congruence | | assumption].
    intros k Hk. apply process_string_unnumbered.
    now apply (proj1 (Forall_forall _ _) H0).
Qed.

Lemma key_normalizers_keep_unnumbered_keys_witness :
  normalize_keys_with_numbering
    [(py "Summary", py "a"); (py "Annex 1", py "b")]
  = Ok [(py "Summary", py "a"); (py "Annex 1", py "b")]
  /\ process_titles [(py "Summary", py "a"); (py "Annex 1", py "b")]
     = Ok [(py "Summary", py "a"); (py "Annex 1", py "b")].
Proof.
  destruct (key_normalizers_keep_unnumbered_keys
              [(py "Summary", py "a"); (py "Annex 1", py "b")])
    as (n & p & Hn & Hp & _ & _ & _ & H).
  destruct H as [-> ->].
  - repeat constructor; simpl; intuition discriminate.
  - repeat constructor.
  - now split.
Defined.

(** ** [process_titles_in_one_step] always returns *)

Lemma mapM_total {A B : Type} (f : A -> Res B) (l : list A) :
  (forall a, exists b, f a = Ok b) -> exists l', mapM f l = Ok l'.
Proof.
  intros Hf. induction l as [|a l [l' IH]]; simpl; [eauto|].
  destruct (Hf a) as [b ->]. rewrite IH. simpl. eauto.
Qed.

Lemma compile_toc_numbering :
  exists r, compile (py "^(\d+(\.\d+)*)") = Ok r
            /\ needs_digit r = true /\ sets_cap 1 r = true.
Proof. eexists; repeat split; vm_compute; reflexivity. Qed.

Lemma compile_key_text :
  exists r, compile (py "^\s*(\d+(\.\d+)*\.?\s*)?(.*)") = Ok r
            /\ sets_cap 3 r = true.
Proof. eexists; repeat split; vm_compute; reflexivity. Qed.

Lemma toc_numbering_total (title : str) :
  exists numbering, toc_numbering title = Ok numbering.
Proof.
  unfold toc_numbering.
  destruct compile_toc_numbering as (r & -> & _ & H1). cbn [bind].
  destruct (re_match false r title) as [m|] eqn:E; [|eauto].
  destruct (group_of_match _ _ _ _ 0 E H1) as [g1 ->].
  cbn [of_option bind]. eauto.
Qed.

Lemma key_text_total (title : str) : exists text, key_text title = Ok text.
Proof.
  unfold key_text.
  destruct compile_key_text as (r & -> & H3). cbn [bind].
  destruct (re_match false r title) as [m|] eqn:E; [|eauto].
  destruct (group_of_match _ _ _ _ 2 E H3) as [g3 ->]. eauto.
Qed.

(** X9. [process_titles_in_one_step] always returns: no title makes it
    raise.  It pairs the TOC entries with the sections by position: the
    result has at most as many entries as the shorter of the two, so with
    an empty TOC it is empty, and every text in it is a text of the
    input mapping. *)
Theorem retitled_sections_come_from_the_input (original_dict : dict str)
  (input_list : list TocEntry) :
  exists out,
    process_titles_in_one_step original_dict input_list = Ok out
    /\ length out <= Nat.min (length input_list) (length original_dict)
    /\ forall k v, In (k, v) out -> In v (map snd original_dict).
Proof.
  unfold process_titles_in_one_step.
  destruct (mapM_total toc_numbering (map toc_title input_list)
              toc_numbering_total) as [nl Hnl].
  destruct (mapM_total key_text (keys original_dict) key_text_total)
    as [tl Htl].
  rewrite Hnl, Htl. cbn [bind as_runtime_error]. eexists. split; [reflexivity|].
  apply mapM_length in Hnl. apply mapM_length in Htl.
  rewrite length_map in Hnl. unfold keys in Htl. rewrite length_map in Htl.
  match goal with
  | |- context [fold_left ?f ?items ?acc] =>
      destruct (fold_dict_set_bounds items acc) as [Hl Hi];
      assert (Hlen : length items
                     <= Nat.min (length input_list) (length original_dict))
  end.
  { rewrite length_combine, length_map, length_combine, length_map. lia. }
  cbn zeta in Hl, Hi. simpl in Hl. split; [lia|].
  intros k v Hin. destruct (Hi k v Hin) as [[] | Hc].
  apply in_combine_r in Hc. exact Hc.
Qed.

Lemma retitled_sections_come_from_the_input_witness :
  exists out,
    process_titles_in_one_step
      [(py "1 Intro", py "a"); (py "Background", py "b"); (py "x", py "c")]
      [{| toc_level := 1; toc_title := py "1. Intro"; toc_page := 1 |};
       {| toc_level := 1; toc_title := py "Background"; toc_page := 1 |}]
    = Ok out
    /\ length out <= Nat.min 2 3
    /\ forall k v, In (k, v) out -> In v [py "a"; py "b"; py "c"].
Proof.
  apply (retitled_sections_come_from_the_input
           [(py "1 Intro", py "a"); (py "Background", py "b"); (py "x", py "c")]
           [{| toc_level := 1; toc_title := py "1. Intro"; toc_page := 1 |};
            {| toc_level := 1; toc_title := py "Background"; toc_page := 1 |}]).
Defined.

(** ** The tree builder loses no entry *)

Lemma compile_level_key :
  exists r, compile (py "^(\d+(\.\d+)*\.)") = Ok r
            /\ needs_digit r = true /\ sets_cap 1 r = true.
Proof. eexists; repeat split; vm_compute; reflexivity. Qed.

Lemma level_key_of_total (title : str) :
  exists k, level_key_of title = Ok k.
Proof.
  unfold level_key_of.
  destruct compile_level_key as (r & -> & _ & H1). cbn [bind].
  destruct (re_match false r title) as [m|] eqn:E; [|eauto].
  destruct (group_of_match _ _ _ _ 0 E H1) as [g1 ->].
  cbn [of_option bind].
  destruct (join dot _); eauto.
Qed.

Lemma level_key_of_unnumbered (title : str) :
  no_leading_digit title = true -> level_key_of title = Ok None.
Proof.
  intros H. unfold level_key_of.
  destruct compile_level_key as (r & -> & Hd & _). cbn [bind].
  now rewrite (re_match_needs_digit false r title Hd H).
Qed.

Lemma level_key_of_not_level_0 (title level_key : str) :
  level_key_of title = Ok (Some level_key) -> level_key <> py "level 0".
Proof.
  unfold level_key_of. intros H.
  apply bind_ok in H. destruct H as (r & _ & H).
  destruct (re_match false r title) as [m|]; [|discriminate].
  apply bind_ok in H. destruct H as (g & _ & H).
  destruct (join dot _) as [|a p].
  - injection H as <-. discriminate.
  - injection H as <-. intros E. apply (f_equal (@length ascii)) in E.
    unfold py in E. cbn [String.list_ascii_of_string app length] in E.
    rewrite !length_app in E. cbn [length] in E. lia.
Qed.

Lemma group_set_get (organized : dict (dict str)) (level_key title content : str)
  (k : str) :
  dict_get (group_set organized level_key title content) k
  = if str_eqb level_key k
    then Some (dict_set (match dict_get organized level_key with
                         | Some g => g
                         | None => []
                         end) title content)
    else dict_get organized k.
Proof.
  induction organized as [|[k0 g0] r IH]; cbn [group_set dict_get].
  - reflexivity.
  - destruct (str_eqb k0 level_key) eqn:E0; cbn [dict_get].
    + apply str_eqb_eq in E0. subst k0.
      destruct (str_eqb level_key k); reflexivity.
    + destruct (str_eqb k0 k) eqn:E1.
      * apply str_eqb_eq in E1. subst k0.
        destruct (str_eqb level_key k) eqn:E2; [|reflexivity].
        apply str_eqb_eq in E2. subst k. rewrite str_eqb_refl in E0.
        discriminate.
      * exact IH.
Qed.

Lemma organize_loop_total :
  forall items organized unnumbered,
    exists r, organize_loop items organized unnumbered = Ok r.
Proof.
  induction items as [|[t c] more IH]; intros o u; cbn [organize_loop];
    [eauto|].
  destruct (level_key_of_total t) as [[lk|] ->]; cbn [bind]; apply IH.
Qed.

Lemma placed_after_set (organized : dict (dict str)) (unnumbered : dict str)
  (t c t0 c0 : str) (k : option str) :
  level_key_of t = Ok k -> t0 <> t ->
  placed organized unnumbered t0 c0 ->
  placed (match k with
          | Some level_key => group_set organized level_key t c
          | None => organized
          end)
         (match k with
          | Some _ => unnumbered
          | None => dict_set unnumbered t c
          end) t0 c0.
Proof.
  intros Hk Hne [(lk0 & g & H1 & H2 & H3) | (H1 & H2)]; destruct k as [lk|].
  - left. exists lk0. rewrite group_set_get.
    destruct (str_eqb lk lk0) eqn:E.
    + apply str_eqb_eq in E. subst lk0. rewrite H2. eexists.
      split; [assumption|]. split; [reflexivity|].
      rewrite dict_get_set_other by congruence. assumption.
    + eauto.
  - left. eauto.
  - right. auto.
  - right. split; [assumption|].
    rewrite dict_get_set_other by congruence. assumption.
Qed.

Lemma placed_new (organized : dict (dict str)) (unnumbered : dict str)
  (t c : str) (k : option str) :
  level_key_of t = Ok k ->
  placed (match k with
          | Some level_key => group_set organized level_key t c
          | None => organized
          end)
         (match k with
          | Some _ => unnumbered
          | None => dict_set unnumbered t c
          end) t c.
Proof.
  intros Hk. destruct k as [lk|].
  - left. exists lk. rewrite group_set_get, str_eqb_refl. eexists.
    split; [assumption|]. split; [reflexivity|]. apply dict_get_set_same.
  - right. split; [assumption | apply dict_get_set_same].
Qed.

Lemma organize_loop_places :
  forall items organized unnumbered organized' unnumbered',
    organize_loop items organized unnumbered = Ok (organized', unnumbered') ->
    NoDup (keys items) ->
    forall title content,
      In (title, content) items
      \/ (~ In title (keys items)
          /\ placed organized unnumbered title content) ->
      placed organized' unnumbered' title content.
Proof.
  induction items as [|[t c] more IH];
    intros o u o' u' H Hnd title content Hin; cbn [organize_loop] in H.
  - injection H as <- <-. destruct Hin as [[] | [_ Hp]]. exact Hp.
  - apply bind_ok in H. destruct H as (k & Hk & H).
    simpl in Hnd. inversion Hnd as [|? ? Hfresh Hnd']. subst.
    assert (H' : organize_loop more
                   (match k with
                    | Some level_key => group_set o level_key t c
                    | None => o
                    end)
                   (match k with
                    | Some _ => u
                    | None => dict_set u t c
                    end) = Ok (o', u')) by (destruct k; exact H).
    apply (IH _ _ _ _ H' Hnd').
    destruct Hin as [[E | Hin] | [Hnot Hp]].
    + injection E as -> ->. right. split; [assumption|].
      now apply placed_new.
    + now left.
    + right. split; [intros Hi; apply Hnot; now right|].
      apply placed_after_set; [assumption | | assumption].
      intros ->. apply Hnot. now left.
Qed.

(** X11. [organize_by_levels_with_grouping] always returns and loses no
    entry: every title of the input is found with its content in one
    group of the result, and a title that does not begin with a digit is
    found in the group ["level 0"]. *)
Theorem grouping_loses_no_entry (input_dict : dict str) :
  NoDup (keys input_dict) ->
  exists out,
    organize_by_levels_with_grouping input_dict = Ok out
    /\ forall title content,
         In (title, content) input_dict ->
         exists level_key group,
           dict_get out level_key = Some group
           /\ dict_get group title = Some content
           /\ (no_leading_digit title = true -> level_key = py "level 0").
Proof.
  intros Hnd. unfold organize_by_levels_with_grouping.
  destruct (organize_loop_total input_dict [] []) as [[o u] Hr].
  rewrite Hr. cbn [bind].
  exists (match u with [] => o | _ :: _ => dict_set o (py "level 0") u end).
  split; [now destruct u|].
  intros title content Hin.
  destruct (organize_loop_places _ _ _ _ _ Hr Hnd title content
              (or_introl Hin))
    as [(lk & g & H1 & H2 & H3) | (H1 & H2)].
  - exists lk, g. split; [|split; [assumption|]].
    + destruct u; [assumption|].
      rewrite dict_get_set_other; [assumption|].
      intros E. symmetry in E. revert E.
      now apply (level_key_of_not_level_0 title).
    + intros Hd. rewrite (level_key_of_unnumbered title Hd) in H1.
      discriminate.
  - exists (py "level 0"), u. split; [|split; [assumption | reflexivity]].
    destruct u; [discriminate|]. apply dict_get_set_same.
Qed.

Lemma grouping_loses_no_entry_witness :
  exists out,
    organize_by_levels_with_grouping
      [(py "1. Intro", py "a"); (py "1.1. Scope", py "b");
       (py "Annex", py "c")] = Ok out
    /\ forall title content,
         In (title, content)
           [(py "1. Intro", py "a"); (py "1.1. Scope", py "b");
            (py "Annex", py "c")] ->
         exists level_key group,
           dict_get out level_key = Some group
           /\ dict_get group title = Some content
           /\ (no_leading_digit title = true -> level_key = py "level 0").
Proof.
  apply (grouping_loses_no_entry
           [(py "1. Intro", py "a"); (py "1.1. Scope", py "b");
            (py "Annex", py "c")]).
  repeat constructor; simpl; intuition discriminate.
Defined.

(** ** The root filter *)

Lemma compile_root_filter :
  exists deep single digits titled two,
    compile (py "\d+(\.\d+)+") = Ok deep
    /\ compile (py "\d+\.$") = Ok single
    /\ compile (py "\d+") = Ok digits
    /\ compile (py "^\d+\..*$") = Ok titled
    /\ compile (py "\d+\.\d+\.") = Ok two
    /\ needs_digit deep = true /\ needs_digit single = true
    /\ needs_digit digits = true.
Proof. do 5 eexists; repeat split; vm_compute; reflexivity. Qed.

Lemma keeps_root_key_total (key : str) : exists b, keeps_root_key key = Ok b.
Proof.
  unfold keeps_root_key.
  destruct compile_root_filter
    as (deep & single & digits & titled & two & -> & -> & -> & -> & -> & _).
  cbn [bind].
  destruct (negb _); [|eauto]. destruct (_ || _); eauto.
Qed.

Lemma keeps_root_key_unnumbered (key : str) :
  no_leading_digit key = true -> keeps_root_key key = Ok true.
Proof.
  intros H. unfold keeps_root_key.
  destruct compile_root_filter
    as (deep & single & digits & titled & two & -> & -> & -> & -> & ->
        & Hd & Hs & Hg).
  cbn [bind].
  rewrite (re_match_needs_digit false deep key Hd H).
  rewrite (re_match_needs_digit false single key Hs H).
  rewrite (re_match_needs_digit false digits key Hg H).
  reflexivity.
Qed.

Lemma filter_root_keys_total {V : Type} :
  forall (d : list (str * V)) (acc : dict V),
    exists out, filter_root_keys d acc = Ok out.
Proof.
  induction d as [|[k v] more IH]; intros acc; cbn [filter_root_keys];
    [eauto|].
  destruct (keeps_root_key_total k) as [b ->]. cbn [bind]. apply IH.
Qed.

Lemma filter_root_keys_sound {V : Type} :
  forall (d : list (str * V)) (acc out : dict V),
    filter_root_keys d acc = Ok out ->
    forall k v, In (k, v) out -> In (k, v) acc \/ In (k, v) d.
Proof.
  induction d as [|[k0 v0] more IH]; intros acc out H k v Hin;
    cbn [filter_root_keys] in H.
  - injection H as <-. now left.
  - apply bind_ok in H. destruct H as (b & _ & H).
    destruct (IH _ _ H k v Hin) as [Ha | Hm]; [|right; now right].
    destruct b; [|now left].
    destruct (dict_set_bounds acc k0 v0) as [_ Hi].
    destruct (Hi k v Ha) as [? | [-> ->]]; [now left | right; now left].
Qed.

Lemma filter_root_keys_keeps {V : Type} (k : str) (v : V) :
  keeps_root_key k = Ok true ->
  forall (d : list (str * V)) (acc out : dict V),
    filter_root_keys d acc = Ok out ->
    NoDup (keys d) ->
    In (k, v) d \/ (~ In k (keys d) /\ dict_get acc k = Some v) ->
    dict_get out k = Some v.
Proof.
  intros Hk. induction d as [|[k0 v0] more IH]; intros acc out H Hnd Hin;
    cbn [filter_root_keys] in H.
  - injection H as <-. destruct Hin as [[] | [_ Hg]]. exact Hg.
  - apply bind_ok in H. destruct H as (b & Hb & H).
    simpl in Hnd. inversion Hnd as [|? ? Hfresh Hnd']. subst.
    apply (IH _ _ H Hnd').
    destruct Hin as [[E | Hin] | [Hnot Hg]].
    + injection E as -> ->. right. split; [assumption|].
      rewrite Hk in Hb. injection Hb as <-. apply dict_get_set_same.
    + now left.
    + right. split; [intros Hi; apply Hnot; now right|].
      destruct b; [|assumption].
      rewrite dict_get_set_other; [assumption|].
      intros ->. apply Hnot. now left.
Qed.

(** X12. The root filter of [resolve_and_filter_dict] always returns;
    it only drops entries, and it keeps, with its value, every entry
    whose key does not begin with a digit. *)
Theorem root_filter_keeps_unnumbered_keys {V : Type} (d : dict V) :
  NoDup (keys d) ->
  exists out,
    filter_root_keys d [] = Ok out
    /\ (forall k v, In (k, v) out -> In (k, v) d)
    /\ (forall k v, In (k, v) d -> no_leading_digit k = true ->
          dict_get out k = Some v).
Proof.
  intros Hnd. destruct (filter_root_keys_total d []) as [out Hout].
  exists out. split; [assumption|]. split.
  - intros k v Hin.
    destruct (filter_root_keys_sound d [] out Hout k v Hin) as [[] | H].
    exact H.
  - intros k v Hin Hd.
    apply (filter_root_keys_keeps k v (keeps_root_key_unnumbered k Hd)
             d [] out Hout Hnd).
    now left.
Qed.

Lemma root_filter_keeps_unnumbered_keys_witness :
  exists out,
    filter_root_keys
      [(py "1. Intro", py "a"); (py "1.1. Scope", py "b");
       (py "Annex", py "c")] [] = Ok out
    /\ (forall k v, In (k, v) out ->
          In (k, v) [(py "1. Intro", py "a"); (py "1.1. Scope", py "b");
                     (py "Annex", py "c")])
    /\ (forall k v,
          In (k, v) [(py "1. Intro", py "a"); (py "1.1. Scope", py "b");
                     (py "Annex", py "c")] ->
          no_leading_digit k = true -> dict_get out k = Some v).
Proof.
  apply (root_filter_keeps_unnumbered_keys
           [(py "1. Intro", py "a"); (py "1.1. Scope", py "b");
            (py "Annex", py "c")]).
  repeat constructor; simpl; intuition discriminate.
Defined.

(** ** The TOC rectifier changes titles only *)

Lemma search_entries_shape (config : CleanupConfig) (doc : Document)
  (flag : bool) :
  forall toc processed_text toc' processed_text',
    search_entries config doc flag toc processed_text
    = Ok (toc', processed_text') ->
    map toc_level toc' = map toc_level toc
    /\ map toc_page toc' = map toc_page toc.
Proof.
  induction toc as [|e rest IH]; intros pt toc' pt' H;
    cbn [search_entries] in H.
  - injection H as <- <-. now split.
  - apply bind_ok in H. destruct H as (st & _ & H).
    apply bind_ok in H. destruct H as ([rt rp] & Hr & H).
    injection H as <- <-. apply IH in Hr. destruct Hr as [Hl Hp].
    cbn [map fst retitle toc_level toc_page]. now rewrite Hl, Hp.
Qed.

Lemma format_toc_shape (config : CleanupConfig) :
  forall toc flag ftoc flag',
    format_toc config toc flag = Ok (ftoc, flag') ->
    map toc_level ftoc = map toc_level toc
    /\ map toc_page ftoc = map toc_page toc.
Proof.
  induction toc as [|item more IH]; intros flag ftoc flag' H;
    cbn [format_toc] in H.
  - injection H as <- <-. now split.
  - apply bind_ok in H. destruct H as (c & _ & H).
    apply bind_ok in H. destruct H as (r & _ & H).
    apply bind_ok in H. destruct H as (t & _ & H).
    apply bind_ok in H. destruct H as ([rt rf] & Hr & H).
    injection H as <- <-. apply IH in Hr. destruct Hr as [Hl Hp].
    cbn [map fst toc_level toc_page]. now rewrite Hl, Hp.
Qed.

Lemma extract_toc_shape (config : CleanupConfig) (doc : Document)
  (toc : list TocEntry) (processed_text : dict str)
  (ftoc : list TocEntry) (flag : bool) (processed_text' : dict str) :
  extract_toc config doc toc processed_text
  = Ok (ftoc, flag, processed_text') ->
  map toc_level ftoc = map toc_level toc
  /\ map toc_page ftoc = map toc_page toc.
Proof.
  unfold extract_toc. intros H. apply as_runtime_error_ok in H.
  apply bind_ok in H. destruct H as ([ft fl] & Hf & H).
  apply format_toc_shape in Hf. destruct Hf as [Hl Hp]. cbn [fst snd] in H.
  destruct fl.
  - apply bind_ok in H. destruct H as ([st sp] & Hs & H).
    injection H as <- _ _. unfold search_and_replace_numbered_titles in Hs.
    apply as_runtime_error_ok, search_entries_shape in Hs.
    cbn [fst]. destruct Hs as [Hl' Hp']. split; congruence.
  - injection H as <- _ _. now split.
Qed.

(** X13. [extract_toc] and the search it runs on an outline without
    numbering change titles only: the formatted table of contents has the
    entries of the outline in the same order, each with its level and its
    page. *)
Theorem outline_keeps_levels_and_pages (config : CleanupConfig)
  (doc : Document) (toc : list TocEntry) (processed_text : dict str)
  (ftoc : list TocEntry) (flag : bool) (processed_text' : dict str) :
  extract_toc config doc toc processed_text
  = Ok (ftoc, flag, processed_text') ->
  length ftoc = length toc
  /\ map toc_level ftoc = map toc_level toc
  /\ map toc_page ftoc = map toc_page toc.
Proof.
  intros H. apply extract_toc_shape in H. destruct H as [Hl Hp].
  split; [|now split].
  apply (f_equal (@length Z)) in Hl. now rewrite !length_map in Hl.
Qed.

Lemma outline_keeps_levels_and_pages_witness :
  length [{| toc_level := 1; toc_title := py "1. Scope"; toc_page := 1 |};
          {| toc_level := 2; toc_title := py "Data"; toc_page := 2 |}]
  = 2
  /\ map toc_level
       [{| toc_level := 1; toc_title := py "1. Scope"; toc_page := 1 |};
        {| toc_level := 2; toc_title := py "Data"; toc_page := 2 |}]
     = [1; 2]%Z
  /\ map toc_page
       [{| toc_level := 1; toc_title := py "1. Scope"; toc_page := 1 |};
        {| toc_level := 2; toc_title := py "Data"; toc_page := 2 |}]
     = [1; 2]%Z.
Proof.
  apply (outline_keeps_levels_and_pages
           {| special_characters := []; expressions := [];
              texts_to_remove := [] |}
           {| pages := [py "1. Scope of the report"; py "Data"] |}
           [{| toc_level := 1; toc_title := py " 1.  Scope"; toc_page := 1 |};
            {| toc_level := 2; toc_title := py "Data "; toc_page := 2 |}]
           []
           [{| toc_level := 1; toc_title := py "1. Scope"; toc_page := 1 |};
            {| toc_level := 2; toc_title := py "Data"; toc_page := 2 |}]
           false []).
  vm_compute. reflexivity.
Defined.

(** ** A blank title *)

Lemma search_entries_blank_title (config : CleanupConfig) (doc : Document)
  (flag : bool) (e : TocEntry) :
  split_ws (toc_title e) = [] ->
  forall toc processed_text,
    In e toc ->
    exists err, search_entries config doc flag toc processed_text = Raise err.
Proof.
  intros Hb. induction toc as [|e0 rest IH]; intros pt Hin; [destruct Hin|].
  cbn [search_entries].
  destruct (search_entry config doc flag e0 (hd_error rest) pt) as [st|err]
    eqn:E; cbn [bind]; [|eauto].
  destruct Hin as [-> | Hin].
  - unfold search_entry, generate_title_variations in E. rewrite Hb in E.
    discriminate.
  - destruct (IH (processed st) Hin) as [err ->]. cbn [bind]. eauto.
Qed.

(** X14. An entry whose title has no word makes
    [search_and_replace_numbered_titles] raise [RuntimeError], wherever
    the entry stands in the table of contents and whatever the pages
    hold. *)
Theorem blank_title_fails_the_search (config : CleanupConfig)
  (doc : Document) (no_numbering_flag : bool) (toc : list TocEntry)
  (processed_text : dict str) (e : TocEntry) :
  In e toc -> split_ws (toc_title e) = [] ->
  search_and_replace_numbered_titles config doc no_numbering_flag toc
    processed_text = Raise RuntimeError.
Proof.
  intros Hin Hb. unfold search_and_replace_numbered_titles.
  destruct (search_entries_blank_title config doc no_numbering_flag e Hb toc
              processed_text Hin) as [err ->].
  reflexivity.
Qed.

Lemma blank_title_fails_the_search_witness :
  search_and_replace_numbered_titles
    {| special_characters := []; expressions := []; texts_to_remove := [] |}
    {| pages := [py "1. Scope"] |} true
    [{| toc_level := 1; toc_title := py "Scope"; toc_page := 1 |};
     {| toc_level := 1; toc_title := py "  "; toc_page := 1 |}]
    [] = Raise RuntimeError.
Proof.
  apply (blank_title_fails_the_search _ _ _ _ _
           {| toc_level := 1; toc_title := py "  "; toc_page := 1 |}).
  - right. left. reflexivity.
  - reflexivity.
Defined.

(** ** The numbering flag *)

Lemma format_toc_flag (config : CleanupConfig) :
  forall toc flag ftoc flag',
    format_toc config toc flag = Ok (ftoc, flag') ->
    (flag' = false <->
     flag = false
     \/ Exists (fun item =>
                  exists c, clean_text config (toc_title item) = Ok c
                            /\ begins_with_numbering c) toc).
Proof.
  induction toc as [|item more IH]; intros flag ftoc flag' H;
    cbn [format_toc] in H.
  - injection H as <- <-. split; [now left|].
    intros [E | E]; [assumption | inversion E].
  - apply bind_ok in H. destruct H as (c & Hc & H).
    apply bind_ok in H. destruct H as (r & Hr & H).
    apply bind_ok in H. destruct H as (t & _ & H).
    apply bind_ok in H. destruct H as ([rt rf] & Hrest & H).
    injection H as <- <-. apply IH in Hrest. cbn [snd]. rewrite Hrest.
    clear Hrest IH. split.
    + intros [E | E]; [|right; now constructor 2].
      destruct (re_match false r c) as [m|] eqn:Em; [|now left].
      right. constructor. exists c. split; [assumption|]. now exists r, m.
    + intros [E | E].
      * left. subst flag. now destruct (is_some _).
      * inversion E as [? ? (c' & Hc' & r' & m & Hr' & Hm) | ? ? E']; subst.
        -- left. rewrite Hc in Hc'. injection Hc' as <-.
           rewrite Hr in Hr'. injection Hr' as <-. now rewrite Hm.
        -- now right.
Qed.

(** X15. [extract_toc] leaves [no_numbering_flag] false exactly when
    some title of the outline, once cleaned, begins with a numbering;
    then [processed_text] is as it was. *)
Theorem flag_tells_a_numbered_outline (config : CleanupConfig)
  (doc : Document) (toc : list TocEntry) (processed_text : dict str)
  (ftoc : list TocEntry) (flag : bool) (processed_text' : dict str) :
  extract_toc config doc toc processed_text
  = Ok (ftoc, flag, processed_text') ->
  (flag = false <->
   Exists (fun item =>
             exists c, clean_text config (toc_title item) = Ok c
                       /\ begins_with_numbering c) toc)
  /\ (flag = false -> processed_text' = processed_text).
Proof.
  unfold extract_toc. intros H. apply as_runtime_error_ok in H.
  apply bind_ok in H. destruct H as ([ft fl] & Hf & H).
  apply format_toc_flag in Hf. cbn [fst snd] in H.
  destruct fl.
  - apply bind_ok in H. destruct H as ([st sp] & Hs & H).
    injection H as _ <- _. split; [|discriminate].
    split; [discriminate|]. intros E.
    assert (true = false) by (apply Hf; now right). discriminate.
  - injection H as _ <- <-. split; [|reflexivity].
    split; [|reflexivity]. intros _.
    destruct (proj1 Hf eq_refl) as [? | E]; [discriminate | exact E].
Qed.

Lemma flag_tells_a_numbered_outline_witness :
  (false = false <->
   Exists (fun item =>
             exists c,
               clean_text
                 {| special_characters := []; expressions := [];
                    texts_to_remove := [] |} (toc_title item) = Ok c
               /\ begins_with_numbering c)
     [{| toc_level := 1; toc_title := py "Summary"; toc_page := 1 |};
      {| toc_level := 1; toc_title := py " 1.  Scope"; toc_page := 1 |}])
  /\ (false = false -> [(py "Summary", py "text")] = [(py "Summary", py "text")]).
Proof.
  apply (flag_tells_a_numbered_outline
           {| special_characters := []; expressions := [];
              texts_to_remove := [] |}
           {| pages := [py "Summary 1. Scope of the report"] |}
           [{| toc_level := 1; toc_title := py "Summary"; toc_page := 1 |};
            {| toc_level := 1; toc_title := py " 1.  Scope"; toc_page := 1 |}]
           [(py "Summary", py "text")]
           [{| toc_level := 1; toc_title := py "Summary"; toc_page := 1 |};
            {| toc_level := 1; toc_title := py "1. Scope"; toc_page := 1 |}]
           false [(py "Summary", py "text")]).
  vm_compute. reflexivity.
Defined.

(** ** Entries that point beyond the last page *)

Lemma page_range_last (start_page end_page : Z) :
  (start_page <= end_page)%Z -> In end_page (page_range start_page end_page).
Proof.
  intros H. unfold page_range. apply in_map_iff.
  exists (Z.to_nat (end_page - start_page)). split; [lia|].
  apply in_seq. lia.
Qed.

Lemma page_range_first (start_page end_page : Z) :
  (start_page <= end_page)%Z ->
  exists more, page_range start_page end_page = start_page :: more.
Proof.
  intros H. unfold page_range.
  replace (Z.to_nat (end_page + 1 - start_page))
    with (S (Z.to_nat (end_page - start_page))) by lia.
  cbn [seq map]. eexists. f_equal. lia.
Qed.

Lemma load_page_beyond (doc : Document) (page_num : Z) :
  (page_count doc <= page_num)%Z -> load_page doc page_num = Raise ValueError.
Proof.
  intros H. unfold load_page.
  now replace (page_count doc <=? page_num)%Z with true
    by (symmetry; now apply Z.leb_le).
Qed.

Lemma clipped_pages_text_beyond (doc : Document) (clipped : list str)
  (p : Z) :
  (page_count doc <= p)%Z ->
  forall page_nums section_text,
    In p page_nums ->
    exists err,
      clipped_pages_text doc clipped page_nums section_text = Raise err.
Proof.
  intros Hp. induction page_nums as [|n more IH]; intros acc Hin;
    [destruct Hin|].
  cbn [clipped_pages_text].
  destruct (load_clipped doc clipped n) as [t|err] eqn:E; cbn [bind]; [|eauto].
  destruct Hin as [-> | Hin]; [|now apply IH].
  unfold load_clipped in E. rewrite (load_page_beyond doc p Hp) in E.
  discriminate.
Qed.

Lemma trusted_loop_beyond (config : CleanupConfig) (doc : Document)
  (clipped : list str) (p q : Z) (post : list Z) :
  (p <= q)%Z -> (page_count doc < q)%Z ->
  forall pre toc sections,
    map toc_page toc = pre ++ p :: q :: post ->
    exists err, trusted_loop config doc clipped toc sections = Raise err.
Proof.
  intros Hpq Hq. induction pre as [|p0 pre IH]; intros toc sections Hm.
  - destruct toc as [|e [|next rest]]; try discriminate.
    simpl in Hm. injection Hm as Hp Hn _.
    cbn [trusted_loop hd_error end_page_of].
    destruct (clipped_pages_text_beyond doc clipped (toc_page next - 1)
                ltac:(lia)
                (page_range (toc_page e - 1) (toc_page next - 1)) [])
      as [err ->]; [apply page_range_last; lia|].
    cbn [bind]. eauto.
  - destruct toc as [|e rest]; [discriminate|].
    simpl in Hm. injection Hm as _ Hm. cbn [trusted_loop].
    destruct (clipped_pages_text _ _ _ _); cbn [bind]; [|eauto].
    destruct (clean_text _ _); cbn [bind]; [|eauto].
    now apply IH.
Qed.

(** X16. In the numbering-trusted mode every page between an entry and
    the next one is loaded: when an entry that is not before its
    predecessor points beyond the last page of the document,
    [structure_raw_text_by_toc] raises [RuntimeError] and no section is
    returned. *)
Theorem next_entry_beyond_last_page_fails (config : CleanupConfig)
  (doc : Document) (clipped : list str) (toc : list TocEntry)
  (processed_text : dict str) (pre post : list Z) (p q : Z) :
  map toc_page toc = pre ++ p :: q :: post ->
  (p <= q)%Z -> (page_count doc < q)%Z ->
  structure_raw_text_by_toc config doc clipped toc processed_text
  = Raise RuntimeError.
Proof.
  intros Hm Hpq Hq. unfold structure_raw_text_by_toc.
  destruct (extract_toc config doc toc processed_text) as [[[ft fl] pt]|err]
    eqn:E; cbn [bind fst]; [|reflexivity].
  apply extract_toc_shape in E. destruct E as [_ Hp]. rewrite <- Hp in Hm.
  destruct (trusted_loop_beyond config doc clipped p q post Hpq Hq pre ft []
              Hm) as [err ->].
  reflexivity.
Qed.

Lemma next_entry_beyond_last_page_fails_witness :
  structure_raw_text_by_toc
    {| special_characters := []; expressions := []; texts_to_remove := [] |}
    {| pages := [py "1. Scope"; py "2. Data"] |}
    [py "1. Scope"; py "2. Data"]
    [{| toc_level := 1; toc_title := py "1. Scope"; toc_page := 1 |};
     {| toc_level := 1; toc_title := py "2. Data"; toc_page := 2 |};
     {| toc_level := 1; toc_title := py "3. Annex"; toc_page := 3 |}]
    [] = Raise RuntimeError.
Proof.
  apply (next_entry_beyond_last_page_fails _ _ _ _ _ [1%Z] [] 2%Z 3%Z).
  - reflexivity.
  - lia.
  - vm_compute. reflexivity.
Defined.

Lemma section_pages_loop_beyond (config : CleanupConfig) (doc : Document)
  (title : str) (next_title : option str) (p : Z) (more : list Z)
  (section_text : str) (start_found : bool) :
  (page_count doc <= p)%Z ->
  section_pages_loop config doc title next_title (p :: more) section_text
    start_found = Raise ValueError.
Proof.
  intros Hp. cbn [section_pages_loop].
  now rewrite (load_page_beyond doc p Hp).
Qed.

Lemma no_numbering_loop_beyond (config : CleanupConfig) (doc : Document)
  (p q : Z) (post : list Z) :
  (page_count doc < p)%Z -> (p <= q)%Z ->
  forall pre toc sections,
    map toc_page toc = pre ++ p :: q :: post ->
    exists err, no_numbering_loop config doc toc sections = Raise err.
Proof.
  intros Hp Hpq. induction pre as [|p0 pre IH]; intros toc sections Hm.
  - destruct toc as [|e [|next rest]]; try discriminate.
    simpl in Hm. injection Hm as He Hn _.
    cbn [no_numbering_loop hd_error]. unfold section_of_entry.
    destruct (section_title (toc_title e)) as [t|err]; cbn [bind]; [|eauto].
    cbn [end_page_of].
    destruct (page_range_first (toc_page e - 1) (toc_page next - 1)
                ltac:(lia)) as [more ->].
    rewrite section_pages_loop_beyond by lia. cbn [bind]. eauto.
  - destruct toc as [|e rest]; [discriminate|].
    simpl in Hm. injection Hm as _ Hm. cbn [no_numbering_loop].
    destruct (section_of_entry _ _ _ _); cbn [bind]; [|eauto].
    now apply IH.
Qed.

(** X17. In the no-numbering mode the pages of an entry are read from
    its own page on: an entry that begins beyond the last page of the
    document and is followed by an entry on the same or a later page
    makes [structure_raw_text_by_toc_no_numbering] raise
    [RuntimeError]. *)
Theorem entry_beyond_last_page_fails (config : CleanupConfig)
  (doc : Document) (formatted_toc : list TocEntry) (pre post : list Z)
  (p q : Z) :
  map toc_page formatted_toc = pre ++ p :: q :: post ->
  (page_count doc < p)%Z -> (p <= q)%Z ->
  structure_raw_text_by_toc_no_numbering config doc formatted_toc
  = Raise RuntimeError.
Proof.
  intros Hm Hp Hpq. unfold structure_raw_text_by_toc_no_numbering.
  destruct (no_numbering_loop_beyond config doc p q post Hp Hpq pre
              formatted_toc [] Hm) as [err ->].
  reflexivity.
Qed.

Lemma entry_beyond_last_page_fails_witness :
  structure_raw_text_by_toc_no_numbering
    {| special_characters := []; expressions := []; texts_to_remove := [] |}
    {| pages := [py "Scope of the report"] |}
    [{| toc_level := 1; toc_title := py "Scope"; toc_page := 1 |};
     {| toc_level := 1; toc_title := py "Data"; toc_page := 2 |};
     {| toc_level := 1; toc_title := py "Annex"; toc_page := 2 |}]
  = Raise RuntimeError.
Proof.
  apply (entry_beyond_last_page_fails _ _ _ [1%Z] [] 2%Z 2%Z).
  - reflexivity.
  - vm_compute. reflexivity.
  - lia.
Defined.

(** ** The orchestrator: what is read is returned *)

Module PipelineReads.
Import Pipeline PipelineNotions.

Section Reads.

Variable Self : Type.
Variable m : Methods Self.

Lemma populate_reads (md : dict str) (c : str) (fr : frame Self) :
  always_returns (extract_metadata m) md ->
  always_returns (extract_pdf_textand_clean m) c ->
  exists fr',
    populate m fr = (Ok tt, fr')
    /\ data_metadata fr' = md
    /\ data_leveled_text fr' = leveled_text fr
    /\ data_processed_text fr' = structured_processed_text fr
    /\ data_cleaned_text fr' = c
    /\ errors fr' = errors fr.
Proof.
  intros Hmd Hc.
  unfold populate, try_except, mbind, call, read, set_data_metadata,
    set_data_leveled_text, set_data_processed_text, set_data_cleaned_text,
    update.
  destruct (Hmd (self fr)) as [s1 E1]. rewrite E1. cbn.
  destruct (Hc s1) as [s2 E2]. rewrite E2. cbn.
  eexists. split; [reflexivity|]. cbn. repeat split.
Qed.

(** X18. Whatever the structuring stages do, the metadata and the whole
    text that the two reading methods return are the [metadata] and the
    [cleaned_text] of the record that [extract_all] returns. *)
Theorem what_is_read_is_returned (s : Self) (md : dict str) (c : str) :
  always_returns (extract_metadata m) md ->
  always_returns (extract_pdf_textand_clean m) c ->
  exists t d fr',
    extract_all m s
    = (Ok [(py "metadata", FMetadata md); (py "leveled_text", FLeveled t);
           (py "processed_text", FProcessed d); (py "cleaned_text", FCleaned c)],
       fr').
Proof.
  intros Hmd Hc.
  destruct (PipelineFacts.step1_spec Self m (initial s)) as (fr1 & E1 & _).
  destruct (PipelineFacts.step2_spec Self m fr1) as (fr2 & E2 & _).
  destruct (PipelineFacts.step3_spec Self m fr2) as (fr3 & E3 & _).
  destruct (PipelineFacts.step4_spec Self m fr3) as (fr4 & E4 & _).
  destruct (PipelineFacts.step5_spec Self m fr4) as (fr5 & E5 & _).
  destruct (PipelineFacts.step6_spec Self m fr5) as (fr6 & E6 & _).
  destruct (PipelineFacts.step7_spec Self m fr6) as (fr7 & E7 & _).
  destruct (populate_reads md c fr7 Hmd Hc)
    as (fr8 & E8 & Ha & Hb & Hd & He & _).
  destruct (PipelineFacts.step8_spec Self m (ordered_data fr8) fr8)
    as (fr' & E9).
  exists (data_leveled_text fr8), (data_processed_text fr8), fr'.
  unfold extract_all, extract_all_body.
  unfold mbind at 1. unfold try_except at 1.
  unfold main_blocks, mbind at 1.
  unfold mbind. rewrite E1, E2, E3, E4, E5, E6, E7, E8.
  unfold read. rewrite E9. unfold ret, ordered_data. now rewrite Ha, He.
Qed.

End Reads.
End PipelineReads.

Lemma what_is_read_is_returned_witness :
  exists t d fr',
    Pipeline.extract_all
      (unstructured_extractor [(py "title", py "Report")] (py "whole text")) tt
    = (Ok [(py "metadata", FMetadata [(py "title", py "Report")]);
           (py "leveled_text", FLeveled t);
           (py "processed_text", FProcessed d);
           (py "cleaned_text", FCleaned (py "whole text"))],
       fr').
Proof.
  apply (PipelineReads.what_is_read_is_returned unit
           (unstructured_extractor [(py "title", py "Report")]
              (py "whole text")) tt).
  - intros s. exists s. reflexivity.
  - intros s. exists s. reflexivity.
Defined.

(** ** Whitespace normal form *)

Lemma ws_run_drop (x : str) : skipn (ws_run x) x = drop_while is_space x.
Proof.
  induction x as [|a r IH]; [reflexivity|]. simpl.
  destruct (is_space a); [exact IH | reflexivity].
Qed.

Lemma ws_run_le (x : str) : ws_run x <= length x.
Proof.
  induction x as [|a r IH]; simpl; [lia|]. destruct (is_space a); simpl; lia.
Qed.

(** The greedy [\s+] takes the whole run of whitespace. *)
Lemma ws_plus_run (k : mstate -> option mstate) :
  (forall st, k st = Some st) ->
  forall rest pos caps,
    re_run false (RRep (RChar (CItem (ISpace false))) 1 None true)
      (MState pos rest caps) k
    = match ws_run rest with
      | 0 => None
      | S n => Some (MState (pos + S n) (skipn (S n) rest) caps)
      end.
Proof.
  intros Hk rest pos caps. cbn [re_run m_rest].
  match goal with
  | |- ?F _ 0 None _ = _ =>
      enough (HF : forall rest fuel count last pos,
                 length rest < fuel -> same_pos last pos = false ->
                 F fuel count last (MState pos rest caps)
                 = if 1 <=? count + ws_run rest
                   then Some (MState (pos + ws_run rest)
                                (skipn (ws_run rest) rest) caps)
                   else None)
  end.
  { rewrite HF by (simpl; lia || reflexivity).
    destruct (ws_run rest); reflexivity. }
  clear rest pos. induction rest as [|a r IH]; intros fuel count last pos Hf Hl;
    (destruct fuel as [|fuel]; [simpl in Hf; lia|]).
  - cbn. rewrite Hk, !Nat.add_0_r.
    destruct (negb _); reflexivity.
  - cbn -[Nat.leb]. simpl in Hf.
    assert (Hcond : negb ((1 <=? count) && same_pos last pos) = true)
      by (rewrite Hl, andb_false_r; reflexivity).
    rewrite Hcond. destruct (is_space a) eqn:Ea.
    + rewrite IH by (try lia; simpl; apply Nat.eqb_neq; lia).
      replace (1 <=? S count + ws_run r) with true
        by (symmetry; apply Nat.leb_le; lia).
      replace (1 <=? count + S (ws_run r)) with true
        by (symmetry; apply Nat.leb_le; lia).
      replace (S pos + ws_run r) with (pos + S (ws_run r)) by lia.
      reflexivity.
    + rewrite Hk, !Nat.add_0_r. reflexivity.
Qed.

Lemma match_at_ws (x : str) (pos : nat) :
  match_at false (RRep (RChar (CItem (ISpace false))) 1 None true) x pos false
  = match ws_run (skipn pos x) with
    | 0 => None
    | S n =>
        Some (RMatch pos
                (MState (pos + S n) (skipn (S n) (skipn pos x)) []))
    end.
Proof.
  unfold match_at. rewrite ws_plus_run by reflexivity.
  destruct (ws_run (skipn pos x)); reflexivity.
Qed.

Lemma skipn_cons_S {A : Type} (x : list A) :
  forall pos a r, skipn pos x = a :: r -> skipn (S pos) x = r.
Proof.
  induction x as [|b x IH]; intros [|pos] a r H; simpl in *;
    try discriminate.
  - now injection H.
  - destruct x; [destruct pos; discriminate | eapply IH; eauto].
Qed.

Lemma re_sub_ws_from (x : str) :
  forall rest pos,
    skipn pos x = rest ->
    re_sub_from false (RRep (RChar (CItem (ISpace false))) 1 None true)
      [RText space] x pos (ws_run rest) rest = collapse_ws true rest
    /\ re_sub_from false (RRep (RChar (CItem (ISpace false))) 1 None true)
         [RText space] x pos 0 rest = collapse_ws false rest.
Proof.
  induction rest as [|a r IH]; intros pos Hs.
  - cbn [ws_run re_sub_from collapse_ws]. rewrite match_at_ws, Hs. now split.
  - pose proof (skipn_cons_S x pos a r Hs) as Hs'.
    destruct (IH (S pos) Hs') as [IH1 IH2].
    assert (H0 : re_sub_from false
                   (RRep (RChar (CItem (ISpace false))) 1 None true)
                   [RText space] x pos 0 (a :: r)
                 = collapse_ws false (a :: r)).
    { cbn [re_sub_from collapse_ws]. rewrite match_at_ws, Hs.
      cbn [ws_run]. destruct (is_space a).
      - cbn [rm_end m_pos].
        replace (pos + S (ws_run r) - pos) with (S (ws_run r)) by lia.
        rewrite IH1. reflexivity.
      - now rewrite IH2. }
    split; [|exact H0].
    cbn [ws_run collapse_ws] in *. destruct (is_space a).
    + cbn [re_sub_from]. exact IH1.
    + exact H0.
Qed.

Lemma re_sub_ws (x : str) :
  re_sub (RRep (RChar (CItem (ISpace false))) 1 None true) [RText space] x
  = collapse_ws false x.
Proof. unfold re_sub. now apply re_sub_ws_from. Qed.

Lemma collapse_ws_head (x : str) (c : ascii) (t : str) :
  collapse_ws true x = c :: t -> is_space c = false.
Proof.
  induction x as [|a r IH]; simpl; [discriminate|].
  destruct (is_space a) eqn:E; [exact IH|].
  intros H. injection H as <- _. exact E.
Qed.

Lemma lstrip_collapse_ws (x : str) :
  lstrip_by is_space (collapse_ws false x) = collapse_ws true x.
Proof.
  assert (H : forall y, lstrip_by is_space (collapse_ws true y)
                        = collapse_ws true y).
  { intros y. unfold lstrip_by.
    destruct (collapse_ws true y) as [|c t] eqn:E; [reflexivity|].
    simpl. now rewrite (collapse_ws_head y c t E). }
  destruct x as [|a r]; [reflexivity|]. cbn [collapse_ws].
  destruct (is_space a) eqn:E.
  - unfold lstrip_by. cbn [drop_while].
    replace (is_space " ") with true by reflexivity. apply (H r).
  - unfold lstrip_by. cbn [drop_while]. now rewrite E.
Qed.

Lemma split_ws_aux_words :
  forall x cur,
    Forall (fun c => is_space c = false) cur ->
    Forall is_word_of (split_ws_aux cur x).
Proof.
  assert (Hw : forall cur, cur <> [] ->
                 Forall (fun c => is_space c = false) cur ->
                 is_word_of (rev cur)).
  { intros cur Hne Hc. split.
    - intros E. apply Hne. apply (f_equal (@rev ascii)) in E.
      now rewrite rev_involutive in E.
    - now apply Forall_rev. }
  induction x as [|a r IH]; intros cur Hc; cbn [split_ws_aux].
  - destruct cur; [constructor|]. constructor; [|constructor].
    now apply Hw.
  - destruct (is_space a) eqn:E.
    + destruct cur; [apply IH; constructor|].
      constructor; [now apply Hw | apply IH; constructor].
    + apply IH. now constructor.
Qed.

Lemma collapse_ws_join :
  forall x cur,
    exists trail,
      (trail = [] \/ trail = space)
      /\ rev cur ++ collapse_ws (match cur with [] => true | _ => false end) x
         = join space (split_ws_aux cur x) ++ trail.
Proof.
  induction x as [|a r IH]; intros cur.
  - exists []. split; [now left|]. cbn [collapse_ws split_ws_aux].
    destruct cur; cbn [join]; now rewrite ?app_nil_r.
  - cbn [split_ws_aux]. destruct (is_space a) eqn:E.
    + destruct (IH []) as (trail & Ht & Hc). cbn [rev app] in Hc.
      destruct cur as [|c cur].
      * exists trail. split; [assumption|]. cbn [collapse_ws rev app].
        now rewrite E.
      * cbn [collapse_ws]. rewrite E.
        destruct (split_ws_aux [] r) as [|b L] eqn:EL.
        -- cbn [join app] in Hc.
           assert (Etr : trail = []).
           { destruct Ht as [-> | ->]; [reflexivity|].
             apply collapse_ws_head in Hc. discriminate. }
           rewrite Etr in Hc. exists space. split; [now right|].
           rewrite Hc. reflexivity.
        -- exists trail. split; [assumption|]. rewrite Hc.
           cbn [join]. destruct (rev (c :: cur)) eqn:Er.
           ++ apply (f_equal (@length ascii)) in Er.
              rewrite length_rev in Er. discriminate.
           ++ rewrite <- Er. unfold space. rewrite <- !app_assoc.
              reflexivity.
    + destruct (IH (a :: cur)) as (trail & Ht & Hc).
      exists trail. split; [assumption|]. rewrite <- Hc.
      cbn [rev]. rewrite <- app_assoc.
      destruct cur; cbn [collapse_ws]; now rewrite E.
Qed.

Lemma join_words_last (l : list str) :
  l <> [] -> Forall is_word_of l ->
  exists c t, rev (join space l) = c :: t /\ is_space c = false.
Proof.
  induction l as [|a [|b r] IH]; intros Hne Hw; [contradiction| |].
  - cbn [join]. inversion Hw as [|? ? [Ha Hf] _]. subst.
    destruct (rev a) as [|c t] eqn:E.
    + exfalso. apply Ha. apply (f_equal (@rev ascii)) in E.
      now rewrite rev_involutive in E.
    + exists c, t. split; [reflexivity|].
      apply Forall_rev in Hf. rewrite E in Hf. now inversion Hf.
  - inversion Hw as [|? ? _ Hw']. subst.
    destruct (IH ltac:(discriminate) Hw') as (c & t & E & Hc).
    change (join space (a :: b :: r)) with (a ++ space ++ join space (b :: r)).
    rewrite !rev_app_distr, E. exists c. eexists. split; [reflexivity|].
    assumption.
Qed.

Lemma rstrip_join_words (l : list str) (trail : str) :
  Forall is_word_of l -> trail = [] \/ trail = space ->
  rstrip_by is_space (join space l ++ trail) = join space l.
Proof.
  intros Hw Ht. unfold rstrip_by. rewrite rev_app_distr.
  assert (H : drop_while is_space (rev trail ++ rev (join space l))
              = drop_while is_space (rev (join space l)))
    by (destruct Ht as [-> | ->]; reflexivity).
  rewrite H. destruct l as [|a r]; [reflexivity|].
  destruct (join_words_last (a :: r) ltac:(discriminate) Hw)
    as (c & t & E & Hc).
  rewrite E. cbn [drop_while]. rewrite Hc, <- E. apply rev_involutive.
Qed.

(** Replacing the runs of whitespace by one space and stripping gives
    the words joined by one space. *)
Lemma strip_collapse_ws (x : str) :
  strip (collapse_ws false x) = join space (split_ws x).
Proof.
  unfold strip, strip_by. rewrite lstrip_collapse_ws.
  destruct (collapse_ws_join x []) as (trail & Ht & Hc).
  cbn [rev app] in Hc. rewrite Hc.
  apply rstrip_join_words; [|assumption].
  apply split_ws_aux_words. constructor.
Qed.

Lemma split_ws_aux_app (w : str) :
  Forall (fun c => is_space c = false) w ->
  forall cur x, split_ws_aux cur (w ++ x) = split_ws_aux (rev w ++ cur) x.
Proof.
  induction 1 as [|a w Ha Hw IH]; intros cur x; [reflexivity|].
  cbn [app split_ws_aux rev]. rewrite Ha, IH, <- app_assoc. reflexivity.
Qed.

Lemma split_ws_join (l : list str) :
  Forall is_word_of l -> split_ws (join space l) = l.
Proof.
  unfold split_ws. induction l as [|a [|b r] IH]; intros Hw; [reflexivity| |].
  - inversion Hw as [|? ? [Ha Hf] _]. subst. cbn [join].
    rewrite <- (app_nil_r a) at 1. rewrite split_ws_aux_app by assumption.
    cbn [split_ws_aux]. rewrite app_nil_r.
    destruct (rev a) eqn:E.
    + exfalso. apply Ha. apply (f_equal (@rev ascii)) in E.
      now rewrite rev_involutive in E.
    + rewrite <- E, rev_involutive. reflexivity.
  - inversion Hw as [|? ? [Ha Hf] Hw']. subst.
    change (join space (a :: b :: r)) with (a ++ space ++ join space (b :: r)).
    rewrite split_ws_aux_app by assumption. rewrite app_nil_r.
    change (space ++ join space (b :: r))
      with (" "%char :: join space (b :: r)).
    cbn [split_ws_aux].
    replace (is_space " ") with true by reflexivity.
    destruct (rev a) eqn:E.
    + exfalso. apply Ha. apply (f_equal (@rev ascii)) in E.
      now rewrite rev_involutive in E.
    + rewrite <- E, rev_involutive, IH by assumption. reflexivity.
Qed.

Lemma compile_ws :
  compile (py "\s+") = Ok (RRep (RChar (CItem (ISpace false))) 1 None true).
Proof. vm_compute. reflexivity. Qed.

Lemma clean_text_words (config : CleanupConfig) (text out : str) :
  clean_text config text = Ok out ->
  exists text2,
    out = join space (split_ws text2)
    /\ (special_characters config = [] -> expressions config = [] ->
        text2 = text).
Proof.
  unfold clean_text. intros H. apply as_runtime_error_ok in H.
  apply bind_ok in H. destruct H as (text2 & H2 & H).
  rewrite compile_ws in H. cbn [bind] in H. injection H as <-.
  exists text2. rewrite re_sub_ws, strip_collapse_ws. split; [reflexivity|].
  intros Hs He. rewrite Hs, He in H2. cbn in H2. now injection H2.
Qed.

Lemma clean_text_single_spaced (config : CleanupConfig) (text out : str) :
  clean_text config text = Ok out -> single_spaced out.
Proof.
  intros H. apply clean_text_words in H. destruct H as (text2 & -> & _).
  unfold single_spaced. rewrite split_ws_join; [reflexivity|].
  apply split_ws_aux_words. constructor.
Qed.

(** X19. What [clean_text] returns is in whitespace normal form: its
    words joined by single spaces, with no whitespace at either end.
    With no special character and no expression configured it returns
    the words of the text joined by single spaces. *)
Theorem cleaned_text_is_single_spaced (config : CleanupConfig)
  (text out : str) :
  clean_text config text = Ok out ->
  single_spaced out
  /\ (special_characters config = [] -> expressions config = [] ->
      out = join space (split_ws text)).
Proof.
  intros H. split; [now apply clean_text_single_spaced with config text|].
  apply clean_text_words in H. destruct H as (text2 & -> & Ht).
  intros Hs He. now rewrite (Ht Hs He).
Qed.

Lemma cleaned_text_is_single_spaced_witness :
  single_spaced (py "Data quality report")
  /\ (@nil str = [] -> @nil str = [] ->
      py "Data quality report"
      = join space (split_ws (py "  Data   quality  report "))).
Proof.
  apply (cleaned_text_is_single_spaced
           {| special_characters := []; expressions := [];
              texts_to_remove := [] |}
           (py "  Data   quality  report ")
           (py "Data quality report")).
  vm_compute. reflexivity.
Defined.

(** ** Every returned text is cleaned *)

Lemma dict_set_values {V : Type} (P : V -> Prop) (d : dict V) (k : str)
  (v : V) :
  (forall k0 v0, In (k0, v0) d -> P v0) -> P v ->
  forall k0 v0, In (k0, v0) (dict_set d k v) -> P v0.
Proof.
  intros Hd Hv k0 v0 Hin.
  destruct (dict_set_bounds d k v) as [_ Hi].
  destruct (Hi k0 v0 Hin) as [H | [_ ->]]; [eapply Hd; eauto | assumption].
Qed.

Lemma trusted_loop_values (config : CleanupConfig) (doc : Document)
  (clipped : list str) :
  forall toc sections out,
    trusted_loop config doc clipped toc sections = Ok out ->
    (forall k v, In (k, v) sections -> single_spaced v) ->
    forall k v, In (k, v) out -> single_spaced v.
Proof.
  induction toc as [|e rest IH]; intros sections out H Hs;
    cbn [trusted_loop] in H.
  - now injection H as <-.
  - apply bind_ok in H. destruct H as (t & _ & H).
    apply bind_ok in H. destruct H as (body & Hb & H).
    apply (IH _ _ H). apply dict_set_values; [assumption|].
    now apply clean_text_single_spaced in Hb.
Qed.

Lemma no_numbering_loop_values (config : CleanupConfig) (doc : Document) :
  forall toc sections out,
    no_numbering_loop config doc toc sections = Ok out ->
    (forall k v, In (k, v) sections -> single_spaced v) ->
    forall k v, In (k, v) out -> single_spaced v.
Proof.
  induction toc as [|e rest IH]; intros sections out H Hs;
    cbn [no_numbering_loop] in H.
  - now injection H as <-.
  - apply bind_ok in H. destruct H as ([t body] & Hkv & H).
    apply (IH _ _ H). apply dict_set_values; [assumption|].
    unfold section_of_entry in Hkv.
    apply bind_ok in Hkv. destruct Hkv as (t0 & _ & Hkv).
    apply bind_ok in Hkv. destruct Hkv as (st & _ & Hkv).
    apply bind_ok in Hkv. destruct Hkv as (b & Hb & Hkv).
    injection Hkv as _ <-. cbn [snd].
    now apply clean_text_single_spaced in Hb.
Qed.

(** X20. Every text that the extractor hands on is cleaned: the text of
    the whole document and every section body of the two segmenters are
    in whitespace normal form. *)
Theorem returned_texts_are_single_spaced (config : CleanupConfig)
  (doc : Document) (clipped : list str) (toc : list TocEntry)
  (processed_text : dict str) :
  (forall out, extract_pdf_textand_clean config doc = Ok out ->
     single_spaced out)
  /\ (forall out,
        structure_raw_text_by_toc config doc clipped toc processed_text
        = Ok out ->
        forall title body, In (title, body) out -> single_spaced body)
  /\ (forall out,
        structure_raw_text_by_toc_no_numbering config doc toc = Ok out ->
        forall title body, In (title, body) out -> single_spaced body).
Proof.
  split; [|split].
  - intros out H. now apply clean_text_single_spaced in H.
  - intros out H. unfold structure_raw_text_by_toc in H.
    apply as_runtime_error_ok in H.
    apply bind_ok in H. destruct H as (r & _ & H).
    apply (trusted_loop_values _ _ _ _ _ _ H). intros k v [].
  - intros out H. unfold structure_raw_text_by_toc_no_numbering in H.
    apply as_runtime_error_ok in H.
    apply (no_numbering_loop_values _ _ _ _ _ H). intros k v [].
Qed.

Lemma returned_texts_are_single_spaced_witness :
  single_spaced (py "1. Scope of the report 2. Data and sources")
  /\ (forall title body,
        In (title, body)
          [(py "1. Scope", py "of the report and sources");
           (py "2. Data", py "and sources")] ->
        single_spaced body)
  /\ (forall title body,
        In (title, body)
          [(py "1. Scope", py "1. Scope of the report");
           (py "2. Data", py "2. Data and sources")] ->
        single_spaced body).
Proof.
  pose proof (returned_texts_are_single_spaced
                {| special_characters := []; expressions := [];
                   texts_to_remove := [] |}
                {| pages := [py "1. Scope  of the report ";
                             py " 2. Data and   sources"] |}
                [py " of the  report"; py "and  sources "]
                [{| toc_level := 1; toc_title := py "1. Scope";
                    toc_page := 1 |};
                 {| toc_level := 1; toc_title := py "2. Data";
                    toc_page := 2 |}]
                []) as (H1 & H2 & H3).
  split; [|split].
  - apply H1. vm_compute. reflexivity.
  - apply H2. vm_compute. reflexivity.
  - apply H3. vm_compute. reflexivity.
Defined.

(** ** A next title that is not found *)

Lemma find_at_range (sub : str) :
  forall x i r,
    find_at sub x i = r ->
    r = (-1)%Z \/ (i <= r <= i + zlen x)%Z.
Proof.
  induction x as [|a x IH]; intros i r H; cbn [find_at] in H.
  - destruct (startswith [] sub); [right | now left].
    subst r. unfold zlen. simpl. lia.
  - destruct (startswith (a :: x) sub).
    + right. subst r. unfold zlen. simpl length. lia.
    + apply IH in H. destruct H as [H | H]; [now left | right].
      unfold zlen in *. simpl length. lia.
Qed.

Lemma str_find_range (x sub : str) :
  str_find x sub = (-1)%Z \/ (0 <= str_find x sub <= zlen x)%Z.
Proof.
  unfold str_find, str_find_from. cbn [Z.ltb Z.compare].
  destruct (zlen x <? 0)%Z; [now left|].
  cbn [Z.to_nat skipn].
  destruct (find_at_range sub x 0%Z _ eq_refl) as [H | H]; [now left|].
  right. lia.
Qed.

(** [x[start:-1]]: the text from [start] on without its last
    character. *)
Lemma slice_to_minus_one (x : str) (start : Z) :
  (0 <= start <= zlen x)%Z ->
  slice x start (-1) = removelast (skipn (Z.to_nat start) x).
Proof.
  intros H. unfold slice, clamp_index.
  replace (start <? 0)%Z with false by (symmetry; apply Z.ltb_ge; lia).
  replace (-1 <? 0)%Z with true by reflexivity.
  replace (Z.max 0 (Z.min (zlen x) start)) with start by lia.
  rewrite removelast_firstn_len, length_skipn. f_equal.
  unfold zlen in *. lia.
Qed.

Lemma extract_sections_loop_others (processed_text : dict str) (title : str) :
  forall titles acc out,
    extract_sections_loop titles processed_text acc = Ok out ->
    ~ In title titles ->
    dict_get out title = dict_get acc title.
Proof.
  induction titles as [|t rest IH]; intros acc out H Hnot;
    cbn [extract_sections_loop] in H.
  - now injection H as <-.
  - apply bind_ok in H. destruct H as (k & _ & H).
    assert (Hne : t <> title) by (intros ->; apply Hnot; now left).
    assert (Hrest : ~ In title rest) by (intros Hi; apply Hnot; now right).
    destruct (dict_get_default processed_text t []) as [|c text'].
    + rewrite (IH _ _ H Hrest). now apply dict_get_set_other.
    + apply bind_ok in H. destruct H as (s & _ & H).
      rewrite (IH _ _ H Hrest). now apply dict_get_set_other.
Qed.

Lemma extract_sections_loop_at (processed_text : dict str)
  (title : str) (rest : list str) (c : ascii) (text v : str) :
  dict_get processed_text title = Some (c :: text) ->
  section_text_of title (hd_error rest) (c :: text) = Ok v ->
  ~ In title rest ->
  forall pre acc out,
    extract_sections_loop (pre ++ title :: rest) processed_text acc = Ok out ->
    dict_get out title = Some v.
Proof.
  intros Hg Hv Hnot. induction pre as [|t pre IH]; intros acc out H;
    cbn [app extract_sections_loop] in H.
  - apply bind_ok in H. destruct H as (k & _ & H).
    unfold dict_get_default in H. rewrite Hg, Hv in H. cbn [bind] in H.
    rewrite (extract_sections_loop_others _ _ _ _ _ H Hnot).
    apply dict_get_set_same.
  - apply bind_ok in H. destruct H as (k & _ & H).
    destruct (dict_get_default processed_text t []) as [|c' text'].
    + now apply IH in H.
    + apply bind_ok in H. destruct H as (s & _ & H). now apply IH in H.
Qed.

Lemma section_text_of_open_end (title next_title text key : str) :
  search_key title = Ok key ->
  str_find text key <> (-1)%Z ->
  (forall next_key, search_key next_title = Ok next_key ->
     str_find_from text next_key (str_find text key + zlen key) = (-1)%Z) ->
  str_find_from text next_title (str_find text key + zlen key) = (-1)%Z ->
  section_text_of title (Some next_title) text
  = Ok (strip (removelast (skipn (Z.to_nat (str_find text key)) text))).
Proof.
  intros Hk Hs Hn1 Hn2. unfold section_text_of. rewrite Hk. cbn [bind].
  destruct (search_key_total next_title) as [nk Hnk]. rewrite Hnk.
  cbn [bind].
  assert (Hst : start_index_of text key title = Ok (str_find text key)).
  { unfold start_index_of. use_compile compile_prefix_text.
    apply Z.eqb_neq in Hs. cbv zeta. rewrite Hs. cbv iota. rewrite Hs.
    reflexivity. }
  rewrite Hst. cbn [bind]. cbv zeta. rewrite (Hn1 nk Hnk).
  cbn [Z.eqb Pos.eqb]. rewrite Hn2.
  pose proof Hs as Hs'. apply Z.eqb_neq in Hs'. rewrite Hs'. cbn [negb].
  rewrite slice_to_minus_one; [reflexivity|].
  destruct (str_find_range text key) as [E | E]; [contradiction | exact E].
Qed.

(** X21. In [extract_sections_from_processed_text], when the title of a
    section is found in its text but the next title is not found after
    it, the end index is [-1] and the slice stops before the last
    character: the section is the text from the title on without its
    last character, stripped. *)
Theorem unfound_next_title_drops_last_character (titles pre post : list str)
  (processed_text : dict str) (title next_title text key : str) :
  titles = pre ++ title :: next_title :: post ->
  ~ In title (next_title :: post) ->
  dict_get processed_text title = Some text ->
  search_key title = Ok key ->
  str_find text key <> (-1)%Z ->
  (forall next_key, search_key next_title = Ok next_key ->
     str_find_from text next_key (str_find text key + zlen key) = (-1)%Z) ->
  str_find_from text next_title (str_find text key + zlen key) = (-1)%Z ->
  exists out,
    extract_sections_from_processed_text titles processed_text = Ok out
    /\ dict_get out title
       = Some (strip (removelast (skipn (Z.to_nat (str_find text key)) text))).
Proof.
  intros -> Hnot Hg Hk Hs Hn1 Hn2.
  unfold extract_sections_from_processed_text.
  destruct (extract_sections_loop_total processed_text
              (pre ++ title :: next_title :: post) []) as [out Hout].
  rewrite Hout. exists out. split; [reflexivity|].
  destruct text as [|c text].
  - assert (Hv : forall next,
               match dict_get_default processed_text title [] with
               | [] => @nil ascii = []
               | t => section_text_of title next t = Ok []
               end).
    { intros next. unfold dict_get_default. now rewrite Hg. }
    cbn [skipn removelast]. destruct (Z.to_nat _); cbn [skipn removelast];
      (eapply extract_sections_loop_get; [exact Hv | exact Hout |]);
      left; apply in_or_app; right; now left.
  - eapply extract_sections_loop_at; [exact Hg | | exact Hnot | exact Hout].
    now apply section_text_of_open_end.
Qed.

Lemma unfound_next_title_drops_last_character_witness :
  exists out,
    extract_sections_from_processed_text [py "Scope"; py "Methods"]
      [(py "Scope", py "Scope of the survey: all units");
       (py "Methods", py "Methods used")] = Ok out
    /\ dict_get out (py "Scope")
       = Some (strip (removelast
                        (skipn (Z.to_nat
                                  (str_find (py "Scope of the survey: all units")
                                     (py "Scope")))
                           (py "Scope of the survey: all units")))).
Proof.
  apply (unfound_next_title_drops_last_character
           [py "Scope"; py "Methods"] [] []
           [(py "Scope", py "Scope of the survey: all units");
            (py "Methods", py "Methods used")]
           (py "Scope") (py "Methods")
           (py "Scope of the survey: all units") (py "Scope")).
  - reflexivity.
  - simpl. intuition discriminate.
  - reflexivity.
  - vm_compute. reflexivity.
  - vm_compute. discriminate.
  - intros next_key H. vm_compute in H. injection H as <-.
    vm_compute. reflexivity.
  - vm_compute. reflexivity.
Defined.

(** ** Titles in capital letters *)

Lemma run_of_le (p : ascii -> bool) (x : str) : run_of p x <= length x.
Proof.
  induction x as [|a r IH]; simpl; [lia|]. destruct (p a); simpl; lia.
Qed.

Lemma run_of_next (p : ascii -> bool) (x : str) (c : ascii) (t : str) :
  skipn (run_of p x) x = c :: t -> p c = false.
Proof.
  induction x as [|a r IH]; simpl; [discriminate|].
  destruct (p a) eqn:E; [exact IH|].
  intros H. injection H as <- _. exact E.
Qed.

Lemma forallb_skipn (p : ascii -> bool) (n : nat) :
  forall x, forallb p x = true -> forallb p (skipn n x) = true.
Proof.
  induction n as [|n IH]; intros [|a r] H; simpl in *; try assumption.
  apply andb_true_iff in H. now apply IH.
Qed.

(** A greedy repetition of one character class goes on with the whole
    run when the rest of the pattern matches there. *)
Lemma greedy_char_run (ic : bool) (c : cclass) (lo : nat)
  (k : mstate -> option mstate) (res : mstate) :
  forall rest pos caps,
    lo <= run_of (class_matches ic c) rest ->
    k (MState (pos + run_of (class_matches ic c) rest)
         (skipn (run_of (class_matches ic c) rest) rest) caps) = Some res ->
    re_run ic (RRep (RChar c) lo None true) (MState pos rest caps) k
    = Some res.
Proof.
  intros rest pos caps Hlo Hk. cbn [re_run m_rest].
  match goal with
  | |- ?F _ 0 None _ = _ =>
      enough (HF : forall rest fuel count last pos,
                 length rest < fuel -> same_pos last pos = false ->
                 lo <= count + run_of (class_matches ic c) rest ->
                 k (MState (pos + run_of (class_matches ic c) rest)
                      (skipn (run_of (class_matches ic c) rest) rest) caps)
                 = Some res ->
                 F fuel count last (MState pos rest caps) = Some res)
  end.
  { apply HF; [lia | reflexivity | assumption | assumption]. }
  clear rest pos Hlo Hk.
  induction rest as [|a r IH]; intros fuel count last pos Hf Hl Hlo Hk;
    (destruct fuel as [|fuel]; [simpl in Hf; lia|]).
  - cbn -[Nat.leb]. cbn [run_of skipn] in Hk, Hlo.
    replace (pos + 0) with pos in Hk by lia.
    replace (lo <=? count) with true by (symmetry; apply Nat.leb_le; lia).
    rewrite Hk. now destruct (negb _).
  - cbn -[Nat.leb class_matches]. simpl in Hf.
    rewrite Hl, andb_false_r. cbn [negb].
    cbn [run_of skipn] in Hk, Hlo.
    destruct (class_matches ic c a) eqn:Ea.
    + lazymatch goal with
      | |- match ?X with Some r => Some r | None => _ end = _ =>
          replace X with (Some res); [reflexivity|]
      end.
      symmetry. apply (IH fuel (S count) (Some pos) (S pos)); [lia| | |].
      * simpl. apply Nat.eqb_neq. lia.
      * lia.
      * cbn [skipn] in Hk.
        now replace (S pos + run_of (class_matches ic c) r)
          with (pos + S (run_of (class_matches ic c) r)) by lia.
    + replace (pos + 0) with pos in Hk by lia. cbn [skipn] in Hk.
      replace (lo <=? count) with true by (symmetry; apply Nat.leb_le; lia).
      exact Hk.
Qed.

(** A repetition that needs one character of a class fails where the
    text does not begin with one. *)
Lemma char_run_fails (ic : bool) (c : cclass) (lo : nat) (hi : option nat)
  (greedy : bool) (k : mstate -> option mstate) (st : mstate) :
  1 <= lo -> run_of (class_matches ic c) (m_rest st) = 0 ->
  re_run ic (RRep (RChar c) lo hi greedy) st k = None.
Proof.
  intros Hlo Hr. destruct lo as [|lo]; [lia|]. cbn [re_run].
  replace (2 * length (m_rest st) + S lo + 2)
    with (S (2 * length (m_rest st) + lo + 2)) by lia.
  assert (Hc : re_run ic (RChar c) st
                 (fun st' =>
                    (fix loop (fuel count : nat) (last : option nat)
                       (st0 : mstate) {struct fuel} : option mstate :=
                       match fuel with
                       | 0 => None
                       | S fuel' =>
                           let again (_ : unit) :=
                             if allowed count hi
                                && negb ((S lo <=? count)
                                         && same_pos last (m_pos st0))
                             then re_run ic (RChar c) st0
                                    (fun st' =>
                                       loop fuel' (S count)
                                         (Some (m_pos st0)) st')
                             else None in
                           let stop (_ : unit) :=
                             if S lo <=? count then k st0 else None in
                           if greedy
                           then match again tt with
                                | Some res => Some res
                                | None => stop tt
                                end
                           else match stop tt with
                                | Some res => Some res
                                | None => again tt
                                end
                       end) (2 * length (m_rest st) + lo + 2) 1
                      (Some (m_pos st)) st') = None).
  { cbn [re_run]. destruct (m_rest st) as [|a r]; [reflexivity|].
    simpl in Hr. destruct (class_matches ic c a); [discriminate|reflexivity]. }
  cbn beta iota zeta. cbn [re_run] in Hc |- *. rewrite Hc.
  destruct greedy, (allowed 0 hi); reflexivity.
Qed.

Lemma upper_class (a : ascii) :
  class_matches false (CSet false [IRange "A" "Z"]) a = is_upper a.
Proof.
  cbn [class_matches existsb item_matches andb xorb].
  rewrite !orb_false_r. reflexivity.
Qed.

Lemma run_of_ext (p q : ascii -> bool) (x : str) :
  (forall a, p a = q a) -> run_of p x = run_of q x.
Proof.
  intros H. induction x as [|a r IH]; simpl; [reflexivity|].
  now rewrite H, IH.
Qed.

Section SuffixLoop.

Variable g : regex.
Variable k : mstate -> option mstate.

Hypothesis k_end :
  forall pos caps, k (MState pos [] caps) = Some (MState pos [] caps).

Hypothesis g_end :
  forall pos caps k', re_run false g (MState pos [] caps) k' = None.

Hypothesis g_chunk :
  forall a r pos caps k',
    only_suffix_chars (a :: r) = true ->
    exists n,
      n <= length r
      /\ only_suffix_chars (skipn n r) = true
      /\ forall res,
           k' (MState (S pos + n) (skipn n r)
                 ((2, (pos, S pos + n)) :: caps)) = Some res ->
           re_run false g (MState pos (a :: r) caps) k' = Some res.

(** The repetition of the suffix group takes the whole of a text of
    suffix characters, and closes no group but its own. *)
Lemma suffix_loop_takes_all :
  forall rest pos caps,
    only_suffix_chars rest = true ->
    exists pos' caps',
      re_run false (RRep g 0 None true) (MState pos rest caps) k
      = Some (MState pos' [] caps')
      /\ lookup_cap 1 caps' = lookup_cap 1 caps.
Proof.
  intros rest pos caps Hok. cbn [re_run m_rest].
  match goal with
  | |- exists pos' caps', ?F _ 0 None _ = _ /\ _ =>
      enough (HF : forall fuel rest count last pos caps,
                 length rest < fuel -> same_pos last pos = false ->
                 only_suffix_chars rest = true ->
                 exists pos' caps',
                   F fuel count last (MState pos rest caps)
                   = Some (MState pos' [] caps')
                   /\ lookup_cap 1 caps' = lookup_cap 1 caps)
  end.
  { apply HF; [lia | reflexivity | assumption]. }
  clear rest pos caps Hok.
  induction fuel as [|fuel IH]; intros rest count last pos caps Hf Hl Hok;
    [lia|].
  cbn beta iota zeta. cbn [allowed Nat.leb andb m_pos]. rewrite Hl.
  cbn [negb andb].
  destruct rest as [|a r].
  - rewrite g_end, k_end. now exists pos, caps.
  - lazymatch goal with
    | |- exists pos' caps',
           match re_run false g _ ?K with _ => _ end = _ /\ _ =>
        destruct (g_chunk a r pos caps K Hok)
          as (n & Hn & Hok' & Hrun)
    end.
    simpl in Hf.
    destruct (IH (skipn n r) (S count) (Some pos) (S pos + n)
                ((2, (pos, S pos + n)) :: caps))
      as (pos' & caps' & Hres & Hcap).
    + rewrite length_skipn. lia.
    + simpl. apply Nat.eqb_neq. lia.
    + exact Hok'.
    + rewrite (Hrun _ Hres). exists pos', caps'. split; [reflexivity|].
      rewrite Hcap. reflexivity.
Qed.

End SuffixLoop.

Lemma re_run_seq (ic : bool) (r1 r2 : regex) (st : mstate)
  (k : mstate -> option mstate) :
  re_run ic (RSeq r1 r2) st k
  = re_run ic r1 st (fun st' => re_run ic r2 st' k).
Proof. reflexivity. Qed.

Lemma re_run_alt (ic : bool) (r1 r2 : regex) (st : mstate)
  (k : mstate -> option mstate) :
  re_run ic (RAlt r1 r2) st k
  = match re_run ic r1 st k with
    | Some res => Some res
    | None => re_run ic r2 st k
    end.
Proof. reflexivity. Qed.

Lemma re_run_group (ic : bool) (n : nat) (r : regex) (st : mstate)
  (k : mstate -> option mstate) :
  re_run ic (RGroup n r) st k
  = re_run ic r st (fun st' => k (set_cap n (m_pos st, m_pos st') st')).
Proof. reflexivity. Qed.

(** A lazy repetition without a minimum stops at once when the rest of
    the pattern matches there. *)
Lemma lazy_stops_first (ic : bool) (r : regex) (hi : option nat)
  (k : mstate -> option mstate) (st res : mstate) :
  k st = Some res -> re_run ic (RRep r 0 hi false) st k = Some res.
Proof.
  intros H. cbn [re_run].
  replace (2 * length (m_rest st) + 0 + 2)
    with (S (2 * length (m_rest st) + 1)) by lia.
  cbn beta iota zeta. cbn [Nat.leb]. now rewrite H.
Qed.

(** One round of the suffix group: a run of capital letters or of
    digits, and the whitespace after it. *)
Lemma suffix_group_chunk (a : ascii) (r : str) (pos : nat)
  (caps : list (nat * (nat * nat))) (k' : mstate -> option mstate) :
  only_suffix_chars (a :: r) = true ->
  exists n,
    n <= length r
    /\ only_suffix_chars (skipn n r) = true
    /\ forall res,
         k' (MState (S pos + n) (skipn n r)
               ((2, (pos, S pos + n)) :: caps)) = Some res ->
         re_run false
           (RGroup 2
              (RAlt
                 (RSeq (RRep (RChar (CSet false [IRange "A" "Z"])) 1 None true)
                    (RRep (RChar (CItem (ISpace false))) 0 None true))
                 (RSeq (RRep (RChar (CItem (IDigit false))) 1 None true)
                    (RRep (RChar (CItem (ISpace false))) 0 None true))))
           (MState pos (a :: r) caps) k' = Some res.
Proof.
  intros Hok. unfold only_suffix_chars in Hok.
  apply andb_true_iff in Hok. destruct Hok as [Hall Hhd].
  cbn [forallb] in Hall. apply andb_true_iff in Hall.
  destruct Hall as [Ha Hr]. apply negb_true_iff in Hhd.
  unfold suffix_char in Ha. rewrite Hhd, orb_false_r in Ha.
  assert (Hgen : forall c : cclass,
             class_matches false c a = true ->
             exists n,
               n <= length r
               /\ only_suffix_chars (skipn n r) = true
               /\ forall res,
                    k' (MState (S pos + n) (skipn n r)
                          ((2, (pos, S pos + n)) :: caps)) = Some res ->
                    re_run false
                      (RSeq (RRep (RChar c) 1 None true)
                         (RRep (RChar (CItem (ISpace false))) 0 None true))
                      (MState pos (a :: r) caps)
                      (fun st' => k' (set_cap 2 (pos, m_pos st') st'))
                    = Some res).
  { intros c Hc.
    set (p := class_matches false c).
    assert (Hp : p a = true) by exact Hc.
    set (w := class_matches false (CItem (ISpace false))).
    set (n1 := run_of p r).
    set (n2 := run_of w (skipn n1 r)).
    exists (n1 + n2).
    assert (Hle1 : n1 <= length r) by apply run_of_le.
    assert (Hle2 : n2 <= length (skipn n1 r)) by apply run_of_le.
    rewrite length_skipn in Hle2.
    assert (Hsk : skipn (n1 + n2) r = skipn n2 (skipn n1 r))
      by (rewrite skipn_skipn; f_equal; lia).
    split; [lia|]. split.
    - unfold only_suffix_chars. rewrite forallb_skipn by assumption.
      cbn [andb]. rewrite Hsk.
      destruct (skipn n2 (skipn n1 r)) as [|c0 t] eqn:E; [reflexivity|].
      apply negb_true_iff.
      apply (run_of_next w (skipn n1 r) c0 t E).
    - intros res Hk. rewrite re_run_seq.
      apply greedy_char_run.
      + cbn [run_of]. fold p. rewrite Hp. lia.
      + cbn [run_of]. fold p. rewrite Hp. cbn [skipn]. fold n1.
        apply greedy_char_run; [lia|].
        fold w. fold n2. cbn [set_cap m_pos m_rest m_caps].
        rewrite <- Hsk.
        now replace (pos + S n1 + n2) with (S pos + (n1 + n2)) by lia. }
  destruct (is_upper a) eqn:Eu.
  - destruct (Hgen (CSet false [IRange "A" "Z"])) as (n & Hn & Hok' & Hrun).
    { now rewrite upper_class. }
    exists n. split; [assumption|]. split; [assumption|].
    intros res Hk. rewrite re_run_group, re_run_alt.
    cbn [m_pos]. now rewrite (Hrun res Hk).
  - cbn [orb] in Ha.
    destruct (Hgen (CItem (IDigit false))) as (n & Hn & Hok' & Hrun).
    { exact Ha. }
    exists n. split; [assumption|]. split; [assumption|].
    intros res Hk. rewrite re_run_group, re_run_alt, (re_run_seq false).
    rewrite char_run_fails.
    + cbn [m_pos]. exact (Hrun res Hk).
    + lia.
    + cbn [m_rest run_of]. now rewrite upper_class, Eu.
Qed.

Lemma suffix_group_end (pos : nat) (caps : list (nat * (nat * nat)))
  (k' : mstate -> option mstate) :
  re_run false
    (RGroup 2
       (RAlt
          (RSeq (RRep (RChar (CSet false [IRange "A" "Z"])) 1 None true)
             (RRep (RChar (CItem (ISpace false))) 0 None true))
          (RSeq (RRep (RChar (CItem (IDigit false))) 1 None true)
             (RRep (RChar (CItem (ISpace false))) 0 None true))))
    (MState pos [] caps) k' = None.
Proof.
  rewrite re_run_group, re_run_alt, !re_run_seq.
  rewrite !char_run_fails; reflexivity || lia.
Qed.

Lemma compile_title_suffix :
  compile (py "(.*?)([A-Z]+\s*|\d+\s*)*$")
  = Ok (RSeq
          (RSeq (RGroup 1 (RRep (RChar CAny) 0 None false))
             (RRep
                (RGroup 2
                   (RAlt
                      (RSeq
                         (RRep (RChar (CSet false [IRange "A" "Z"])) 1 None
                            true)
                         (RRep (RChar (CItem (ISpace false))) 0 None true))
                      (RSeq
                         (RRep (RChar (CItem (IDigit false))) 1 None true)
                         (RRep (RChar (CItem (ISpace false))) 0 None true))))
                0 None true))
          REol).
Proof. vm_compute. reflexivity. Qed.

(** On a text of suffix characters the pattern of [clean_title_suffix]
    matches with an empty first group: the suffix takes the whole text. *)
Lemma suffix_pattern_takes_all (title : str) :
  only_suffix_chars title = true ->
  exists m,
    re_match false
      (RSeq
          (RSeq (RGroup 1 (RRep (RChar CAny) 0 None false))
             (RRep
                (RGroup 2
                   (RAlt
                      (RSeq
                         (RRep (RChar (CSet false [IRange "A" "Z"])) 1 None
                            true)
                         (RRep (RChar (CItem (ISpace false))) 0 None true))
                      (RSeq
                         (RRep (RChar (CItem (IDigit false))) 1 None true)
                         (RRep (RChar (CItem (ISpace false))) 0 None true))))
                0 None true))
          REol) title = Some m
    /\ group title m 1 = Some [].
Proof.
  intros Hok.
  destruct (suffix_loop_takes_all _
              (fun st => re_run false REol st (fun st' => Some st'))
              ltac:(reflexivity) suffix_group_end suffix_group_chunk
              title 0 [(1, (0, 0))] Hok)
    as (pos' & caps' & Hrun & Hcap).
  exists (RMatch 0 (MState pos' [] caps')). split.
  - unfold re_match, match_at. cbn [skipn andb].
    rewrite !re_run_seq, re_run_group.
    rewrite (lazy_stops_first false (RChar CAny) None _ _
               (MState pos' [] caps')); [reflexivity|].
    cbn [set_cap m_pos m_rest m_caps]. exact Hrun.
  - unfold group. cbn [rm_end m_caps rm_start]. rewrite Hcap. reflexivity.
Qed.

(** X22. [clean_title_suffix] erases a title written in capital letters
    and digits: for every title made of capital letters, digits and
    whitespace that does not begin with whitespace, the result is the
    empty string. *)
Theorem capital_title_is_erased (title : str) :
  only_suffix_chars title = true -> clean_title_suffix title = Ok [].
Proof.
  intros Hok. unfold clean_title_suffix. rewrite compile_title_suffix.
  cbn [bind].
  destruct (suffix_pattern_takes_all title Hok) as (m & -> & ->).
  reflexivity.
Qed.

Lemma capital_title_is_erased_witness :
  clean_title_suffix (py "ANNEX 2  TABLES") = Ok [].
Proof.
  apply (capital_title_is_erased (py "ANNEX 2  TABLES")). reflexivity.
Defined.

Lemma blank_search (config : CleanupConfig) (doc : Document)
  (no_numbering_flag : bool) (toc : list TocEntry)
  (processed_text : dict str) (e : TocEntry) :
  In e toc -> split_ws (toc_title e) = [] ->
  search_and_replace_numbered_titles config doc no_numbering_flag toc
    processed_text = Raise RuntimeError.
Proof.
  intros Hin Hb. unfold search_and_replace_numbered_titles.
  destruct (search_entries_blank_title config doc no_numbering_flag e Hb toc
              processed_text Hin) as [err ->].
  reflexivity.
Qed.

Lemma format_toc_unnumbered (config : CleanupConfig) :
  forall toc flag ftoc,
    format_toc config toc flag = Ok (ftoc, true) ->
    forall item c,
      In item toc -> clean_text config (toc_title item) = Ok c ->
      exists t,
        clean_title_suffix c = Ok t
        /\ In {| toc_level := toc_level item; toc_title := t;
                 toc_page := toc_page item |} ftoc.
Proof.
  induction toc as [|item0 more IH]; intros flag ftoc H item c Hin Hc;
    [destruct Hin|].
  cbn [format_toc] in H.
  apply bind_ok in H. destruct H as (c0 & Hc0 & H).
  apply bind_ok in H. destruct H as (r & Hr & H).
  apply bind_ok in H. destruct H as (t & Ht & H).
  apply bind_ok in H. destruct H as ([rt rf] & Hrest & H).
  injection H as <- ->.
  assert (Hflag : (if is_some (re_match false r c0) then false else flag)
                  = true).
  { destruct (if is_some (re_match false r c0) then false else flag) eqn:E;
      [reflexivity|].
    apply format_toc_flag in Hrest.
    symmetry. apply Hrest. now left. }
  rewrite Hflag in Ht, Hrest.
  destruct Hin as [-> | Hin].
  - rewrite Hc in Hc0. injection Hc0 as <-.
    exists t. split; [assumption | now left].
  - destruct (IH _ _ Hrest item c Hin Hc) as (t' & Ht' & Hin').
    exists t'. split; [assumption | now right].
Qed.

(** X23. An outline with a title in capital letters cannot be processed
    as an outline without numbering: [clean_title_suffix] erases the
    title, the search for its numbered form has no word to look for, and
    [extract_toc] raises [RuntimeError].  It returns only when some title
    of the outline begins with a numbering, and then with
    [no_numbering_flag] false. *)
Theorem capital_title_fails_unnumbered_outline (config : CleanupConfig)
  (doc : Document) (toc : list TocEntry) (processed_text : dict str)
  (item : TocEntry) (c : str) :
  In item toc ->
  clean_text config (toc_title item) = Ok c ->
  only_suffix_chars c = true ->
  extract_toc config doc toc processed_text = Raise RuntimeError
  \/ exists ftoc,
       extract_toc config doc toc processed_text
       = Ok (ftoc, false, processed_text).
Proof.
  intros Hin Hc Hok. unfold extract_toc.
  destruct (format_toc config toc true) as [[ft fl]|err] eqn:E;
    cbn [bind as_runtime_error]; [|now left].
  cbn [fst snd]. destruct fl.
  - left.
    destruct (format_toc_unnumbered config toc true ft E item c Hin Hc)
      as (t & Ht & Hin').
    assert (He : clean_title_suffix c = Ok []).
    { unfold clean_title_suffix. rewrite compile_title_suffix. cbn [bind].
      destruct (suffix_pattern_takes_all c Hok) as (m & -> & ->).
      reflexivity. }
    rewrite He in Ht. injection Ht as <-.
    rewrite (blank_search config doc true ft processed_text _ Hin' eq_refl).
    reflexivity.
  - right. now exists ft.
Qed.

Lemma capital_title_fails_unnumbered_outline_witness :
  extract_toc
    {| special_characters := []; expressions := []; texts_to_remove := [] |}
    {| pages := [py "SUMMARY The report covers"; py "Data sources"] |}
    [{| toc_level := 1; toc_title := py "SUMMARY"; toc_page := 1 |};
     {| toc_level := 1; toc_title := py "Data sources"; toc_page := 2 |}]
    [] = Raise RuntimeError
  \/ exists ftoc,
       extract_toc
         {| special_characters := []; expressions := [];
            texts_to_remove := [] |}
         {| pages := [py "SUMMARY The report covers"; py "Data sources"] |}
         [{| toc_level := 1; toc_title := py "SUMMARY"; toc_page := 1 |};
          {| toc_level := 1; toc_title := py "Data sources"; toc_page := 2 |}]
         [] = Ok (ftoc, false, []).
Proof.
  apply (capital_title_fails_unnumbered_outline _ _ _ _
           {| toc_level := 1; toc_title := py "SUMMARY"; toc_page := 1 |}
           (py "SUMMARY")).
  - left. reflexivity.
  - vm_compute. reflexivity.
  - reflexivity.
Defined.

(** ** The orchestrator: an extractor without the numbering flag *)

Module PipelineLog.
Import Pipeline.

Section Log.

Variable Self : Type.
Variable m : Methods Self.

Ltac run_call :=
  repeat (cbn;
    match goal with
    | |- context [match ?c with _ => _ end] =>
        lazymatch c with
        | context [match _ with _ => _ end] => fail
        | _ =>
            lazymatch type of c with
            | (Res _ * _)%type => destruct c as [[?|?] ?] eqn:?
            end
        end
    end).

Lemma log_grows_trans (a b c : frame Self) :
  log_grows a b -> log_grows b c -> log_grows a c.
Proof.
  intros [l1 H1] [l2 H2]. exists (l1 ++ l2). now rewrite H2, H1, app_assoc.
Qed.

Lemma log_grows_in (fr fr' : frame Self) (msg : str) :
  log_grows fr fr' -> In msg (errors fr) -> In msg (errors fr').
Proof. intros [l ->] H. apply in_or_app. now left. Qed.

Lemma step1_log (fr : frame Self) :
  exists fr', step1 m fr = (Ok tt, fr') /\ log_grows fr fr'.
Proof.
  unfold step1, try_except, mbind, call, logging_error, update, ret.
  run_call; eexists; (split; [reflexivity|]); cbn.
  - exists []. now rewrite app_nil_r.
  - eexists. reflexivity.
Qed.

Lemma populate_log (fr : frame Self) :
  structured_processed_text fr = [] -> leveled_text fr = [] ->
  data_processed_text fr = [] -> data_leveled_text fr = [] ->
  exists fr', populate m fr = (Ok tt, fr') /\ log_grows fr fr'
              /\ data_processed_text fr' = []
              /\ data_leveled_text fr' = [].
Proof.
  intros Hs Hl Hp Hd.
  unfold populate, try_except, mbind, call, read, set_data_metadata,
    set_data_leveled_text, set_data_processed_text, set_data_cleaned_text,
    logging_error, update, ret.
  run_call; eexists; (split; [reflexivity|]); cbn;
    (split; [first [exists []; now rewrite app_nil_r | eexists; reflexivity]
            |]);
    auto.
Qed.

Lemma step8_log (out : list (str * field)) (fr : frame Self) :
  exists fr', step8 m out fr = (Ok tt, fr') /\ log_grows fr fr'.
Proof.
  unfold step8, try_except, call, logging_error, update.
  run_call; try match goal with a : unit |- _ => destruct a end;
    eexists; (split; [reflexivity|]); cbn.
  - exists []. now rewrite app_nil_r.
  - eexists. reflexivity.
Qed.

Hypothesis flag_unset : forall s, no_numbering_flag m s = None.

Lemma steps_2_to_7_unset (fr : frame Self) :
  exists fr',
    mbind (step2 m) (fun _ =>
      mbind (step3 m) (fun _ =>
        mbind (step4 m) (fun _ =>
          mbind (step5 m) (fun _ =>
            mbind (step6 m) (fun _ => step7 m))))) fr
    = (Ok tt, fr')
    /\ errors fr'
       = errors fr ++ [py "Step 2 failed"; py "Step 4 failed";
                       py "Step 6 failed"]
    /\ structured_processed_text fr' = []
    /\ leveled_text fr' = []
    /\ data_processed_text fr' = data_processed_text fr
    /\ data_leveled_text fr' = data_leveled_text fr.
Proof.
  unfold step2, step3, step4, step5, step6, step7, try_except, mbind, call,
    attribute, read, set_structured, set_leveled, logging_error, update, ret.
  cbn. rewrite !flag_unset. cbn. rewrite !flag_unset. cbn.
  rewrite !flag_unset. cbn.
  eexists. split; [reflexivity|]. cbn. rewrite <- !app_assoc.
  repeat split.
Qed.

(** X24. [no_numbering_flag] is set by [extract_toc] only.  On an
    extractor that never has it, steps 2, 4 and 6 each log an error,
    nothing is structured, and [extract_all] still returns its record,
    with [leveled_text] and [processed_text] empty. *)
Theorem unset_flag_structures_nothing (s : Self) :
  exists md c fr',
    extract_all m s
    = (Ok [(py "metadata", FMetadata md); (py "leveled_text", FLeveled []);
           (py "processed_text", FProcessed []);
           (py "cleaned_text", FCleaned c)], fr')
    /\ In (py "Step 2 failed") (errors fr')
    /\ In (py "Step 4 failed") (errors fr')
    /\ In (py "Step 6 failed") (errors fr').
Proof.
  destruct (step1_log (initial s)) as (fr1 & E1 & G1).
  destruct (steps_2_to_7_unset fr1) as (fr7 & E7 & Herr & Hs & Hl & Hp & Hd).
  assert (D1 : data_processed_text fr1 = [] /\ data_leveled_text fr1 = []).
  { destruct (PipelineFacts.step1_spec Self m (initial s))
      as (fr1' & E1' & _ & Hb & Hc & _).
    rewrite E1 in E1'. injection E1' as <-. now split. }
  destruct D1 as [Dp Dl]. rewrite Dp in Hp. rewrite Dl in Hd.
  destruct (populate_log fr7 Hs Hl Hp Hd) as (fr8 & E8 & G8 & Hp8 & Hd8).
  destruct (step8_log (ordered_data fr8) fr8) as (fr' & E9 & G9).
  exists (data_metadata fr8), (data_cleaned_text fr8), fr'.
  split.
  - unfold extract_all, extract_all_body.
    unfold mbind at 1. unfold try_except at 1.
    unfold main_blocks. unfold mbind at 1. rewrite E1.
    unfold mbind at 1 in E7.
    match goal with
    | |- context [mbind (step2 m) ?k fr1] =>
        replace (mbind (step2 m) k fr1) with (populate m fr7)
    end.
    + rewrite E8. unfold mbind, read. rewrite E9. unfold ret, ordered_data.
      now rewrite Hp8, Hd8.
    + symmetry. revert E7.
      unfold mbind.
      destruct (step2 m fr1) as [[[]|] f2]; try discriminate.
      destruct (step3 m f2) as [[[]|] f3]; try discriminate.
      destruct (step4 m f3) as [[[]|] f4]; try discriminate.
      destruct (step5 m f4) as [[[]|] f5]; try discriminate.
      destruct (step6 m f5) as [[[]|] f6]; try discriminate.
      intros ->. reflexivity.
  - assert (G : log_grows fr7 fr')
      by (eapply log_grows_trans; eauto).
    repeat split; apply (log_grows_in fr7 fr' _ G); rewrite Herr;
      apply in_or_app; right; simpl; auto.
Qed.

End Log.
End PipelineLog.

Lemma unset_flag_structures_nothing_witness :
  exists md c fr',
    Pipeline.extract_all
      (unstructured_extractor [(py "title", py "Report")] (py "whole text")) tt
    = (Ok [(py "metadata", FMetadata md); (py "leveled_text", FLeveled []);
           (py "processed_text", FProcessed []);
           (py "cleaned_text", FCleaned c)], fr')
    /\ In (py "Step 2 failed") (Pipeline.errors fr')
    /\ In (py "Step 4 failed") (Pipeline.errors fr')
    /\ In (py "Step 6 failed") (Pipeline.errors fr').
Proof.
  apply (PipelineLog.unset_flag_structures_nothing unit
           (unstructured_extractor [(py "title", py "Report")]
              (py "whole text"))).
  intros s. reflexivity.
Defined.

(** ** A repaired numbering follows its predecessor *)

Lemma list_assign_firstn {A : Type} (v : A) :
  forall (l : list A) (i : nat) (l' : list A),
    list_assign l i v = Ok l' -> firstn i l' = firstn i l.
Proof.
  induction l as [|a r IH]; intros [|i] l' H; simpl in H; try discriminate.
  - reflexivity.
  - apply bind_ok in H. destruct H as (r' & Hr & H). injection H as <-.
    simpl. f_equal. now apply IH.
Qed.

Lemma firstn_pointwise (n : nat) :
  forall l l' : list str,
    length l' = length l ->
    (forall j, j < n -> nth j l' [] = nth j l []) ->
    firstn n l' = firstn n l.
Proof.
  induction n as [|n IH]; intros l l' Hlen Hn; [reflexivity|].
  destruct l as [|a r], l' as [|a' r']; try discriminate; [reflexivity|].
  simpl. f_equal.
  - apply (Hn 0). lia.
  - apply IH; [simpl in Hlen; lia|].
    intros j Hj. apply (Hn (S j)). lia.
Qed.

Lemma child_in_possibilities (parts : list N) :
  length parts < 4 ->
  In (render_numbering (parts ++ [1%N])) (possibilities parts).
Proof.
  intros H. unfold possibilities. apply in_or_app. right.
  apply in_or_app. left.
  replace (length parts <? 4) with true
    by (symmetry; now apply Nat.ltb_lt).
  apply in_flat_map. exists 1%N. split; [|now left].
  apply in_range_iff. lia.
Qed.

Lemma increment_in_possibilities (parts : list N) :
  In (render_numbering (init_parts parts ++ [(last_part parts + 1)%N]))
    (possibilities parts).
Proof. unfold possibilities. now left. Qed.

Lemma reconstruct_one_follows (l : list str) (idx : nat) (l' : list str) :
  reconstruct_one l idx = Ok l' -> l' = l \/ follows_predecessor l' idx.
Proof.
  unfold reconstruct_one. intros H.
  destruct (List.find nonblank (rev (firstn idx l))) as [pv|] eqn:Ep;
    [|left; congruence].
  destruct (List.find nonblank (skipn (idx + 1) l)) as [nv|];
    [|left; congruence].
  apply bind_ok in H. destruct H as (prev_parts & Hpp & H).
  apply bind_ok in H. destruct H as (next_parts & _ & H).
  right.
  assert (Hgen : forall v,
             In v (possibilities prev_parts) ->
             list_assign l idx v = Ok l' -> follows_predecessor l' idx).
  { intros v Hv Ha. exists pv. eexists.
    rewrite (list_assign_firstn v l idx l' Ha).
    split; [exact Ep|].
    split; [apply (generate_next_numberings_eq pv prev_parts Hpp)|].
    destruct (@list_assign_spec str [] v l idx l' Ha) as (_ & _ & -> & _).
    apply mem_str_In.
    now apply (in_sorted_set str_eqb str_ltb str_eqb_eq). }
  destruct ((length prev_parts =? 1)
            && N.eqb (nth 0 next_parts 0%N) (nth 0 prev_parts 0%N)) eqn:E1.
  - apply andb_true_iff in E1. destruct E1 as [E1 _].
    apply Nat.eqb_eq in E1. rewrite E1 in H. cbn [Nat.ltb Nat.leb] in H.
    revert H. apply Hgen. apply child_in_possibilities. lia.
  - destruct ((length prev_parts =? length next_parts)
              && list_N_eqb (init_parts prev_parts) (init_parts next_parts));
      (revert H; apply Hgen; apply increment_in_possibilities).
Qed.

Lemma reconstruct_one_keeps_follows (l : list str) (idx' idx : nat)
  (l' : list str) :
  reconstruct_one l idx' = Ok l' -> idx < idx' ->
  follows_predecessor l idx -> follows_predecessor l' idx.
Proof.
  intros H Hlt (pv & cands & Hf & Hg & Hm).
  destruct (reconstruct_one_spec l idx' l' H) as (Hlen & Hnth & _).
  exists pv, cands.
  rewrite (firstn_pointwise idx l l' Hlen)
    by (intros j Hj; apply Hnth; lia).
  rewrite (Hnth idx) by lia. auto.
Qed.

Lemma reconstruct_keeps_follows (idx : nat) :
  forall idxs l l',
    reconstruct l idxs = Ok l' ->
    (forall j, In j idxs -> idx < j) ->
    (follows_predecessor l idx -> follows_predecessor l' idx)
    /\ nth idx l' [] = nth idx l [].
Proof.
  induction idxs as [|i more IH]; intros l l' H Hgt; cbn [reconstruct] in H.
  - injection H as <-. now split.
  - apply bind_ok in H. destruct H as (l1 & H1 & H).
    destruct (IH l1 l' H) as [Hk Hn]; [intros j Hj; apply Hgt; now right|].
    assert (Hi : idx < i) by (apply Hgt; now left).
    destruct (reconstruct_one_spec l i l1 H1) as (_ & Hnth & _).
    split.
    + intros Hf. apply Hk. now apply (reconstruct_one_keeps_follows l i).
    + rewrite Hn. apply Hnth. lia.
Qed.

Lemma insert_sorted_in (a c : nat) (l : list nat) :
  In c (insert_sorted Nat.eqb Nat.ltb a l) -> c = a \/ In c l.
Proof.
  induction l as [|d r IH]; cbn [insert_sorted]; intros Hc.
  - destruct Hc as [<- | []]. now left.
  - destruct (Nat.eqb a d); [now right|].
    destruct (Nat.ltb a d); [destruct Hc as [<- | Hc]; auto|].
    destruct Hc as [<- | Hc]; [right; now left|].
    destruct (IH Hc) as [-> | Hr]; [now left | right; now right].
Qed.

Lemma insert_sorted_ascending (a : nat) (l : list nat) :
  ascending l -> ascending (insert_sorted Nat.eqb Nat.ltb a l).
Proof.
  induction l as [|b r IH]; cbn [insert_sorted ascending].
  - intros _. split; [constructor | exact I].
  - intros [Hb Hs].
    destruct (Nat.eqb a b) eqn:Eab; [now split|].
    destruct (Nat.ltb a b) eqn:Elt.
    + apply Nat.ltb_lt in Elt. cbn [ascending]. split; [|now split].
      constructor; [assumption|].
      eapply Forall_impl; [|exact Hb]. intros c Hc. lia.
    + apply Nat.ltb_ge in Elt. apply Nat.eqb_neq in Eab.
      cbn [ascending]. split; [|now apply IH].
      apply Forall_forall. intros c Hc.
      destruct (insert_sorted_in a c r Hc) as [-> | Hin]; [lia|].
      now apply (proj1 (Forall_forall _ _) Hb).
Qed.

Lemma sorted_set_ascending (l : list nat) :
  ascending (sorted_set Nat.eqb Nat.ltb l).
Proof.
  unfold sorted_set.
  assert (H : forall acc, ascending acc ->
                ascending
                  (fold_left
                     (fun acc a => insert_sorted Nat.eqb Nat.ltb a acc) l acc)).
  { induction l as [|a r IH]; intros acc Hacc; [exact Hacc|].
    simpl. apply IH. now apply insert_sorted_ascending. }
  apply H. exact I.
Qed.

Lemma reconstruct_follows :
  forall idxs l l',
    ascending idxs ->
    reconstruct l idxs = Ok l' ->
    forall idx, In idx idxs -> nth idx l' [] <> nth idx l [] ->
      follows_predecessor l' idx.
Proof.
  induction idxs as [|i more IH]; intros l l' Hs H idx Hin Hne;
    [destruct Hin|].
  cbn [reconstruct] in H. apply bind_ok in H. destruct H as (l1 & H1 & H).
  destruct Hs as [Hgt Hs'].
  assert (Hgt' : forall j, In j more -> i < j)
    by (intros j Hj; now apply (proj1 (Forall_forall _ _) Hgt)).
  destruct Hin as [<- | Hin].
  - destruct (reconstruct_keeps_follows i more l1 l' H Hgt') as [Hk Hn].
    apply Hk. destruct (reconstruct_one_follows l i l1 H1) as [-> | Hf];
      [|exact Hf].
    now rewrite Hn in Hne.
  - apply (IH l1 l' Hs' H idx Hin).
    destruct (reconstruct_one_spec l i l1 H1) as (_ & Hnth & _).
    rewrite (Hnth idx); [assumption|].
    specialize (Hgt' idx Hin). lia.
Qed.

(** X25. In [find_and_replace_numberings], every numbering that the
    reconstruction has changed is a logical successor of the numbering
    before it: it is among the candidates that
    [generate_next_numberings] gives for the nearest non-blank numbering
    before it in [reconstructed_numberings]. *)
Theorem repaired_numbering_follows_its_predecessor (V : Type)
  (data out : dict V) :
  find_and_replace_numberings data = Ok out ->
  let numberings := numberings_of (keys data) in
  exists flagged reconstructed,
    non_logical_indexes numberings = Ok flagged
    /\ reconstruct numberings flagged = Ok reconstructed
    /\ forall idx,
         nth idx reconstructed [] <> nth idx numberings [] ->
         follows_predecessor reconstructed idx.
Proof.
  intros H numberings. unfold find_and_replace_numberings in H.
  fold numberings in H.
  apply bind_ok in H. destruct H as (flagged & Hf & H).
  apply bind_ok in H. destruct H as (rec & Hr & _).
  exists flagged, rec. split; [assumption|]. split; [assumption|].
  intros idx Hne.
  assert (Hs : ascending flagged).
  { unfold non_logical_indexes in Hf.
    apply bind_ok in Hf. destruct Hf as (fl & _ & Hf). injection Hf as <-.
    apply sorted_set_ascending. }
  apply (reconstruct_follows flagged numberings rec Hs Hr idx); [|exact Hne].
  destruct (reconstruct_spec flagged numberings rec) as (_ & _ & Hin);
    [|exact Hr | now apply Hin].
  intros j Hj.
  now apply (non_logical_indexes_nonblank numberings flagged Hf).
Qed.

Lemma repaired_numbering_follows_its_predecessor_witness :
  let data := [(py "1. Intro", 10); (py "1.1. Background", 11);
               (py "5.7. Oops", 12); (py "1.3. Method", 13)] in
  let numberings := numberings_of (keys data) in
  exists flagged reconstructed,
    non_logical_indexes numberings = Ok flagged
    /\ reconstruct numberings flagged = Ok reconstructed
    /\ forall idx,
         nth idx reconstructed [] <> nth idx numberings [] ->
         follows_predecessor reconstructed idx.
Proof.
  intros data.
  apply (repaired_numbering_follows_its_predecessor nat data
           [(py "1. Intro", 10); (py "1.1. Background", 11);
            (py "1.2. Oops", 12); (py "1.3. Method", 13)]).
  vm_compute. reflexivity.
Defined.

(** ** A numbering that does not parse *)

Lemma parse_numbering_error (x : str) (e : exn) :
  parse_numbering x = Raise e -> e = ValueError.
Proof.
  unfold parse_numbering. generalize (split_on "." (strip_dots x)).
  intros l. revert e. induction l as [|a l IH]; intros e H; simpl in H;
    [discriminate|].
  unfold int_of_str in H at 1.
  destruct (NilZero.uint_of_string (string_of_list_ascii a));
    cbn [bind] in H; [|congruence].
  destruct (mapM int_of_str l) eqn:E; cbn [bind] in H; [discriminate|].
  injection H as <-. now apply IH.
Qed.

Lemma scan_from_unparsed (resume : list str -> nat -> Res (list nat))
  (current_numbering : str) :
  parse_numbering current_numbering = Raise ValueError ->
  forall r j,
    existsb nonblank r = true ->
    scan_from resume current_numbering r j = Raise ValueError.
Proof.
  intros Hp. induction r as [|n r IH]; intros j Hex; [discriminate|].
  cbn [scan_from]. cbn [existsb] in Hex. unfold nonblank at 1 in Hex.
  destruct (str_eqb n []); cbn [negb orb] in Hex; [now apply IH|].
  unfold generate_next_numberings. rewrite Hp. reflexivity.
Qed.

(** X26. A first title whose numbering does not parse (two dots in a
    row, as in ["1..2 Scope"]) makes [find_and_replace_numberings] raise
    [ValueError] as soon as a later title carries a numbering: the
    candidates are generated from it and nothing catches the error. *)
Theorem unparsed_numbering_stops_the_repair (V : Type) (data : dict V)
  (key : str) (rest : list str) :
  keys data = key :: rest ->
  key_numbering key <> [] ->
  (forall parts, parse_numbering (key_numbering key) <> Ok parts) ->
  existsb nonblank (numberings_of rest) = true ->
  find_and_replace_numberings data = Raise ValueError.
Proof.
  intros Hk Hn Hp Hex. unfold find_and_replace_numberings.
  rewrite Hk. cbn [numberings_of map]. fold (numberings_of rest).
  assert (Hpe : parse_numbering (key_numbering key) = Raise ValueError).
  { destruct (parse_numbering (key_numbering key)) as [parts|e] eqn:E.
    - now destruct (Hp parts).
    - now rewrite (parse_numbering_error _ e E). }
  unfold non_logical_indexes. cbn [validate_from].
  destruct (numberings_of rest) as [|n r] eqn:Er; [discriminate|].
  replace (str_eqb (key_numbering key) []) with false
    by (symmetry; destruct (str_eqb (key_numbering key) []) eqn:E;
        [apply str_eqb_eq in E; contradiction | reflexivity]).
  rewrite (scan_from_unparsed validate_from _ Hpe (n :: r) 1 Hex).
  reflexivity.
Qed.

Lemma unparsed_numbering_stops_the_repair_witness :
  find_and_replace_numberings
    [(py "1..2 Scope", 10); (py "Foreword", 11); (py "2. Data", 12)]
  = Raise ValueError.
Proof.
  apply (unparsed_numbering_stops_the_repair nat
           [(py "1..2 Scope", 10); (py "Foreword", 11); (py "2. Data", 12)]
           (py "1..2 Scope") [py "Foreword"; py "2. Data"]).
  - reflexivity.
  - vm_compute. discriminate.
  - intros parts. vm_compute. discriminate.
  - vm_compute. reflexivity.
Defined.

(** ** Titles of the form [N. Text] *)

Lemma re_run_bol (ic : bool) (st : mstate) (k : mstate -> option mstate) :
  re_run ic RBol st k = if m_pos st =? 0 then k st else None.
Proof. reflexivity. Qed.

Lemma re_run_char (ic : bool) (c : cclass) (st : mstate)
  (k : mstate -> option mstate) :
  re_run ic (RChar c) st k
  = match m_rest st with
    | a :: rest =>
        if class_matches ic c a
        then k (MState (S (m_pos st)) rest (m_caps st))
        else None
    | [] => None
    end.
Proof. reflexivity. Qed.

(** A greedy repetition without a minimum goes on with the rest of the
    pattern where its body cannot match. *)
Lemma rep_body_fails (ic : bool) (g : regex) (hi : option nat)
  (k : mstate -> option mstate) (st : mstate) :
  (forall K, re_run ic g st K = None) ->
  re_run ic (RRep g 0 hi true) st k = k st.
Proof.
  intros H. cbn [re_run].
  replace (2 * length (m_rest st) + 0 + 2)
    with (S (2 * length (m_rest st) + 1)) by lia.
  cbn beta iota zeta. rewrite H. cbn [Nat.leb].
  now destruct (allowed 0 hi && negb (true && same_pos None (m_pos st))).
Qed.

(** An optional character is taken when it is there and the rest of the
    pattern matches after it. *)
Lemma optional_char_taken (ic : bool) (c : cclass)
  (k : mstate -> option mstate) (a : ascii) (rest : str) (pos : nat)
  (caps : list (nat * (nat * nat))) (res : mstate) :
  class_matches ic c a = true ->
  k (MState (S pos) rest caps) = Some res ->
  re_run ic (RRep (RChar c) 0 (Some 1) true) (MState pos (a :: rest) caps) k
  = Some res.
Proof.
  intros Hc Hk. cbn [re_run m_rest length].
  replace (2 * S (length rest) + 0 + 2)
    with (S (S (2 * length rest + 2))) by lia.
  cbn -[Nat.mul]. rewrite Hc. cbn -[Nat.mul]. now rewrite Hk.
Qed.

Lemma run_of_app (p : ascii -> bool) (x y : str) :
  forallb p x = true -> run_of p (x ++ y) = length x + run_of p y.
Proof.
  induction x as [|a x IH]; intros H; [reflexivity|].
  simpl in H. apply andb_true_iff in H. destruct H as [Ha Hx].
  simpl. now rewrite Ha, IH.
Qed.

Lemma run_of_all (p : ascii -> bool) (x : str) :
  forallb p x = true -> run_of p x = length x.
Proof.
  intros H. rewrite <- (app_nil_r x) at 1. rewrite run_of_app by assumption.
  simpl. lia.
Qed.

Lemma skipn_app_exact {A : Type} (x y : list A) :
  skipn (length x) (x ++ y) = y.
Proof. induction x; simpl; auto. Qed.

Lemma firstn_app_exact {A : Type} (x y : list A) :
  firstn (length x) (x ++ y) = x.
Proof. induction x; simpl; [reflexivity | now f_equal]. Qed.

Lemma strip_trimmed (x : str) : trimmed x -> strip x = x.
Proof.
  intros [Hf Hl]. unfold strip, strip_by, rstrip_by, lstrip_by.
  assert (E1 : drop_while is_space x = x).
  { destruct x as [|c r]; [reflexivity|]. simpl.
    now rewrite (Hf c r eq_refl). }
  rewrite E1.
  assert (E2 : drop_while is_space (rev x) = rev x).
  { destruct (rev x) as [|c r] eqn:E; [reflexivity|]. simpl.
    now rewrite (Hl c r eq_refl). }
  rewrite E2. apply rev_involutive.
Qed.

Lemma last_upper_from_none (x : str) (i : nat) :
  forallb (fun c => negb (is_upper c)) x = true -> last_upper_from x i = None.
Proof.
  revert i. induction x as [|a r IH]; intros i H; [reflexivity|].
  simpl in H. apply andb_true_iff in H. destruct H as [Ha Hr].
  cbn [last_upper_from]. rewrite IH by assumption.
  apply negb_true_iff in Ha. now rewrite Ha.
Qed.

Lemma last_upper_from_app (a b : str) (u : ascii) :
  is_upper u = true ->
  forallb (fun c => negb (is_upper c)) b = true ->
  forall i, last_upper_from (a ++ u :: b) i = Some (i + length a).
Proof.
  intros Hu Hb. induction a as [|c a IH]; intros i.
  - cbn [app last_upper_from length]. rewrite last_upper_from_none, Hu
      by assumption.
    f_equal. lia.
  - cbn [app last_upper_from length]. rewrite IH. f_equal. lia.
Qed.

(** The text of a title cut at its last capital letter. *)
Lemma cut_at_last_capital (c : ascii) (a : str) (u d : ascii) (b : str) :
  is_upper u = true ->
  is_upper d = false ->
  forallb (fun x => negb (is_upper x)) b = true ->
  Ascii.eqb d " " = false ->
  cut_at_last_upper ((c :: a) ++ u :: d :: b) = c :: a.
Proof.
  intros Hu Hd Hb Hsp. unfold cut_at_last_upper.
  rewrite (last_upper_from_app (c :: a) (d :: b) u Hu)
    by (simpl; now rewrite Hd, Hb).
  cbn [Nat.add length Nat.eqb].
  replace (nth_error ((c :: a) ++ u :: d :: b) (S (length a + 1)))
    with (Some d).
  - cbv beta iota. rewrite Hsp. cbn [negb].
    apply (firstn_app_exact (c :: a) (u :: d :: b)).
  - symmetry.
    replace (S (length a + 1)) with (length (c :: a) + 1) by reflexivity.
    rewrite nth_error_app2 by lia.
    replace (length (c :: a) + 1 - length (c :: a)) with 1 by lia.
    reflexivity.
Qed.

Lemma digit_class (a : ascii) :
  class_matches false (CItem (IDigit false)) a = is_digit a.
Proof. reflexivity. Qed.

Lemma space_class (a : ascii) :
  class_matches false (CItem (ISpace false)) a = is_space a.
Proof. reflexivity. Qed.

Lemma dot_class (a : ascii) :
  class_matches false (CItem (IChar ".")) a = Ascii.eqb a ".".
Proof. reflexivity. Qed.

Lemma any_class (a : ascii) :
  class_matches false CAny a = negb (Ascii.eqb a line_feed).
Proof. reflexivity. Qed.

Lemma compile_process_string_ast :
  compile (py "^(\d+(?:\.\d+)*\.*)(.*)$")
  = Ok (RSeq
          (RSeq
             (RSeq RBol
                (RGroup 1
                   (RSeq
                      (RSeq
                         (RRep (RChar (CItem (IDigit false))) 1 None true)
                         (RRep
                            (RSeq (RChar (CItem (IChar ".")))
                               (RRep (RChar (CItem (IDigit false))) 1 None
                                  true))
                            0 None true))
                      (RRep (RChar (CItem (IChar "."))) 0 None true))))
             (RGroup 2 (RRep (RChar CAny) 0 None true)))
          REol).
Proof. vm_compute. reflexivity. Qed.

(** The two groups of the pattern of [process_string] on a title
    [N.] followed by a text that begins with neither a dot nor a
    digit. *)
Lemma process_string_groups (digits : str) (t : ascii) (text : str) :
  digits <> [] ->
  forallb is_digit digits = true ->
  is_digit t = false -> Ascii.eqb t "." = false ->
  forallb (fun c => negb (Ascii.eqb c line_feed)) (t :: text) = true ->
  exists m,
    re_match false
      (RSeq
         (RSeq
            (RSeq RBol
               (RGroup 1
                  (RSeq
                     (RSeq
                        (RRep (RChar (CItem (IDigit false))) 1 None true)
                        (RRep
                           (RSeq (RChar (CItem (IChar ".")))
                              (RRep (RChar (CItem (IDigit false))) 1 None
                                 true))
                           0 None true))
                     (RRep (RChar (CItem (IChar "."))) 0 None true))))
            (RGroup 2 (RRep (RChar CAny) 0 None true)))
         REol)
      (digits ++ "."%char :: t :: text) = Some m
    /\ group (digits ++ "."%char :: t :: text) m 1
       = Some (digits ++ ["."%char])
    /\ group (digits ++ "."%char :: t :: text) m 2 = Some (t :: text).
Proof.
  intros Hne Hd Ht Htd Hnl.
  set (n := length digits).
  set (title := digits ++ "."%char :: t :: text).
  assert (Hn : 1 <= n)
    by (unfold n; destruct digits; [contradiction | simpl; lia]).
  assert (Hrun1 : run_of (class_matches false (CItem (IDigit false))) title
                  = n).
  { unfold title, n. rewrite run_of_app by exact Hd. simpl. lia. }
  assert (Hskip1 : skipn n title = "."%char :: t :: text)
    by apply skipn_app_exact.
  assert (Hrun2 : run_of (class_matches false (CItem (IChar ".")))
                    ("."%char :: t :: text) = 1).
  { cbn [run_of]. rewrite !dot_class, Htd. reflexivity. }
  assert (Hrun3 : run_of (class_matches false CAny) (t :: text)
                  = S (length text)).
  { rewrite run_of_all; [reflexivity|]. exact Hnl. }
  exists (RMatch 0
            (MState (n + 1 + S (length text)) []
               [(2, (n + 1, n + 1 + S (length text))); (1, (0, n + 1))])).
  split; [|split].
  - unfold re_match, match_at. cbn [skipn andb]. fold title.
    rewrite !re_run_seq, re_run_bol. cbn [m_pos Nat.eqb].
    rewrite re_run_group, !re_run_seq.
    rewrite (greedy_char_run false (CItem (IDigit false)) 1 _
               (MState (n + 1 + S (length text)) []
                  [(2, (n + 1, n + 1 + S (length text))); (1, (0, n + 1))]));
      [reflexivity | rewrite Hrun1; exact Hn |].
    rewrite Hrun1, Hskip1. cbn [Nat.add].
    rewrite rep_body_fails.
    2:{ intros K. rewrite re_run_seq, re_run_char. cbn [m_rest].
        rewrite dot_class. cbn [Ascii.eqb Bool.eqb andb].
        apply char_run_fails; [lia|]. cbn [m_rest run_of].
        now rewrite digit_class, Ht. }
    apply greedy_char_run; [lia|].
    rewrite Hrun2. cbn [skipn set_cap m_pos m_rest m_caps].
    rewrite re_run_group. apply greedy_char_run; [lia|].
    cbn [set_cap m_pos m_rest m_caps]. rewrite Hrun3.
    replace (skipn (S (length text)) (t :: text)) with (@nil ascii)
      by (symmetry; apply skipn_all).
    cbn [set_cap m_pos m_rest m_caps re_run andb].
    reflexivity.
  - unfold group. cbn [rm_end rm_start m_caps lookup_cap Nat.eqb skipn].
    replace (n + 1 - 0) with (length (digits ++ ["."%char]))
      by (unfold n; rewrite length_app; simpl; lia).
    unfold title.
    replace (digits ++ "."%char :: t :: text)
      with ((digits ++ ["."%char]) ++ t :: text)
      by (now rewrite <- app_assoc).
    now rewrite firstn_app_exact.
  - unfold group. cbn [rm_end rm_start m_caps lookup_cap Nat.eqb].
    replace (n + 1) with (length (digits ++ ["."%char]))
      by (unfold n; rewrite length_app; simpl; lia).
    unfold title.
    replace (digits ++ "."%char :: t :: text)
      with ((digits ++ ["."%char]) ++ t :: text)
      by (now rewrite <- app_assoc).
    rewrite skipn_app_exact.
    replace (length (digits ++ ["."%char]) + S (length text)
             - length (digits ++ ["."%char]))
      with (length (t :: text)) by (simpl; lia).
    now rewrite firstn_all.
Qed.

Lemma digit_not_whitespace (c : ascii) :
  is_digit c = true -> is_space c = false.
Proof.
  destruct c as [[] [] [] [] [] [] [] []]; vm_compute; intros H;
    (reflexivity || discriminate H).
Qed.

Lemma trimmed_ends (c : ascii) (x : str) :
  is_space c = false -> is_space (last (c :: x) c) = false ->
  trimmed (c :: x).
Proof.
  intros Hc Hl. split.
  - intros c' r E. now injection E as <- _.
  - intros c' r E.
    assert (El : last (c :: x) c = c').
    { rewrite <- (rev_involutive (c :: x)), E. cbn [rev].
      now rewrite last_last. }
    now rewrite <- El.
Qed.

Lemma last_is_hd_rev (x : str) (c : ascii) : last x c = hd c (rev x).
Proof.
  induction x as [|a l _] using rev_ind; [reflexivity|].
  now rewrite last_last, rev_app_distr.
Qed.

Lemma last_app_cons (x : str) (d : ascii) (y : str) (c : ascii) :
  last (x ++ d :: y) c = last (d :: y) d.
Proof.
  rewrite !last_is_hd_rev, rev_app_distr.
  destruct (rev (d :: y)) as [|e r] eqn:E; [|reflexivity].
  apply (f_equal (@length ascii)) in E. rewrite length_rev in E.
  discriminate.
Qed.

Lemma strip_numbering_token (digits : str) :
  digits <> [] -> forallb is_digit digits = true ->
  strip (digits ++ ["."%char]) = digits ++ ["."%char].
Proof.
  intros Hne Hd. destruct digits as [|d0 ds]; [contradiction|].
  apply strip_trimmed. apply (trimmed_ends d0 (ds ++ ["."%char])).
  - cbn [forallb] in Hd. apply andb_true_iff in Hd. destruct Hd as [Hd0 _].
    now apply digit_not_whitespace.
  - change (d0 :: (ds ++ ["."%char])) with ((d0 :: ds) ++ "."%char :: []).
    now rewrite last_app_cons.
Qed.

(** X27. [process_string] cuts the last capitalised word of a title:
    for a title [N. text] whose text has a last capital letter that is
    not its first character and is followed by a character other than a
    space, the result is the title up to that capital letter (so
    ["1. Data Quality"] becomes ["1. Data "]). *)
Theorem last_capital_word_is_cut (digits : str) (c : ascii) (a : str)
  (u d : ascii) (b : str) :
  digits <> [] ->
  forallb is_digit digits = true ->
  is_space c = false ->
  is_upper u = true ->
  is_upper d = false -> Ascii.eqb d " " = false ->
  forallb (fun x => negb (is_upper x)) b = true ->
  is_space (last (d :: b) d) = false ->
  forallb (fun x => negb (Ascii.eqb x line_feed)) ((c :: a) ++ u :: d :: b)
  = true ->
  process_string (digits ++ py ". " ++ (c :: a) ++ u :: d :: b)
  = Ok (digits ++ py ". " ++ c :: a).
Proof.
  intros Hne Hd Hc Hu Hdu Hds Hb Hl Hnl.
  unfold process_string. rewrite compile_process_string_ast. cbn [bind].
  change (digits ++ py ". " ++ (c :: a) ++ u :: d :: b)
    with (digits ++ "."%char :: " "%char :: ((c :: a) ++ u :: d :: b)).
  destruct (process_string_groups digits " "%char
              ((c :: a) ++ u :: d :: b) Hne Hd eq_refl eq_refl)
    as (m & -> & -> & ->).
  { cbn [forallb]. now rewrite Hnl. }
  cbn [of_option bind].
  pose proof (strip_numbering_token digits Hne Hd) as Hn.
  assert (Ht : strip (" "%char :: (c :: a) ++ u :: d :: b)
               = (c :: a) ++ u :: d :: b).
  { change (strip (" "%char :: (c :: a) ++ u :: d :: b))
      with (strip ((c :: a) ++ u :: d :: b)).
    apply strip_trimmed.
    change ((c :: a) ++ u :: d :: b) with (c :: (a ++ u :: d :: b)).
    apply trimmed_ends; [exact Hc|].
    replace (a ++ u :: d :: b) with ((a ++ [u]) ++ d :: b)
      by (now rewrite <- app_assoc).
    change (c :: (a ++ [u]) ++ d :: b) with ((c :: a ++ [u]) ++ d :: b).
    now rewrite last_app_cons. }
  rewrite Hn, Ht, (cut_at_last_capital c a u d b Hu Hdu Hb Hds).
  unfold space. rewrite <- !app_assoc. reflexivity.
Qed.

Lemma last_capital_word_is_cut_witness :
  process_string (py "1. Data Quality") = Ok (py "1. Data ").
Proof.
  apply (last_capital_word_is_cut (py "1") "D"%char (py "ata ") "Q"%char
           "u"%char (py "ality"));
    (reflexivity || discriminate).
Defined.

(** ** Spellings of a title [N Text] *)

Lemma whitespace_not_digit (c : ascii) :
  is_space c = true -> is_digit c = false.
Proof.
  intros H. destruct (is_digit c) eqn:E; [|reflexivity].
  apply digit_not_whitespace in E. congruence.
Qed.

Lemma whitespace_not_dot (c : ascii) :
  is_space c = true -> Ascii.eqb c "." = false.
Proof.
  destruct (Ascii.eqb_spec c "."%char) as [-> | _]; [|reflexivity].
  vm_compute. discriminate.
Qed.

Lemma run_of_stops (p : ascii -> bool) (c : ascii) (x : str) :
  p c = false -> run_of p (c :: x) = 0.
Proof. intros H. simpl. now rewrite H. Qed.

(** The head of a run of whitespace followed by [t]. *)
Lemma head_after_whitespace (p : ascii -> bool) (ws : str) (t : ascii)
  (title : str) :
  (forall c, is_space c = true -> p c = false) -> p t = false ->
  forallb is_space ws = true ->
  run_of p (ws ++ t :: title) = 0.
Proof.
  intros Hw Ht Hs. destruct ws as [|w ws]; cbn [app].
  - now apply run_of_stops.
  - cbn [forallb] in Hs. apply andb_true_iff in Hs. destruct Hs as [Hs _].
    apply run_of_stops. now apply Hw.
Qed.

Lemma compile_normalize_key_ast :
  compile (py "^(\d+(\.\d+)*)(\.?)(\s*)(.*)")
  = Ok (RSeq
          (RSeq
             (RSeq
                (RSeq RBol
                   (RGroup 1
                      (RSeq
                         (RRep (RChar (CItem (IDigit false))) 1 None true)
                         (RRep
                            (RGroup 2
                               (RSeq (RChar (CItem (IChar ".")))
                                  (RRep (RChar (CItem (IDigit false))) 1
                                     None true)))
                            0 None true))))
                (RGroup 3
                   (RRep (RChar (CItem (IChar "."))) 0 (Some 1) true)))
             (RGroup 4 (RRep (RChar (CItem (ISpace false))) 0 None true)))
          (RGroup 5 (RRep (RChar CAny) 0 None true))).
Proof. vm_compute. reflexivity. Qed.

(** The optional dot, the whitespace and the text after the numbering. *)
Lemma normalize_key_tail (with_dot : bool) (ws : str) (t : ascii)
  (title : str) (pos : nat) (caps : list (nat * (nat * nat))) :
  forallb is_space ws = true ->
  is_space t = false -> Ascii.eqb t "." = false ->
  forallb (fun c => negb (Ascii.eqb c line_feed)) (t :: title) = true ->
  let dots := if with_dot then ["."%char] else [] in
  let p3 := pos + length dots in
  let p4 := p3 + length ws in
  let p5 := p4 + S (length title) in
  re_run false
    (RGroup 3 (RRep (RChar (CItem (IChar "."))) 0 (Some 1) true))
    (MState pos (dots ++ ws ++ t :: title) caps)
    (fun st3 =>
       re_run false
         (RGroup 4 (RRep (RChar (CItem (ISpace false))) 0 None true)) st3
         (fun st4 =>
            re_run false (RGroup 5 (RRep (RChar CAny) 0 None true)) st4
              (fun st => Some st)))
  = Some (MState p5 []
            ((5, (p4, p5)) :: (4, (p3, p4)) :: (3, (pos, p3)) :: caps)).
Proof.
  intros Hws Ht Htd Hnl dots p3 p4 p5.
  assert (Hrun4 : run_of (class_matches false (CItem (ISpace false)))
                    (ws ++ t :: title) = length ws).
  { rewrite run_of_app by exact Hws. rewrite run_of_stops by exact Ht. lia. }
  assert (Hrun5 : run_of (class_matches false CAny) (t :: title)
                  = S (length title)).
  { rewrite run_of_all; [reflexivity | exact Hnl]. }
  assert (Htail : forall caps3,
             re_run false
               (RGroup 4 (RRep (RChar (CItem (ISpace false))) 0 None true))
               (MState p3 (ws ++ t :: title) caps3)
               (fun st4 =>
                  re_run false (RGroup 5 (RRep (RChar CAny) 0 None true)) st4
                    (fun st => Some st))
             = Some (MState p5 []
                       ((5, (p4, p5)) :: (4, (p3, p4)) :: caps3))).
  { intros caps3. rewrite re_run_group. apply greedy_char_run; [lia|].
    cbn [set_cap m_pos m_rest m_caps]. rewrite Hrun4, skipn_app_exact.
    rewrite re_run_group. apply greedy_char_run; [lia|].
    cbn [set_cap m_pos m_rest m_caps]. rewrite Hrun5.
    replace (skipn (S (length title)) (t :: title)) with (@nil ascii)
      by (symmetry; apply skipn_all).
    reflexivity. }
  assert (E3 : p3 = pos + length dots) by reflexivity.
  clearbody p3. rewrite re_run_group. unfold dots in *. clear dots.
  destruct with_dot; cbn [length app] in *.
  - apply optional_char_taken; [reflexivity|].
    cbn [set_cap m_pos m_rest m_caps].
    replace (S pos) with p3 by lia.
    apply Htail.
  - rewrite Nat.add_0_r in E3. subst p3. rewrite rep_body_fails.
    + cbn [set_cap m_pos m_rest m_caps]. apply Htail.
    + intros K. rewrite re_run_char. cbn [m_rest].
      assert (Hhd : run_of (class_matches false (CItem (IChar ".")))
                      (ws ++ t :: title) = 0).
      { apply head_after_whitespace; [|exact Htd | exact Hws].
        intros c Hc. rewrite dot_class. now apply whitespace_not_dot. }
      destruct (ws ++ t :: title) as [|a r]; [reflexivity|].
      cbn [run_of] in Hhd.
      destruct (class_matches false (CItem (IChar ".")) a);
        [discriminate | reflexivity].
Qed.

(** The numbering [N] at the beginning of the key. *)
Lemma normalize_key_head (digits rest : str)
  (k : mstate -> option mstate) (res : mstate) :
  digits <> [] ->
  forallb is_digit digits = true ->
  run_of is_digit rest = 0 ->
  (forall c r, rest = "."%char :: c :: r -> is_digit c = false) ->
  rest <> ["."%char] ->
  k (MState (length digits) rest [(1, (0, length digits))]) = Some res ->
  re_run false
    (RSeq RBol
       (RGroup 1
          (RSeq (RRep (RChar (CItem (IDigit false))) 1 None true)
             (RRep
                (RGroup 2
                   (RSeq (RChar (CItem (IChar ".")))
                      (RRep (RChar (CItem (IDigit false))) 1 None true)))
                0 None true))))
    (MState 0 (digits ++ rest) []) k = Some res.
Proof.
  intros Hne Hd Hrest Hdot Hdot1 Hk.
  assert (Hn : 1 <= length digits)
    by (destruct digits; [contradiction | simpl; lia]).
  assert (Hrun : run_of (class_matches false (CItem (IDigit false)))
                   (digits ++ rest) = length digits).
  { rewrite run_of_app by exact Hd.
    change (class_matches false (CItem (IDigit false))) with is_digit.
    rewrite Hrest. lia. }
  rewrite re_run_seq, re_run_bol. cbn [m_pos Nat.eqb].
  rewrite re_run_group, re_run_seq.
  apply greedy_char_run; [rewrite Hrun; exact Hn|].
  rewrite Hrun, skipn_app_exact. cbn [Nat.add].
  rewrite rep_body_fails.
  - cbn [set_cap m_pos m_rest m_caps]. exact Hk.
  - intros K. rewrite re_run_group, re_run_seq, re_run_char. cbn [m_rest].
    destruct rest as [|a [|c r]]; [reflexivity | |].
    + rewrite dot_class. destruct (Ascii.eqb_spec a "."%char) as [-> | _];
        [contradiction | reflexivity].
    + rewrite dot_class. destruct (Ascii.eqb_spec a "."%char) as [-> | _];
        [|reflexivity].
      apply char_run_fails; [lia|]. cbn [m_rest]. apply run_of_stops.
      rewrite digit_class. now apply (Hdot c r).
Qed.

(** X28. [normalize_keys_with_numbering] gives every spelling of a
    title [N Text] the same key: whether the number is followed by a
    dot or not, and by whatever whitespace, the key becomes
    [N. Text]. *)
Theorem spellings_get_the_same_key (digits : str) (with_dot : bool)
  (ws : str) (t : ascii) (title : str) :
  digits <> [] ->
  forallb is_digit digits = true ->
  forallb is_space ws = true ->
  is_space t = false -> is_digit t = false -> Ascii.eqb t "." = false ->
  forallb (fun c => negb (Ascii.eqb c line_feed)) (t :: title) = true ->
  is_space (last (t :: title) t) = false ->
  normalize_key
    (digits ++ (if with_dot then ["."%char] else []) ++ ws ++ t :: title)
  = Ok (digits ++ py ". " ++ t :: title).
Proof.
  intros Hne Hd Hws Hts Htd Htdot Hnl Hlast.
  unfold normalize_key. rewrite compile_normalize_key_ast. cbn [bind].
  set (dots := if with_dot then ["."%char] else []).
  set (rest := dots ++ ws ++ t :: title).
  set (n := length digits).
  set (p3 := n + length dots).
  set (p4 := p3 + length ws).
  set (p5 := p4 + S (length title)).
  assert (Hm : re_match false
                 (RSeq
                    (RSeq
                       (RSeq
                          (RSeq RBol
                             (RGroup 1
                                (RSeq
                                   (RRep (RChar (CItem (IDigit false))) 1
                                      None true)
                                   (RRep
                                      (RGroup 2
                                         (RSeq (RChar (CItem (IChar ".")))
                                            (RRep
                                               (RChar (CItem (IDigit false)))
                                               1 None true)))
                                      0 None true))))
                          (RGroup 3
                             (RRep (RChar (CItem (IChar "."))) 0 (Some 1)
                                true)))
                       (RGroup 4
                          (RRep (RChar (CItem (ISpace false))) 0 None true)))
                    (RGroup 5 (RRep (RChar CAny) 0 None true)))
                 (digits ++ rest)
               = Some (RMatch 0
                         (MState p5 []
                            [(5, (p4, p5)); (4, (p3, p4)); (3, (n, p3));
                             (1, (0, n))]))).
  { unfold re_match, match_at. cbn [skipn andb].
    rewrite (re_run_seq false (RSeq _ _) (RGroup 5 _)).
    rewrite (re_run_seq false (RSeq _ _) (RGroup 4 _)).
    rewrite (re_run_seq false (RSeq _ _) (RGroup 3 _)).
    rewrite (normalize_key_head digits rest _
               (MState p5 []
                  [(5, (p4, p5)); (4, (p3, p4)); (3, (n, p3)); (1, (0, n))])
               Hne Hd); [reflexivity | | | |].
    - unfold rest, dots. destruct with_dot; cbn [app].
      + now apply run_of_stops.
      + apply head_after_whitespace; [|exact Htd | exact Hws].
        apply whitespace_not_digit.
    - unfold rest, dots. intros c r E. destruct with_dot; cbn [app] in E.
      + injection E as E.
        assert (H0 : run_of is_digit (ws ++ t :: title) = 0).
        { apply head_after_whitespace; [|exact Htd | exact Hws].
          apply whitespace_not_digit. }
        rewrite E in H0. cbn [run_of] in H0.
        destruct (is_digit c); [discriminate | reflexivity].
      + assert (H0 : run_of (fun x => Ascii.eqb x ".") (ws ++ t :: title)
                     = 0).
        { apply head_after_whitespace; [|exact Htdot | exact Hws].
          apply whitespace_not_dot. }
        rewrite E in H0. cbn [run_of] in H0. discriminate.
    - unfold rest, dots. intros E. destruct with_dot; cbn [app] in E.
      + injection E as E. destruct ws; discriminate.
      + destruct ws as [|w ws]; cbn [app] in E.
        * injection E as -> _. discriminate.
        * injection E as _ E. destruct ws; discriminate.
    - apply (normalize_key_tail with_dot ws t title n [(1, (0, n))]
               Hws Hts Htdot Hnl). }
  rewrite Hm. unfold group.
  cbn [rm_end rm_start m_caps lookup_cap Nat.eqb skipn].
  replace (n - 0) with (length digits) by (unfold n; lia).
  rewrite firstn_app_exact. cbn [of_option bind].
  replace (digits ++ rest) with ((digits ++ dots ++ ws) ++ t :: title)
    by (unfold rest; now rewrite <- !app_assoc).
  replace p4 with (length (digits ++ dots ++ ws))
    by (unfold p4, p3, n; rewrite !length_app; lia).
  rewrite skipn_app_exact.
  replace (p5 - length (digits ++ dots ++ ws)) with (length (t :: title))
    by (unfold p5, p4, p3, n; rewrite !length_app; simpl; lia).
  rewrite firstn_all.
  rewrite (strip_trimmed (t :: title)) by (now apply trimmed_ends).
  reflexivity.
Qed.

Lemma spellings_get_the_same_key_witness :
  normalize_key (py "12   Data quality") = Ok (py "12. Data quality").
Proof.
  apply (spellings_get_the_same_key (py "12") false (py "   ") "D"%char
           (py "ata quality"));
    (reflexivity || discriminate).
Defined.

(** ** Title variations, choice by choice *)

(** C8. For a title of [W >= 1] whitespace-separated words
    [generate_title_variations] returns first [2^(W-1)] spacing variants,
    no two of them equal: exactly the texts made of the first word and
    then every further word, after one space or directly after the word
    before it, for each of the keep/drop choices; the first one is the
    title with single spaces.  After them come, for each spacing variant
    in turn, four numbered variants: one to four levels [\d+], the token
    [\s*], and the spacing variant as [re.escape] writes it, which is a
    pattern that matches the spacing variant itself and nothing else.
    The levels are joined by a bare dot, which the code does not escape
    (it is not a character of the title): in the pattern it stands for
    any character, so that the placeholder of two levels is [\d+.\d+]
    and not [\d+\.\d+], and it takes a number without a dot such as
    ["2024"], which the placeholder with the escaped dot refuses. *)
Theorem title_variations_choice_by_choice (title : str) :
  let words := split_ws title in
  1 <= length words ->
  exists spacing numbered,
    generate_title_variations title = Ok (spacing ++ numbered)
    /\ length spacing = 2 ^ (length words - 1)
    /\ NoDup spacing
    /\ (forall v, In v spacing <->
          exists choice, length choice = length words - 1
                         /\ v = chosen_spacing words choice)
    /\ nth 0 spacing [] = join [" "%char] words
    /\ numbered
       = flat_map
           (fun v =>
              map (fun depth =>
                     join ["."%char] (repeat (py "\d+") depth) ++ py "\s*"
                       ++ re_escape v)
                [1; 2; 3; 4])
           spacing
    /\ (forall v, In v spacing -> literal_pattern (re_escape v) v)
    /\ (exists r m,
          compile (join ["."%char] (repeat (py "\d+") 2)) = Ok r
          /\ re_match false r (py "2024") = Some m
          /\ group (py "2024") m 0 = Some (py "2024"))
    /\ (exists r,
          compile (dotted_placeholder 2) = Ok r
          /\ re_match false r (py "2024") = None).
Proof.
  intros words Hlen. unfold generate_title_variations. fold words.
  destruct words as [|w0 rest] eqn:Ew; [simpl in Hlen; lia|].
  rewrite <- Ew in *. clear Hlen.
  set (spacing := map (spacing_variant words) (product_bool (length words - 1))).
  exists spacing,
    (flat_map (fun v => map (numbered_variation v) [1; 2; 3; 4]) spacing).
  split; [reflexivity|]. split.
  { unfold spacing. now rewrite length_map, product_bool_length. }
  split.
  { apply spacing_variants_NoDup. unfold words, split_ws.
    apply split_ws_aux_words. constructor. }
  split.
  { intros v. unfold spacing. rewrite in_map_iff. split.
    - intros (c & <- & Hc). exists c.
      split; [now apply product_bool_spec | apply spacing_variant_chosen].
    - intros (c & Hc & ->). exists c.
      split; [apply spacing_variant_chosen | now apply product_bool_spec]. }
  split.
  { unfold spacing.
    pose proof (product_bool_length (length words - 1)) as Hl.
    pose proof (product_bool_first (length words - 1)) as Hf.
    destruct (product_bool (length words - 1)) as [|c r].
    - simpl in Hl. pose proof (Nat.pow_nonzero 2 (length words - 1)). lia.
    - simpl in *. rewrite Hf. apply spacing_variant_canonical. }
  split; [reflexivity|].
  split; [intros v _; apply re_escape_literal|].
  split.
  - eexists. eexists. repeat split; vm_compute; reflexivity.
  - eexists. split; vm_compute; reflexivity.
Qed.

Lemma title_variations_choice_by_choice_witness :
  exists spacing numbered,
    generate_title_variations (py "Data quality  report")
    = Ok (spacing ++ numbered)
    /\ length spacing = 4
    /\ NoDup spacing
    /\ (forall v, In v spacing <->
          exists choice,
            length choice = 2
            /\ v = chosen_spacing [py "Data"; py "quality"; py "report"] choice)
    /\ nth 0 spacing [] = py "Data quality report"
    /\ numbered
       = flat_map
           (fun v =>
              map (fun depth =>
                     join ["."%char] (repeat (py "\d+") depth) ++ py "\s*"
                       ++ re_escape v)
                [1; 2; 3; 4])
           spacing
    /\ (forall v, In v spacing -> literal_pattern (re_escape v) v)
    /\ (exists r m,
          compile (join ["."%char] (repeat (py "\d+") 2)) = Ok r
          /\ re_match false r (py "2024") = Some m
          /\ group (py "2024") m 0 = Some (py "2024"))
    /\ (exists r,
          compile (dotted_placeholder 2) = Ok r
          /\ re_match false r (py "2024") = None).
Proof.
  apply (title_variations_choice_by_choice (py "Data quality  report")).
  vm_compute. lia.
Defined.
